(** * deepin-network-proxy: the transparent data path

    A shallow embedding of the socket helpers of package [Com]
    (src/Iptables/iptablesMember.go, from line 501 on) and of the SOCKS5
    negotiation [TcpSock5Handler.Tunnel] (src/unnamed/part_000), with the
    properties of the specification stated over them.

    Bytes are integers ([Z]) in 0..255; a Go slice keeps the elements
    up to its length and the rest of its backing array up to its
    capacity; a Go function that can fail at run time (slice bounds,
    reflection) returns an [outcome]. *)

From Stdlib Require Import ZArith List Bool String Ascii Lia.
From Stdlib Require Import DecimalString.
Import ListNotations.
Local Open Scope Z_scope.

(** ** Go values *)

Module Go.

Definition byte := Z.

(** A run of a Go function: it returns, or it panics. *)
Inductive outcome (A : Type) : Type :=
| Ret (a : A)
| Panic.
Arguments Ret {A} a.
Arguments Panic {A}.

Definition obind {A B} (o : outcome A) (k : A -> outcome B) : outcome B :=
  match o with
  | Ret a => k a
  | Panic => Panic
  end.

Notation "x <~ c ; k" := (obind c (fun x => k))
  (at level 61, c at next level, right associativity).

(** A slice: [elems] are the bytes below [len], [spare] the bytes of the
    backing array between [len] and [cap]. *)
Record slice : Type := mkSlice { elems : list byte; spare : list byte }.

Definition backing (s : slice) : list byte := elems s ++ spare s.
Definition len (s : slice) : nat := List.length (elems s).
Definition cap (s : slice) : nat := List.length (backing s).

(** [make([]byte, n)], and a slice holding exactly the given bytes. *)
Definition make (n : nat) : list byte := repeat 0 n.
Definition fresh (bs : list byte) : slice := mkSlice bs [].

Definition sub (lo hi : nat) (l : list byte) : list byte :=
  firstn (hi - lo) (skipn lo l).

(** [s[lo:hi]]: the bounds are checked against the capacity. *)
Definition reslice (s : slice) (lo hi : nat) : outcome slice :=
  if ((lo <=? hi) && (hi <=? cap s))%nat
  then Ret (mkSlice (sub lo hi (backing s)) (skipn hi (backing s)))
  else Panic.

(** [s[lo:]]: the upper bound is the length. *)
Definition reslice_from (s : slice) (lo : nat) : outcome slice :=
  reslice s lo (len s).

(** [binary.BigEndian.Uint16(b)]: [_ = b[1]] is the bounds check. *)
Definition BigEndian_Uint16 (b : slice) : outcome Z :=
  match elems b with
  | b0 :: b1 :: _ => Ret (Z.lor b1 (Z.shiftl b0 8))
  | _ => Panic
  end.

(** [binary.BigEndian.PutUint16(b, v)] on a fresh 2-byte slice. *)
Definition BigEndian_PutUint16 (v : Z) : list byte :=
  [Z.shiftr v 8 mod 256; v mod 256].

(** A Go string is its bytes. *)
Definition bytes_of_string (s : string) : list byte :=
  map (fun a => Z.of_N (N_of_ascii a)) (list_ascii_of_string s).

(** [net.IP] is a byte slice; the nil address is the empty list, and
    [To4] and [To16] give [None] for nil. *)
Definition IP := list byte.

Definition IPv4len : nat := 4.
Definition IPv6len : nat := 16.

Definition v4InV6Prefix : list byte := [0; 0; 0; 0; 0; 0; 0; 0; 0; 0; 255; 255].

Definition bytes_eqb (a b : list byte) : bool :=
  if list_eq_dec Z.eq_dec a b then true else false.

(** [net.IPv4(a, b, c, d)]: the 16-byte form. *)
Definition IPv4 (a b c d : byte) : IP := v4InV6Prefix ++ [a; b; c; d].

(** [ip.To4()]. *)
Definition To4 (ip : IP) : option IP :=
  if (List.length ip =? IPv4len)%nat then Some ip
  else if ((List.length ip =? IPv6len)%nat
           && bytes_eqb (firstn 12 ip) v4InV6Prefix)%bool
       then Some (sub 12 16 ip)
       else None.

(** [ip.To16()]. *)
Definition To16 (ip : IP) : option IP :=
  if (List.length ip =? IPv4len)%nat
  then Some (IPv4 (nth 0 ip 0) (nth 1 ip 0) (nth 2 ip 0) (nth 3 ip 0))
  else if (List.length ip =? IPv6len)%nat then Some ip
       else None.

Definition isSome {A} (o : option A) : bool :=
  match o with Some _ => true | None => false end.

(** The bytes [append] takes from an address; nil gives none. *)
Definition bytesOf (o : option IP) : list byte :=
  match o with Some bs => bs | None => [] end.

(** [net.Addr]: the concrete address types of the program.  [DomainAddr]
    is declared outside the files at hand; [Tunnel] reads its [Domain]
    and [Port] fields. *)
Inductive Addr : Type :=
| TCPAddr (ip : IP) (port : Z)
| UDPAddr (ip : IP) (port : Z)
| DomainAddr (domain : string) (port : Z).

Inductive AddrType : Type := TyTCPAddr | TyUDPAddr | TyDomainAddr.

(** [reflect.TypeOf(addr)]. *)
Definition TypeOf (a : Addr) : AddrType :=
  match a with
  | TCPAddr _ _ => TyTCPAddr
  | UDPAddr _ _ => TyUDPAddr
  | DomainAddr _ _ => TyDomainAddr
  end.

Definition AddrType_eqb (a b : AddrType) : bool :=
  match a, b with
  | TyTCPAddr, TyTCPAddr | TyUDPAddr, TyUDPAddr
  | TyDomainAddr, TyDomainAddr => true
  | _, _ => false
  end.

(** [reflect.Indirect(reflect.ValueOf(addr)).FieldByName("IP").Bytes()]:
    a struct without that field gives the zero [Value], on which
    [Bytes] panics. *)
Definition FieldIP (a : Addr) : outcome IP :=
  match a with
  | TCPAddr ip _ | UDPAddr ip _ => Ret ip
  | DomainAddr _ _ => Panic
  end.

(** [….FieldByName("Port").Int()]. *)
Definition FieldPort (a : Addr) : outcome Z :=
  match a with
  | TCPAddr _ p | UDPAddr _ p | DomainAddr _ p => Ret p
  end.

(** Go's [error] values, one constructor per error the program makes;
    [Errno] is a system call's error number, [IOError] an error of the
    upstream connection. *)
Inductive error : Type :=
| Errno (e : Z)
| IOError (e : Z)
| EOF
| ErrUnexpectedEOF
| ErrParseBufNil             (* "parse buf is nil" *)
| ErrSolIPNotFound           (* "sol_ip type is not found int msg_hdr" *)
| ErrAddrNotMatch            (* "dial local addr is not match with remote addr" *)
| ErrLocalIPIncorrect        (* "local ip is incorrect" *)
| ErrSockTypeNotTcpUdp       (* "sock type is not tcp and udp" *)
| ErrAddrTypNotTcpUdp        (* "addr typ is not tcp addr or udp addr" *)
| ErrIPNotV4V6               (* "ip is not ipv4 or ipv6" *)
| ErrNewFileNil              (* "create new file is nil" *)
| ErrDial (e : Z)            (* what dialProxy returned *)
| ErrTypeNotTcp              (* "type is not tcp" *)
| ErrSock5ProtoInvalid (ver method : byte)
                             (* "sock5 proto is invalid, sock type: %v, method: %v" *)
| ErrAuthResponse (code : byte)
                             (* "incorrect sock5 auth response, code: %v" *)
| ErrIPInvalid               (* "ip invalid" *)
| ErrDomainTooLong           (* "domain name out of max length" *)
| ErrConnectResponse (ver code : byte)
                             (* "incorrect sock5 connect reponse, version: %v, code: %v" *)
| ErrInvalidIP.              (* "invalid ip" *)

(** Code that works on a state [S] (the kernel's sockets, a
    connection): it returns a value, returns an error, or panics. *)
Inductive res (A : Type) : Type :=
| Ok (a : A)
| Fail (e : error)
| Crash.
Arguments Ok {A} a.
Arguments Fail {A} e.
Arguments Crash {A}.

Definition M (S A : Type) : Type := S -> res A * S.

Definition ret {S A} (a : A) : M S A := fun s => (Ok a, s).
Definition fail {S A} (e : error) : M S A := fun s => (Fail e, s).
Definition bind {S A B} (m : M S A) (k : A -> M S B) : M S B :=
  fun s =>
    match m s with
    | (Ok a, s') => k a s'
    | (Fail e, s') => (Fail e, s')
    | (Crash, s') => (Crash, s')
    end.
Definition lift {S A} (o : outcome A) : M S A :=
  fun s => match o with Ret a => (Ok a, s) | Panic => (Crash, s) end.

Notation "x <- c ;; k" := (bind c (fun x => k))
  (at level 61, c at next level, right associativity).
Notation "c ;; k" := (bind c (fun _ => k))
  (at level 61, right associativity).

End Go.

Import Go.

(** ** Package Com (iptablesMember.go, from line 501) *)

Module Com.

(** *** Constants of package syscall (linux/amd64) *)

Definition AF_INET : Z := 2.
Definition AF_INET6 : Z := 10.
Definition SOCK_STREAM : Z := 1.
Definition SOCK_DGRAM : Z := 2.
Definition SOL_SOCKET : Z := 1.
Definition SOL_IP : Z := 0.
Definition SOL_IPV6 : Z := 41.
Definition SO_TYPE : Z := 3.
Definition SO_REUSEADDR : Z := 2.
Definition IP_TRANSPARENT : Z := 19.
Definition IP_RECVORIGDSTADDR : Z := 20.
Definition EBADF : Z := 9.
Definition EINVAL : Z := 22.

(** *** Control messages: [syscall.ParseSocketControlMessage] *)

Record Cmsghdr : Type := mkCmsghdr { Len : Z; Level : Z; Type_ : Z }.

Record SocketControlMessage : Type :=
  mkSocketControlMessage { Header : Cmsghdr; Data : slice }.

Definition SizeofCmsghdr : nat := 16.

(** [(salen + salign - 1) & ^(salign - 1)] with [salign = 8]. *)
Definition cmsgAlignOf (salen : nat) : nat :=
  Z.to_nat (Z.land (Z.of_nat salen + 8 - 1) (Z.lnot (8 - 1))).

Definition CmsgLen (datalen : nat) : nat :=
  (cmsgAlignOf SizeofCmsghdr + datalen)%nat.

(** Little-endian fields of the header, as the cast of the buffer's
    first bytes to [*Cmsghdr] reads them. *)
Definition le_uint (bs : list byte) : Z :=
  fold_right (fun b acc => b + 256 * acc) 0 bs.

Definition le_int32 (bs : list byte) : Z :=
  let u := le_uint bs in if u <? 2 ^ 31 then u else u - 2 ^ 32.

Definition headerOf (b : slice) : Cmsghdr :=
  {| Len := le_uint (sub 0 8 (elems b));
     Level := le_int32 (sub 8 12 (elems b));
     Type_ := le_int32 (sub 12 16 (elems b)) |}.

(** [socketControlMessageHeaderAndData]. *)
Definition socketControlMessageHeaderAndData (b : slice)
  : outcome (error + Cmsghdr * slice) :=
  let h := headerOf b in
  if (Len h <? Z.of_nat SizeofCmsghdr) || (Z.of_nat (len b) <? Len h)
  then Ret (inl (Errno EINVAL))
  else
    dbuf <~ reslice b (cmsgAlignOf SizeofCmsghdr) (Z.to_nat (Len h));
    Ret (inr (h, dbuf)).

(** The loop [for i+CmsgLen(0) <= len(b)] of
    [ParseSocketControlMessage]; every round moves [i] forward by at
    least one header, so [fuel] rounds are enough when [fuel] exceeds
    the length of [b]. *)
Fixpoint parseLoop (fuel : nat) (b : slice) (i : nat)
    (msgs : list SocketControlMessage)
  : outcome (error + list SocketControlMessage) :=
  match fuel with
  | O => Ret (inr msgs)
  | S fuel' =>
    if (i + CmsgLen 0 <=? len b)%nat then
      bi <~ reslice_from b i;
      r <~ socketControlMessageHeaderAndData bi;
      match r with
      | inl e => Ret (inl e)
      | inr (h, dbuf) =>
        parseLoop fuel' b (i + cmsgAlignOf (Z.to_nat (Len h)))%nat
                  (msgs ++ [mkSocketControlMessage h dbuf])
      end
    else Ret (inr msgs)
  end.

Definition ParseSocketControlMessage (b : slice)
  : outcome (error + list SocketControlMessage) :=
  parseLoop (S (len b)) b 0 [].

(** *** Origin-destination recovery *)

Record BaseAddr : Type := mkBaseAddr { IP : Go.IP; Port : Z }.

(** One round of the loop over [msgSl] in [ParseRemoteAddrFromMsgHdr]:
    [addr] is the variable the loop assigns. *)
Definition scanMsg (msg : SocketControlMessage) (addr : option BaseAddr)
  : outcome (option BaseAddr) :=
  if (Level (Header msg) =? SOL_IP) && (Type_ (Header msg) =? IP_RECVORIGDSTADDR)
  then
    ip <~ reslice (Data msg) 4 8;
    p <~ reslice (Data msg) 2 4;
    port <~ BigEndian_Uint16 p;
    Ret (Some {| IP := elems ip; Port := port |})
  else if (Level (Header msg) =? SOL_IPV6)
          && (Type_ (Header msg) =? IP_RECVORIGDSTADDR)
  then
    ip <~ reslice (Data msg) 8 24;
    p <~ reslice (Data msg) 2 4;
    port <~ BigEndian_Uint16 p;
    Ret (Some {| IP := elems ip; Port := port |})
  else Ret addr.

Fixpoint scanMsgs (msgSl : list SocketControlMessage) (addr : option BaseAddr)
  : outcome (option BaseAddr) :=
  match msgSl with
  | [] => Ret addr
  | msg :: rest => addr' <~ scanMsg msg addr; scanMsgs rest addr'
  end.

(** [ParseRemoteAddrFromMsgHdr] (616-646); [None] is the nil buffer.
    The result is Go's pair [(addr, err)]. *)
Definition ParseRemoteAddrFromMsgHdr (buf : option slice)
  : outcome (option BaseAddr * option error) :=
  match buf with
  | None => Ret (None, Some ErrParseBufNil)
  | Some b =>
    r <~ ParseSocketControlMessage b;
    match r with
    | inl err => Ret (None, Some err)
    | inr msgSl =>
      addr <~ scanMsgs msgSl None;
      match addr with
      | None => Ret (None, Some ErrSolIPNotFound)
      | Some a => Ret (Some a, None)
      end
    end
  end.

(** *** UDP relay framing *)

Record DataPackage : Type := mkDataPackage { Addr : Go.Addr; Payload : slice }.

(** [UnMarshalPackage] (803-815); [Payload] is the field [Data]. *)
Definition UnMarshalPackage (msg : slice) : outcome DataPackage :=
  addr <~ reslice msg 4 8;
  p <~ reslice msg 8 10;
  port <~ BigEndian_Uint16 p;
  data <~ reslice_from msg 10;
  Ret {| Addr := UDPAddr (elems addr) port; Payload := data |}.

(** *** The kernel's sockets *)

(** The system calls the dialer makes; [fault] of the kernel decides
    which of them fail, and with which error number. *)
Inductive Call : Type :=
| CallSocket
| CallGetsockopt (level opt : Z)
| CallSetsockopt (level opt : Z)
| CallBind
| CallConnect
| CallFileConn.

Record Sock : Type := mkSock { s_fd : Z; s_domain : Z; s_typ : Z }.

(** [open] holds the descriptors that are open; a descriptor leaves it
    only through [Close]. *)
Record Kernel : Type := mkKernel {
  fault : Call -> option Z;
  next_fd : Z;
  open : list Sock
}.

Definition K (A : Type) : Type := M Kernel A.

Definition lookup_fd (fd : Z) (l : list Sock) : option Sock :=
  find (fun s => s_fd s =? fd) l.

Definition is_open (fd : Z) (k : Kernel) : bool :=
  isSome (lookup_fd fd (open k)).

(** [syscall.Socket(domain, typ, proto)]. *)
Definition Socket (domain typ proto : Z) : K Z :=
  fun k =>
    match fault k CallSocket with
    | Some e => (Fail (Errno e), k)
    | None =>
      (Ok (next_fd k),
       {| fault := fault k; next_fd := next_fd k + 1;
          open := mkSock (next_fd k) domain typ :: open k |})
    end.

(** [syscall.Close(fd)]. *)
Definition Close (fd : Z) : K unit :=
  fun k =>
    if is_open fd k
    then (Ok tt,
          {| fault := fault k; next_fd := next_fd k;
             open := filter (fun s => negb (s_fd s =? fd)) (open k) |})
    else (Fail (Errno EBADF), k).

(** [syscall.GetsockoptInt(fd, level, opt)]; the only option read is
    [SO_TYPE]. *)
Definition GetsockoptInt (fd level opt : Z) : K Z :=
  fun k =>
    match fault k (CallGetsockopt level opt) with
    | Some e => (Fail (Errno e), k)
    | None =>
      match lookup_fd fd (open k) with
      | Some s => (Ok (s_typ s), k)
      | None => (Fail (Errno EBADF), k)
      end
    end.

(** [syscall.SetsockoptInt(fd, level, opt, value)]. *)
Definition SetsockoptInt (fd level opt value : Z) : K unit :=
  fun k =>
    match fault k (CallSetsockopt level opt) with
    | Some e => (Fail (Errno e), k)
    | None => if is_open fd k then (Ok tt, k) else (Fail (Errno EBADF), k)
    end.

Inductive Sockaddr : Type :=
| SockaddrInet4 (port : Z) (addr : list byte)
| SockaddrInet6 (port : Z) (addr : list byte).

(** [syscall.Bind(fd, sa)] and [syscall.Connect(fd, sa)]. *)
Definition Bind (fd : Z) (sa : Sockaddr) : K unit :=
  fun k =>
    match fault k CallBind with
    | Some e => (Fail (Errno e), k)
    | None => if is_open fd k then (Ok tt, k) else (Fail (Errno EBADF), k)
    end.

Definition Connect (fd : Z) (sa : Sockaddr) : K unit :=
  fun k =>
    match fault k CallConnect with
    | Some e => (Fail (Errno e), k)
    | None => if is_open fd k then (Ok tt, k) else (Fail (Errno EBADF), k)
    end.

(** [os.NewFile(uintptr(fd), name)]: nil for a negative descriptor. *)
Definition NewFile (fd : Z) : option Z :=
  if fd <? 0 then None else Some fd.

(** [net.FileConn(file)]: the connection works on a duplicate of the
    file's descriptor; the result is that duplicate. *)
Definition FileConn (file : Z) : K Z :=
  fun k =>
    match fault k CallFileConn with
    | Some e => (Fail (Errno e), k)
    | None =>
      match lookup_fd file (open k) with
      | Some s =>
        (Ok (next_fd k),
         {| fault := fault k; next_fd := next_fd k + 1;
            open := mkSock (next_fd k) (s_domain s) (s_typ s) :: open k |})
      | None => (Fail (Errno EBADF), k)
      end
    end.

(** *** Transparent dialer *)

(** [SetSockOptTrn] (585-607). *)
Definition SetSockOptTrn (fd : Z) : K unit :=
  soTyp <- GetsockoptInt fd SOL_SOCKET SO_TYPE ;;
  if negb (soTyp =? SOCK_STREAM) && negb (soTyp =? SOCK_DGRAM)
  then fail ErrSockTypeNotTcpUdp
  else
    SetsockoptInt fd SOL_SOCKET SO_REUSEADDR 1 ;;
    SetsockoptInt fd SOL_IP IP_TRANSPARENT 1 ;;
    SetsockoptInt fd SOL_IP IP_RECVORIGDSTADDR 1 ;;
    ret tt.

(** [reflect.TypeOf(addr).ConvertibleTo] the type of [*net.UDPAddr] or
    of [*net.TCPAddr]: the two structs have the same fields. *)
Definition convertibleToIPAddr (a : Go.Addr) : bool :=
  match a with
  | TCPAddr _ _ | UDPAddr _ _ => true
  | DomainAddr _ _ => false
  end.

(** [convertAddrToSockAddr] (715-744). *)
Definition convertAddrToSockAddr (addr : Go.Addr) : K Sockaddr :=
  if negb (convertibleToIPAddr addr) then fail ErrAddrTypNotTcpUdp
  else
    ip <- lift (FieldIP addr) ;;
    port <- lift (FieldPort addr) ;;
    let port := if port =? 0 then 80 else port in
    match To4 ip with
    | Some ip4 => ret (SockaddrInet4 port ip4)
    | None =>
      match To16 ip with
      | Some ip16 => ret (SockaddrInet6 port ip16)
      | None => fail ErrIPNotV4V6
      end
    end.

(** [MegaDial] (649-712); the result is the connection's descriptor. *)
Definition MegaDial (network : string) (lAddr rAddr : Go.Addr) : K Z :=
  if negb (AddrType_eqb (TypeOf lAddr) (TypeOf rAddr))
  then fail ErrAddrNotMatch
  else
    ip <- lift (FieldIP lAddr) ;;
    domain <- (if isSome (To4 ip) then ret AF_INET
               else if isSome (To16 ip) then ret AF_INET6
                    else fail ErrLocalIPIncorrect) ;;
    let typ := if String.eqb network "tcp" then SOCK_STREAM
               else if String.eqb network "udp" then SOCK_DGRAM
                    else 0 in
    fd <- Socket domain typ 0 ;;
    SetSockOptTrn fd ;;
    lSockAddr <- convertAddrToSockAddr lAddr ;;
    rSockAddr <- convertAddrToSockAddr rAddr ;;
    Bind fd lSockAddr ;;
    Connect fd rSockAddr ;;
    match NewFile fd with
    | None => fail ErrNewFileNil
    | Some file => FileConn file
    end.

End Com.

(** ** Package TProxy: the SOCKS5 negotiation (part_000, 54-265) *)

Module TProxy.

(** *** The upstream connection *)

(** What the proxy server sends arrives in chunks, one per successful
    [Read]; [Broken] is a read that fails. *)
Inductive chunk : Type :=
| Recv (bs : list byte)
| Broken (e : Z).

(** [written] lists the buffers written so far, oldest first;
    [wbudget] is the number of writes that will still succeed ([None]:
    all of them). *)
Record Conn : Type := mkConn {
  incoming : list chunk;
  written : list (list byte);
  wbudget : option nat
}.

Definition T (A : Type) : Type := M Conn A.

Definition EPIPE : Z := 32.

(** [rConn.Write(buf)]. *)
Definition Write (buf : list byte) : T unit :=
  fun c =>
    match wbudget c with
    | Some O => (Fail (IOError EPIPE), c)
    | Some (S n) =>
      (Ok tt, {| incoming := incoming c; written := written c ++ [buf];
                 wbudget := Some n |})
    | None =>
      (Ok tt, {| incoming := incoming c; written := written c ++ [buf];
                 wbudget := None |})
    end.

(** [rConn.Read(buf)]: the next chunk overwrites the front of [buf];
    what does not fit stays in the connection.  The result is [buf]
    after the call. *)
Definition Read (buf : list byte) : T (list byte) :=
  fun c =>
    match incoming c with
    | [] => (Fail EOF, c)
    | Broken e :: rest =>
      (Fail (IOError e),
       {| incoming := rest; written := written c; wbudget := wbudget c |})
    | Recv bs :: rest =>
      let n := Nat.min (List.length bs) (List.length buf) in
      (Ok (firstn n bs ++ skipn n buf),
       {| incoming := if (List.length bs <=? List.length buf)%nat then rest
                      else Recv (skipn n bs) :: rest;
          written := written c; wbudget := wbudget c |})
    end.

(** The loop of [io.ReadFull]: [need] bytes are still missing, [got]
    are the bytes read so far. *)
Fixpoint readFull (inc : list chunk) (need : nat) (got : list byte)
  : res (list byte) * list chunk :=
  match need with
  | O => (Ok got, inc)
  | S _ =>
    match inc with
    | [] => (Fail (match got with [] => EOF | _ => ErrUnexpectedEOF end), [])
    | Broken e :: rest => (Fail (IOError e), rest)
    | Recv bs :: rest =>
      if (List.length bs <=? need)%nat
      then readFull rest (need - List.length bs) (got ++ bs)
      else (Ok (got ++ firstn need bs), Recv (skipn need bs) :: rest)
    end
  end.

(** [io.ReadFull(rConn, buf[0:n])]; the result is [buf[0:n]] after the
    call. *)
Definition ReadFull (n : nat) : T (list byte) :=
  fun c =>
    let (r, inc) := readFull (incoming c) n [] in
    (r, {| incoming := inc; written := written c; wbudget := wbudget c |}).

(** *** The handler *)

Record Proxy : Type := mkProxy { UserName : string; Password : string }.

Record Handler : Type := mkHandler { proxy : Proxy; rAddr : Go.Addr }.

Record auth : Type := mkAuth { user : string; password : string }.

(** [buf[i] = v]. *)
Fixpoint store (i : nat) (v : byte) (buf : list byte) : list byte :=
  match buf, i with
  | [], _ => []
  | _ :: t, O => v :: t
  | h :: t, S i' => h :: store i' v t
  end.

Definition nonempty (s : string) : bool := negb (String.eqb s EmptyString).

(** The type switch on [handler.rAddr] (62-75): the port, the address
    and the domain name of the target. *)
Definition target (rAddr : Go.Addr) : error + (Z * Go.IP * string) :=
  let port := 0 in
  let dominname := EmptyString in
  match rAddr with
  | TCPAddr ip _ => inr (port, ip, dominname)
  | DomainAddr domain p => inr (p mod 65536, IPv4 0 0 0 1, domain)
  | _ => inl ErrTypeNotTcp
  end.

(** The hand-shake request (91-98). *)
Definition greeting (a : auth) : list byte :=
  let buf := store 2 0 (store 1 1 (store 0 5 (make 3))) in
  if nonempty (user a) && nonempty (password a)
  then store 1 2 buf ++ [2]
  else buf.

(** The auth request (133-138). *)
Definition authRequest (a : auth) : list byte :=
  let buf := store 0 1 (make 1) in
  let buf := buf ++ [Z.of_nat (String.length (user a)) mod 256] in
  let buf := buf ++ bytes_of_string (user a) in
  let buf := buf ++ [Z.of_nat (String.length (password a)) mod 256] in
  buf ++ bytes_of_string (password a).

(** The auth sub-negotiation (133-156). *)
Definition authenticate (a : auth) : T unit :=
  Write (authRequest a) ;;
  buf <- Read (make 32) ;;
  if negb (nth 0 buf 0 =? 5) && negb (nth 0 buf 0 =? 1)
  then fail (ErrAuthResponse (nth 0 buf 0))
  else ret tt.

(** The connect request (167-196). *)
Definition connectRequest (dominname : string) (ip : Go.IP) (port : Z)
  : error + list byte :=
  let buf := store 2 0 (store 1 1 (store 0 5 (make 4))) in
  let r :=
    if String.eqb dominname EmptyString then
      if (List.length ip =? IPv4len)%nat && isSome (To4 ip)
      then inr (store 3 1 buf ++ bytesOf (To4 ip))
      else if isSome (To16 ip)
           then inr (store 3 4 buf ++ bytesOf (To16 ip))
           else inl ErrIPInvalid
    else if (255 <? String.length dominname)%nat then inl ErrDomainTooLong
    else inr ((store 3 3 buf ++ [Z.of_nat (String.length dominname) mod 256])
              ++ bytes_of_string dominname) in
  match r with
  | inl e => inl e
  | inr buf =>
    let port := if port =? 0 then 80 else port in
    inr (buf ++ BigEndian_PutUint16 port)
  end.

(** The connect response (208-258). *)
Definition connectReply : T unit :=
  buf <- ReadFull 3 ;;
  if negb (nth 0 buf 0 =? 5) || negb (nth 1 buf 0 =? 0)
  then fail (ErrConnectResponse (nth 0 buf 0) (nth 1 buf 0))
  else
    buf <- ReadFull 1 ;;
    addrLen <- (if nth 0 buf 0 =? 1 then ret 4%nat
                else if nth 0 buf 0 =? 4 then ret 16%nat
                else if nth 0 buf 0 =? 3 then
                       buf <- ReadFull 1 ;; ret (Z.to_nat (nth 0 buf 0))
                     else fail ErrInvalidIP) ;;
    ReadFull addrLen ;;
    ReadFull 2 ;;
    ret tt.

(** From the connect request to the end (167-258). *)
Definition connect (dominname : string) (ip : Go.IP) (port : Z) : T unit :=
  match connectRequest dominname ip port with
  | inl e => fail e
  | inr buf => Write buf ;; connectReply
  end.

(** [Tunnel] after the proxy server is dialed (62-258), on the
    connection [dialProxy] returned. *)
Definition negotiate (handler : Handler) : T unit :=
  match target (rAddr handler) with
  | inl e => fail e
  | inr (port, ip, dominname) =>
    let a := {| user := UserName (proxy handler);
                password := Password (proxy handler) |} in
    let buf := greeting a in
    Write buf ;;
    buf <- Read buf ;;
    if negb (nth 0 buf 0 =? 5)
       || (negb (nth 1 buf 0 =? 0) && negb (nth 1 buf 0 =? 2))
    then fail (ErrSock5ProtoInvalid (nth 0 buf 0) (nth 1 buf 0))
    else
      (if nth 1 buf 0 =? 2 then authenticate a else ret tt) ;;
      connect dominname ip port
  end.

(** [Tunnel] (54-265).  [dialProxy] is what [handler.dialProxy()]
    returns: an error, or the connection to the proxy server.  The
    result is the returned error ([Ok tt] for nil) and the upstream
    connection as the call leaves it; on [Ok tt] that connection is
    saved in [handler.rConn]. *)
Definition runOn (m : T unit) (rConn : Conn) : res unit * option Conn :=
  (fst (m rConn), Some (snd (m rConn))).

Definition Tunnel (handler : Handler) (dialProxy : Z + Conn)
  : res unit * option Conn :=
  match dialProxy with
  | inl e => (Fail (ErrDial e), None)
  | inr rConn => runOn (negotiate handler) rConn
  end.

End TProxy.

(** ** Package Com, continued: what the claims' code places leave out *)

Module ComRest.

Import Com TProxy.

(** *** UDP relay framing: the encoder *)

(** [MarshalPackage] (752-800); [None] is the nil result.  The address
    fields are read by reflection before [proto] is looked at. *)
Definition MarshalPackage (pkg : DataPackage) (proto : string)
  : outcome (option (list byte)) :=
  ip <~ FieldIP (Addr pkg);
  netPort <~ FieldPort (Addr pkg);
  let data := elems (Payload pkg) in
  let buf := store 0 0 (make 4) in
  if String.eqb proto "tcp" then Ret None
  else if String.eqb proto "udp" then
    let buf := store 1 0 buf in
    let buf := store 2 0 (store 1 0 buf) in
    let buf :=
      if isSome (To4 ip) then store 3 1 buf ++ bytesOf (To4 ip)
      else if isSome (To16 ip) then store 3 1 buf ++ bytesOf (To16 ip)
           else store 3 3 buf ++ ip in
    let port := BigEndian_PutUint16 (netPort mod 65536) in
    let buf := buf ++ port in
    Ret (Some (buf ++ data))
  else Ret None.

(** *** Origin-destination recovery: TCP *)

(** [GetTcpRemoteAddr] (530-550).  [file] is what [conn.File()]
    returns (an error number, or the descriptor of the file);
    [getsockopt fd] is what [unix.GetsockoptIPv6Mreq(fd, IPPROTO_IP,
    SoOriginalDst)] returns: an error number, or the 16 bytes of
    [req.Multiaddr]. *)
Definition GetTcpRemoteAddr (file : Z + Z) (getsockopt : Z -> Z + list byte)
  : error + Go.Addr :=
  match file with
  | inl err => inl (Errno err)
  | inr fd =>
    match getsockopt fd with
    | inl err => inl (Errno err)
    | inr Multiaddr =>
      inr (TCPAddr (sub 4 8 Multiaddr)
                   (Z.shiftl (nth 2 Multiaddr 0) 8 + nth 3 Multiaddr 0))
    end
  end.

End ComRest.

(** ** Package Iptables (iptablesMember.go, 1-499) *)

Module Iptables.

(** A Go slice of rules: [None] is the nil slice, which
    [reflect.DeepEqual] tells from an empty one. *)
Definition rules (A : Type) : Type := option (list A).

Definition items {A : Type} (s : rules A) : list A :=
  match s with
  | Some l => l
  | None => []
  end.

(** [strconv.Itoa] and [strings.Join]. *)
Definition Itoa (i : Z) : string := NilZero.string_of_int (Z.to_int i).

Definition Join (elems : list string) (sep : string) : string :=
  String.concat sep elems.

(** *** Rules and their words *)

Module BaseRule.

Record t : Type := mk { Match : string; Param : string }.

(** [BaseRule.String] (98-100). *)
Definition String (bs : t) : string :=
  ("-" ++ Match bs ++ " " ++ Param bs)%string.

End BaseRule.

Module ExtendsElem.

Record t : Type := mk { Match : string; Base : rules BaseRule.t }.

(** [ExtendsElem.StringSl] (109-117). *)
Definition StringSl (elem : t) : list string :=
  let result := [Match elem] in
  fold_left
    (fun result bs =>
       result ++ [("--" ++ BaseRule.Match bs)%string; BaseRule.Param bs])
    (items (Base elem)) result.

End ExtendsElem.

Module ExtendsRule.

Record t : Type := mk { Match : string; Base : rules ExtendsElem.t }.

(** [ExtendsRule.StringSl] (126-134). *)
Definition StringSl (ex : t) : list string :=
  let result := [("-" ++ Match ex)%string] in
  fold_left (fun result elem => result ++ ExtendsElem.StringSl elem)
            (items (Base ex)) result.

End ExtendsRule.

Module containRule.

Record t : Type := mk {
  action : string;
  bsRules : rules BaseRule.t;
  exRules : rules ExtendsRule.t
}.

(** [containRule.StringSl] (144-158). *)
Definition StringSl (cn : t) : list string :=
  let result := [] in
  let result :=
    if negb (String.eqb (action cn) EmptyString)
    then result ++ ["-j"%string; action cn]
    else result in
  let result :=
    fold_left (fun result bs => result ++ [BaseRule.String bs])
              (items (bsRules cn)) result in
  fold_left (fun result ex => result ++ ExtendsRule.StringSl ex)
            (items (exRules cn)) result.

(** [reflect.DeepEqual] on two rules: strings by their bytes, slices
    by nil-ness, length and elements. *)
Definition BaseRule_eq_dec (a b : BaseRule.t) : {a = b} + {a <> b}.
Proof. decide equality; apply string_dec. Defined.

Definition ExtendsElem_eq_dec (a b : ExtendsElem.t) : {a = b} + {a <> b}.
Proof.
  decide equality; [|apply string_dec].
  decide equality. apply list_eq_dec. apply BaseRule_eq_dec.
Defined.

Definition ExtendsRule_eq_dec (a b : ExtendsRule.t) : {a = b} + {a <> b}.
Proof.
  decide equality; [|apply string_dec].
  decide equality. apply list_eq_dec. apply ExtendsElem_eq_dec.
Defined.

Definition eq_dec (a b : t) : {a = b} + {a <> b}.
Proof.
  decide equality.
  - decide equality. apply list_eq_dec. apply ExtendsRule_eq_dec.
  - decide equality. apply list_eq_dec. apply BaseRule_eq_dec.
  - apply string_dec.
Defined.

Definition DeepEqual (a b : t) : bool :=
  if eq_dec a b then true else false.

End containRule.

(** *** Chains *)

(** A [*ChainRule] is an address in the heap of chains; an address
    beyond the heap stands for nil. *)
Definition ptr : Type := nat.

Module ChainRule.

Record t : Type := mk {
  chain : string;
  parent : option ptr;
  sonSl : list ptr;
  containSl : rules containRule.t
}.

(** The loop of [ChainRule.StringSl]: [index] counts the rules. *)
Fixpoint lines (chain : string) (containSl : list containRule.t)
    (index : Z) (result : list string) : list string :=
  match containSl with
  | [] => result
  | contain :: rest =>
    let entry := ["-I"%string; chain; Itoa index] in
    let entry := entry ++ containRule.StringSl contain in
    lines chain rest (index + 1) (result ++ [Join entry " "])
  end.

(** [ChainRule.StringSl] (169-177). *)
Definition StringSl (c : t) : list string :=
  lines (chain c) (items (containSl c)) 0 [].

(** [ChainRule.valid] (185-200). *)
Definition valid (c : t) (index : Z) (contain : containRule.t) : bool :=
  if Z.of_nat (List.length (items (containSl c))) <? index then false
  else if existsb (fun elem => containRule.DeepEqual elem contain)
                  (items (containSl c))
       then false
       else true.

End ChainRule.

Inductive error : Type :=
| ErrChainNotExist           (* "chain not exist" *)
| ErrParentNotExist          (* "parent not exist" *)
| ErrCreateChainInvalid      (* "create chain invalid" *)
| ErrConvertTypeFailed       (* "convert type failed" *)
| ErrCommand (code : Z)      (* what running iptables returned *)
| ErrMega (code : Z).        (* what com.MegaInsert returned *)

(** [RuleCommand] is declared outside the files at hand; these are the
    fields the code sets (the software is always "iptables"). *)
Record RuleCommand : Type := mkRuleCommand {
  cmd_table : string;
  cmd_operation : Z;
  cmd_chain : string;
  cmd_index : Z;
  cmd_contain : containRule.t
}.

Definition Insert : Z := 1.
Definition New : Z := 2.

Definition noRule : containRule.t := containRule.mk EmptyString None None.

(** The chains, and the iptables commands: [executed] lists the
    commands run so far, oldest first; [refuses] tells which commands
    iptables fails on, and with which error. *)
Record World : Type := mkWorld {
  heap : list ChainRule.t;
  executed : list RuleCommand;
  refuses : RuleCommand -> option Z
}.

(** [rCmd.CombinedOutput()]. *)
Definition CombinedOutput (rCmd : RuleCommand) (w : World)
  : option error * World :=
  (match refuses w rCmd with
   | Some code => Some (ErrCommand code)
   | None => None
   end,
   {| heap := heap w; executed := executed w ++ [rCmd];
      refuses := refuses w |}).

Definition setChain (p : ptr) (c : ChainRule.t) (w : World) : World :=
  {| heap := firstn p (heap w) ++ c :: skipn (S p) (heap w);
     executed := executed w; refuses := refuses w |}.

(** [new(ChainRule)]. *)
Definition alloc (c : ChainRule.t) (w : World) : ptr * World :=
  (List.length (heap w),
   {| heap := heap w ++ [c]; executed := executed w; refuses := refuses w |}).

(** [TableRule]: the map [chains] as the list of its entries; the
    order of the list is the order a [range] over the map takes. *)
Record TableRule : Type := mkTableRule {
  table : string;
  chains : list (string * ptr)
}.

Definition lookup (name : string) (t : TableRule) : option ptr :=
  match find (fun e => String.eqb (fst e) name) (chains t) with
  | Some e => Some (snd e)
  | None => None
  end.

(** [t.chains[name] = p]. *)
Definition assign (name : string) (p : ptr) (t : TableRule) : TableRule :=
  {| table := table t;
     chains :=
       if existsb (fun e => String.eqb (fst e) name) (chains t)
       then map (fun e => if String.eqb (fst e) name then (name, p) else e)
                (chains t)
       else chains t ++ [(name, p)] |}.

(** The inner loop of [TableRule.StringSl]: [entry] grows with every
    rule of the chain. *)
Fixpoint tableLines (ruleSl : list string) (entry : list string)
    (result : list string) : list string :=
  match ruleSl with
  | [] => result
  | rule :: rest =>
    let entry := entry ++ [rule] in
    tableLines rest entry (result ++ [Join entry " "])
  end.

(** [TableRule.StringSl] (298-308); a nil pointer in the map makes it
    panic. *)
Definition TableRule_StringSl (t : TableRule) (w : World)
  : outcome (list string) :=
  fold_left
    (fun acc e =>
       result <~ acc;
       match nth_error (heap w) (snd e) with
       | None => Panic
       | Some c =>
         let entry := ["-t"%string; table t] in
         Ret (tableLines (ChainRule.StringSl c) entry result)
       end)
    (chains t) (Ret []).

(** A run of a method on the table: the returned error ([None] for
    nil) with the table and the world it leaves, or a panic (a nil
    [*ChainRule] is dereferenced). *)
Definition run : Type := outcome (option error * TableRule * World).

Section WithMegaInsert.

(** [com.MegaInsert] is declared outside the files at hand.  It returns
    an interface value ([Some] of the slice it holds when that is a
    [[]containRule], [None] when it is of another type), whether the
    slice was updated, and an error. *)
Variable MegaInsert :
  rules containRule.t -> containRule.t -> Z ->
  option (rules containRule.t) * bool * option Z.

(** [ChainRule.insert] (202-229) on the chain at [p]. *)
Definition insert (p : ptr) (index : Z) (action : string)
    (base : rules BaseRule.t) (extends : rules ExtendsRule.t) (w : World)
  : outcome (option error * World) :=
  match nth_error (heap w) p with
  | None => Panic
  | Some c =>
    let contain := containRule.mk action base extends in
    match MegaInsert (ChainRule.containSl c) contain index with
    | (_, _, Some code) => Ret (Some (ErrMega code), w)
    | (ifc, update, None) =>
      if negb update then Ret (None, w)
      else
        match ifc with
        | None => Ret (Some ErrConvertTypeFailed, w)
        | Some temp =>
          Ret (None,
               setChain p
                 (ChainRule.mk (ChainRule.chain c) (ChainRule.parent c)
                    (ChainRule.sonSl c) temp) w)
        end
    end
  end.

(** [TableRule.InsertRule] (460-499). *)
Definition InsertRule (t : TableRule) (chain : string) (index : Z)
    (action : string) (base : rules BaseRule.t)
    (extends : rules ExtendsRule.t) (w : World) : run :=
  match lookup chain t with
  | None => Ret (Some ErrChainNotExist, t, w)
  | Some p =>
    let contain := containRule.mk action base extends in
    match nth_error (heap w) p with
    | None => Panic
    | Some rule =>
      if negb (ChainRule.valid rule index contain) then Ret (None, t, w)
      else
        let rCmd := {| cmd_table := table t; cmd_operation := Insert;
                       cmd_chain := chain; cmd_index := index + 1;
                       cmd_contain := contain |} in
        match CombinedOutput rCmd w with
        | (Some err, w) => Ret (Some err, t, w)
        | (None, w) =>
          match insert p index action base extends w with
          | Panic => Panic
          | Ret (err, w) => Ret (err, t, w)
          end
        end
    end
  end.

(** [TableRule.AddRule] (455-457). *)
Definition AddRule (t : TableRule) (chain : string) (action : string)
    (base : rules BaseRule.t) (extends : rules ExtendsRule.t) (w : World)
  : run :=
  InsertRule t chain 0 action base extends w.

(** [ChainRule.attach] (250-261) of the chain at [c]; [parent] is
    [None] for nil. *)
Definition attach (c : ptr) (parent : option ptr) (w : World)
  : outcome World :=
  match parent with
  | None => Ret w
  | Some pp =>
    match nth_error (heap w) c with
    | None => Panic
    | Some cr =>
      let w :=
        setChain c
          (ChainRule.mk (ChainRule.chain cr) (Some pp) (ChainRule.sonSl cr)
             (ChainRule.containSl cr)) w in
      match nth_error (heap w) pp with
      | None => Panic
      | Some pr =>
        Ret (setChain pp
               (ChainRule.mk (ChainRule.chain pr) (ChainRule.parent pr)
                  (ChainRule.sonSl pr ++ [c]) (ChainRule.containSl pr)) w)
      end
    end
  end.

(** [TableRule.CreateChain] (411-452). *)
Definition CreateChain (t : TableRule) (parent : string) (index : Z)
    (chain : string) (base : rules BaseRule.t)
    (extends : rules ExtendsRule.t) (w : World) : run :=
  match lookup parent t with
  | None => Ret (Some ErrParentNotExist, t, w)
  | Some pp =>
    let conRule := containRule.mk chain None None in
    match nth_error (heap w) pp with
    | None => Panic
    | Some parentRule =>
      if negb (ChainRule.valid parentRule index conRule)
      then Ret (Some ErrCreateChainInvalid, t, w)
      else
        let rCmd := {| cmd_table := table t; cmd_operation := New;
                       cmd_chain := chain; cmd_index := 0;
                       cmd_contain := noRule |} in
        match CombinedOutput rCmd w with
        | (Some err, w) => Ret (Some err, t, w)
        | (None, w) =>
          match InsertRule t parent index chain base extends w with
          | Panic => Panic
          | Ret (Some err, t, w) => Ret (Some err, t, w)
          | Ret (None, t, w) =>
            let (sonRule, w) :=
              alloc (ChainRule.mk chain None [] None) w in
            match attach sonRule (Some pp) w with
            | Panic => Panic
            | Ret w => Ret (None, assign chain sonRule t, w)
            end
          end
        end
    end
  end.

(** [TableRule.AddChain] (405-408) and [TableRule.AppendChain]
    (390-402). *)
Definition AddChain (t : TableRule) (parent chain : string)
    (base : rules BaseRule.t) (extends : rules ExtendsRule.t) (w : World)
  : run :=
  CreateChain t parent 0 chain base extends w.

Definition AppendChain (t : TableRule) (parent chain : string)
    (base : rules BaseRule.t) (extends : rules ExtendsRule.t) (w : World)
  : run :=
  match lookup parent t with
  | None => Ret (Some ErrParentNotExist, t, w)
  | Some pp =>
    match nth_error (heap w) pp with
    | None => Panic
    | Some parentRule =>
      let index :=
        Z.of_nat (List.length (items (ChainRule.containSl parentRule))) in
      let index := if 0 <? index then index - 1 else index in
      CreateChain t parent index chain base extends w
    end
  end.

End WithMegaInsert.

End Iptables.

Import Com TProxy ComRest.

(** * Vocabulary of the statements *)

(** ** UDP relay framing *)

(** The package a datagram of at least 10 bytes decodes to: the
    address is bytes 4..8, the port bytes 8..10 (big-endian), the
    payload the rest. *)
Definition decoded (msg : slice) : DataPackage :=
  {| Addr := UDPAddr (sub 4 8 (elems msg))
                     (Z.lor (nth 9 (elems msg) 0)
                            (Z.shiftl (nth 8 (elems msg) 0) 8));
     Payload := mkSlice (skipn 10 (elems msg)) (spare msg) |}.

(** The address-type byte of a datagram. *)
Definition atyp (msg : slice) : byte := nth 3 (elems msg) 0.

Definition datagram_v6 : slice :=
  fresh [0; 0; 0; 4; 32; 1; 13; 184; 0; 80; 104; 105].

Definition datagram_9 : slice := fresh [0; 0; 0; 1; 1; 2; 3; 4; 0].

(** ** Origin-destination recovery *)

(** A record is an original-destination record of the IPv4 level, or
    of the IPv6 level. *)
Definition matchesV4 (msg : SocketControlMessage) : bool :=
  (Level (Header msg) =? SOL_IP) && (Type_ (Header msg) =? IP_RECVORIGDSTADDR).

Definition matchesV6 (msg : SocketControlMessage) : bool :=
  negb (matchesV4 msg)
  && ((Level (Header msg) =? SOL_IPV6)
      && (Type_ (Header msg) =? IP_RECVORIGDSTADDR)).

Definition matching (msg : SocketControlMessage) : bool :=
  matchesV4 msg || matchesV6 msg.







(** One IPv4-level record, with a whole [sockaddr_in] (1.2.3.4:80) and
    with 4 bytes of data only. *)
Definition oob_v4 : slice :=
  fresh [32; 0; 0; 0; 0; 0; 0; 0;  0; 0; 0; 0;  20; 0; 0; 0;
         2; 0;  0; 80;  1; 2; 3; 4;  0; 0; 0; 0; 0; 0; 0; 0].




(** ** Transparent dialer *)

(** The address family the dialer and the address conversion read off
    an address. *)
Definition family (a : Go.Addr) : option Z :=
  match FieldIP a with
  | Ret ip => if isSome (To4 ip) then Some AF_INET
              else if isSome (To16 ip) then Some AF_INET6
                   else None
  | Panic => None
  end.

(** The dial gets as far as its socket: the address types agree, the
    local address has a family, and [syscall.Socket] succeeds; the new
    descriptor is [next_fd]. *)
Definition socketCreated (lAddr rAddr : Go.Addr) (k : Kernel) : bool :=
  AddrType_eqb (TypeOf lAddr) (TypeOf rAddr)
  && isSome (family lAddr)
  && negb (isSome (fault k CallSocket)).

(** [m] leaves the descriptor [fd] open if it was. *)
Definition keeps (fd : Z) {A : Type} (m : K A) : Prop :=
  forall k, is_open fd k = true -> is_open fd (snd (m k)) = true.

(** [m] never returns the error [e]. *)
Definition never (e : error) {A : Type} (m : K A) : Prop :=
  forall k, fst (m k) <> Fail e.

Definition EADDRNOTAVAIL : Z := 99.
Definition EAFNOSUPPORT : Z := 97.

Definition local4 : Go.Addr := TCPAddr [10; 0; 0; 1] 1000.
Definition remote4 : Go.Addr := TCPAddr [1; 1; 1; 1] 443.
Definition remote6 : Go.Addr :=
  TCPAddr [32; 1; 13; 184; 0; 0; 0; 0; 0; 0; 0; 0; 0; 0; 0; 1] 443.
Definition remoteUDP : Go.Addr := UDPAddr [1; 1; 1; 1] 53.

(** Kernels with no descriptor above 2 in use: one where [bind] fails,
    one where [connect] refuses the address family. *)
Definition kernel_bind_fails : Kernel :=
  mkKernel (fun c => match c with
                     | CallBind => Some EADDRNOTAVAIL
                     | _ => None
                     end) 3 [].

Definition kernel_connect_fails : Kernel :=
  mkKernel (fun c => match c with
                     | CallConnect => Some EAFNOSUPPORT
                     | _ => None
                     end) 3 [].

(** ** SOCKS5 negotiation *)

(** The [auth] value [Tunnel] builds from the handler's proxy. *)
Definition credentials (handler : Handler) : auth :=
  {| user := UserName (proxy handler); password := Password (proxy handler) |}.

(** The write budget after one successful write. *)
Definition spend (b : option nat) : option nat :=
  match b with
  | Some (S n) => Some n
  | _ => b
  end.

(** The next [n] writes succeed. *)
Definition canWrite (n : nat) (c : Conn) : Prop :=
  match wbudget c with
  | None => True
  | Some k => (n <= k)%nat
  end.

(** What is left to read after a chunk [bs] met a buffer of [n] bytes. *)
Definition leftover (n : nat) (bs : list byte) (rest : list chunk)
  : list chunk :=
  if (List.length bs <=? n)%nat then rest else Recv (skipn n bs) :: rest.

(** The connection after the hand-shake request was written and the
    2-byte reply read. *)
Definition afterGreeting (handler : Handler) (c : Conn) (rest : list chunk)
  : Conn :=
  {| incoming := rest;
     written := written c ++ [greeting (credentials handler)];
     wbudget := spend (wbudget c) |}.

(** The connection after the auth request was written too, and its
    reply read. *)
Definition afterAuth (handler : Handler) (c : Conn) (rest : list chunk)
  : Conn :=
  {| incoming := rest;
     written := (written c ++ [greeting (credentials handler)])
                ++ [authRequest (credentials handler)];
     wbudget := spend (spend (wbudget c)) |}.

(** The port bytes of a connect request. *)
Definition portBytes (port : Z) : list byte :=
  BigEndian_PutUint16 (if port =? 0 then 80 else port).

Definition handler_tcp443 : Handler :=
  mkHandler (mkProxy EmptyString EmptyString) (TCPAddr [1; 2; 3; 4] 443).

Definition handler_auth : Handler :=
  mkHandler (mkProxy "user" "secret") (TCPAddr [1; 2; 3; 4] 443).

Definition handler_domain : Handler :=
  mkHandler (mkProxy EmptyString EmptyString) (DomainAddr "example.org" 443).

Definition connectOk : chunk := Recv [5; 0; 0; 1; 0; 0; 0; 0; 0; 0].

(** A proxy server that selects no-auth and accepts the connect. *)
Definition server_noauth : Conn := mkConn [Recv [5; 0]; connectOk] [] None.

(** Proxy servers that select username/password and answer the auth
    request with the first byte [st]. *)
Definition server_auth (st : byte) : Conn :=
  mkConn [Recv [5; 2]; Recv [st; 0]; connectOk] [] None.

(** Proxy servers whose method-selection reply is [ver], [method]. *)
Definition server_reply (ver method : byte) : Conn :=
  mkConn [Recv [ver; method]; connectOk] [] None.

Definition name256 : string := string_of_list_ascii (repeat "a"%char 256).

(** ** Vocabulary of the further properties *)

(** A package for the UDP relay. *)
Definition udpPackage (ip : Go.IP) (port : Z) (data : slice) : DataPackage :=
  {| Addr := UDPAddr ip port; Payload := data |}.

Definition ip6_doc : Go.IP :=
  [32; 1; 13; 184; 0; 0; 0; 0; 0; 0; 0; 0; 0; 0; 0; 1].

(** The control message the kernel makes for an original destination
    at the IPv4 level: a 16-byte header (length 32, level [SOL_IP],
    type [IP_RECVORIGDSTADDR]) and the 16 bytes [sa] of a
    [sockaddr_in]. *)
Definition origDstRecord (sa : list byte) : list byte :=
  [32; 0; 0; 0; 0; 0; 0; 0;  0; 0; 0; 0;  20; 0; 0; 0] ++ sa.

(** The bytes of a [sockaddr_in] for 1.2.3.4:443. *)
Definition sockaddr_in_443 : list byte :=
  [2; 0;  1; 187;  1; 2; 3; 4;  0; 0; 0; 0; 0; 0; 0; 0].

(** A buffer with one record of level [SOL_IPV6] and type 74, with a
    [sockaddr_in6] for [2001:db8::1]:443. *)
Definition oob_v6_type74 : slice :=
  fresh ([44; 0; 0; 0; 0; 0; 0; 0;  41; 0; 0; 0;  74; 0; 0; 0;
          10; 0;  1; 187;  0; 0; 0; 0]
         ++ ip6_doc ++ [0; 0; 0; 0]).

(** A buffer whose header declares 64 bytes and that holds 24. *)
Definition oob_cut : slice :=
  fresh [64; 0; 0; 0; 0; 0; 0; 0;  0; 0; 0; 0;  20; 0; 0; 0;
         2; 0;  1; 187;  1; 2; 3; 4].

(** A buffer of 8 bytes. *)
Definition oob_8 : slice := fresh [20; 0; 0; 0; 0; 0; 0; 0].

Definition isByte (b : byte) : Prop := 0 <= b < 256.

(** ** Transparent dialer, further *)

Definition sockPort (sa : Sockaddr) : Z :=
  match sa with
  | SockaddrInet4 port _ | SockaddrInet6 port _ => port
  end.

(** The address bytes of a socket address fill its array: 4 bytes in
    a [SockaddrInet4], 16 in a [SockaddrInet6]. *)
Definition sockWhole (sa : Sockaddr) : Prop :=
  match sa with
  | SockaddrInet4 _ addr => List.length addr = 4%nat
  | SockaddrInet6 _ addr => List.length addr = 16%nat
  end.

(** The socket address has the family [domain]. *)
Definition sockFamily (sa : Sockaddr) : Z :=
  match sa with
  | SockaddrInet4 _ _ => AF_INET
  | SockaddrInet6 _ _ => AF_INET6
  end.

(** [m] keeps the property [P] of the kernel. *)
Definition preserves (P : Kernel -> Prop) {A : Type} (m : K A) : Prop :=
  forall k, P k -> P (snd (m k)).

(** The descriptor [fd] stands for the socket [s], and is older than
    any descriptor still to come. *)
Definition holds (fd : Z) (s : Sock) (k : Kernel) : Prop :=
  lookup_fd fd (open k) = Some s /\ fd < next_fd k.

(** None of the four system calls of [SetSockOptTrn] is made to fail. *)
Definition optionsSettable (k : Kernel) : Prop :=
  fault k (CallGetsockopt SOL_SOCKET SO_TYPE) = None
  /\ fault k (CallSetsockopt SOL_SOCKET SO_REUSEADDR) = None
  /\ fault k (CallSetsockopt SOL_IP IP_TRANSPARENT) = None
  /\ fault k (CallSetsockopt SOL_IP IP_RECVORIGDSTADDR) = None.

Definition kernel_ok : Kernel := mkKernel (fun _ => None) 3 [].

(** A kernel with the TCP socket 3 open and no failing call. *)
Definition kernel_tcp3 : Kernel :=
  mkKernel (fun _ => None) 4 [mkSock 3 AF_INET SOCK_STREAM].

Definition local0 : Go.Addr := TCPAddr [10; 0; 0; 1] 0.

(** ** SOCKS5 negotiation, further *)

(** The connect request of a handler's target, when it can be built. *)
Definition requestOf (handler : Handler) : option (list byte) :=
  match target (rAddr handler) with
  | inr (port, ip, dominname) =>
    match connectRequest dominname ip port with
    | inr req => Some req
    | inl _ => None
    end
  | inl _ => None
  end.

(** The sequences of buffers the protocol lets the client write: the
    hand-shake request, then the auth request if any, then the connect
    request; [whole] when the connect request is among them. *)
Definition whole (handler : Handler) (ws : list (list byte)) : Prop :=
  exists req,
    requestOf handler = Some req
    /\ (ws = [greeting (credentials handler); req]
        \/ ws = [greeting (credentials handler);
                 authRequest (credentials handler); req]).

Definition inOrder (handler : Handler) (ws : list (list byte)) : Prop :=
  ws = []
  \/ ws = [greeting (credentials handler)]
  \/ ws = [greeting (credentials handler); authRequest (credentials handler)]
  \/ whole handler ws.

(** [m] writes nothing. *)
Definition quiet {A : Type} (m : T A) : Prop :=
  forall c, written (snd (m c)) = written c
            /\ wbudget (snd (m c)) = wbudget c.

(** No read of the connection fails before its bytes are used up, and
    the bytes it will deliver, whatever the reads they come in. *)
Definition allRecv (inc : list chunk) : bool :=
  forallb (fun ch => match ch with Recv _ => true | Broken _ => false end) inc.

Definition flat (inc : list chunk) : list byte :=
  flat_map (fun ch => match ch with Recv bs => bs | Broken _ => [] end) inc.

(** The bound address of a connect response, by address type: 4
    bytes, 16 bytes, or a length byte and that many bytes. *)
Definition boundAddr (atyp : byte) (addr : list byte) : Prop :=
  (atyp = 1 /\ List.length addr = 4%nat)
  \/ (atyp = 4 /\ List.length addr = 16%nat)
  \/ (atyp = 3 /\ exists l name,
         addr = l :: name /\ List.length name = Z.to_nat l).

(** The connection reads as [bytes], in reads that do not fail. *)
Definition delivers (c : Conn) (bytes : list byte) : Prop :=
  allRecv (incoming c) = true /\ flat (incoming c) = bytes.

(** A connect response split into five reads, with a domain name for
    bound address and two bytes after it. *)
Definition reply_in_pieces : list chunk :=
  [Recv [5]; Recv [0; 0; 3; 2]; Recv [104]; Recv [105; 1]; Recv [187; 7; 7]].

(** ** Iptables *)

(** Line [i] of a chain: the words -I, the chain's name, the number
    [i] and the words of the rule, joined by spaces. *)
Definition chainLine (chain : string) (i : nat)
    (contain : Iptables.containRule.t) : string :=
  Iptables.Join
    (["-I"%string; chain; Iptables.Itoa (Z.of_nat i)]
     ++ Iptables.containRule.StringSl contain) " ".

(** The lines [TableRule.StringSl] makes of one chain: line [j] holds
    the table and the first [j + 1] lines of the chain. *)
Definition tableBlock (tableName : string) (c : Iptables.ChainRule.t)
  : list string :=
  map (fun j =>
         Iptables.Join
           (["-t"%string; tableName]
            ++ firstn (S j) (Iptables.ChainRule.StringSl c)) " ")
      (seq 0 (List.length (Iptables.ChainRule.StringSl c))).

(** The command [InsertRule] runs. *)
Definition insertCommand (t : Iptables.TableRule) (chain : string)
    (index : Z) (action : string) (base : Iptables.rules Iptables.BaseRule.t)
    (extends : Iptables.rules Iptables.ExtendsRule.t)
  : Iptables.RuleCommand :=
  Iptables.mkRuleCommand (Iptables.table t) Iptables.Insert chain (index + 1)
    (Iptables.containRule.mk action base extends).

(** Two chains differ in their rules at most. *)
Definition sameButRules (a b : Iptables.ChainRule.t) : Prop :=
  Iptables.ChainRule.chain a = Iptables.ChainRule.chain b
  /\ Iptables.ChainRule.parent a = Iptables.ChainRule.parent b
  /\ Iptables.ChainRule.sonSl a = Iptables.ChainRule.sonSl b.

Definition rule_accept : Iptables.containRule.t :=
  Iptables.containRule.mk "ACCEPT"
    (Some [Iptables.BaseRule.mk "s" "10.0.0.1"])
    (Some [Iptables.ExtendsRule.mk "m"
             (Some [Iptables.ExtendsElem.mk "mark"
                      (Some [Iptables.BaseRule.mk "mark" "1"])])]).

Definition rule_drop : Iptables.containRule.t :=
  Iptables.containRule.mk "DROP" None None.

Definition chain_output : Iptables.ChainRule.t :=
  Iptables.ChainRule.mk "OUTPUT" None [] (Some [rule_accept; rule_drop]).

Definition chain_input : Iptables.ChainRule.t :=
  Iptables.ChainRule.mk "INPUT" None [] None.

Definition table_mangle : Iptables.TableRule :=
  Iptables.mkTableRule "mangle" [("OUTPUT"%string, 0%nat); ("INPUT"%string, 1%nat)].

(** A world with the two chains, where iptables accepts every
    command, and one where it fails on every command. *)
Definition world_ok : Iptables.World :=
  Iptables.mkWorld [chain_output; chain_input] [] (fun _ => None).

Definition world_refusing : Iptables.World :=
  Iptables.mkWorld [chain_output; chain_input] [] (fun _ => Some 1).

(** A [MegaInsert] for the examples: it puts the rule in front. *)
Definition insertFront (sl : Iptables.rules Iptables.containRule.t)
    (contain : Iptables.containRule.t) (index : Z)
  : option (Iptables.rules Iptables.containRule.t) * bool * option Z :=
  (Some (Some (contain :: Iptables.items sl)), true, None).

(** The command [CreateChain] runs first, and the rule it checks in
    the parent: the jump to the chain with no match. *)
Definition newCommand (t : Iptables.TableRule) (chain : string)
  : Iptables.RuleCommand :=
  Iptables.mkRuleCommand (Iptables.table t) Iptables.New chain 0
    Iptables.noRule.

Definition bareJump (chain : string) : Iptables.containRule.t :=
  Iptables.containRule.mk chain None None.

(** The world after one more command was run. *)
Definition afterCommand (rCmd : Iptables.RuleCommand) (w : Iptables.World)
  : Iptables.World :=
  Iptables.mkWorld (Iptables.heap w) (Iptables.executed w ++ [rCmd])
    (Iptables.refuses w).

(** The index [AppendChain] passes on for a parent with [n] rules. *)
Definition appendIndex (n : nat) : Z :=
  if 0 <? Z.of_nat n then Z.of_nat n - 1 else Z.of_nat n.

Definition jump_rule (chain : string) : Iptables.containRule.t :=
  Iptables.containRule.mk chain (Some [Iptables.BaseRule.mk "p" "tcp"]) None.

(** A world where iptables makes chains and fails on every insert. *)
Definition world_insert_fails : Iptables.World :=
  Iptables.mkWorld [chain_output; chain_input] []
    (fun rCmd =>
       if Iptables.cmd_operation rCmd =? Iptables.Insert then Some 2
       else None).

(** * Properties *)

(** ** Slices *)

Lemma sub_backing (s : slice) (lo hi : nat) :
  (hi <= len s)%nat -> sub lo hi (backing s) = sub lo hi (elems s).
Proof.
  unfold sub, backing, len. intros H.
  rewrite skipn_app, firstn_app, length_skipn.
  replace (hi - lo - (List.length (elems s) - lo))%nat with 0%nat by lia.
  rewrite firstn_O, app_nil_r. reflexivity.
Qed.

Lemma reslice_from_short (s : slice) (lo : nat) :
  (len s < lo)%nat -> reslice_from s lo = Panic.
Proof.
  intros H. unfold reslice_from, reslice.
  destruct (Nat.leb_spec lo (len s)); [lia | reflexivity].
Qed.

(** ** UDP relay framing *)

Lemma UnMarshalPackage_long (msg : slice) :
  (10 <= len msg)%nat -> UnMarshalPackage msg = Ret (decoded msg).
Proof.
  destruct msg as [el sp]. unfold len. simpl. intros H.
  do 10 (destruct el as [|? el]; [simpl in H; lia|]).
  unfold UnMarshalPackage, decoded, reslice_from, reslice, cap, len, backing.
  cbn -[Z.shiftl Z.lor].
  assert (E : (List.length el <=? List.length (el ++ sp))%nat = true).
  { apply Nat.leb_le. rewrite length_app. lia. }
  rewrite E. cbn -[Z.shiftl Z.lor].
  rewrite skipn_app, skipn_all, Nat.sub_diag, Nat.sub_0_r.
  rewrite firstn_app, firstn_all, Nat.sub_diag. simpl.
  rewrite app_nil_r. reflexivity.
Qed.

Lemma UnMarshalPackage_short (msg : slice) :
  (len msg < 10)%nat -> UnMarshalPackage msg = Panic.
Proof.
  intros H. unfold UnMarshalPackage.
  destruct (reslice msg 4 8); simpl; [|reflexivity].
  destruct (reslice msg 8 10) as [p|]; simpl; [|reflexivity].
  destruct (BigEndian_Uint16 p); simpl; [|reflexivity].
  rewrite reslice_from_short by exact H. reflexivity.
Qed.

(** C10: the UDP relay decoder returns for inputs of at least 10 bytes
    only.  For every input of length >= 10 it returns the address from
    bytes 4..8, the big-endian port from bytes 8..10 and the remaining
    bytes as payload; for every shorter input it panics (slice bounds
    out of range) instead of returning an error value. *)
Theorem UnMarshalPackage_total_from_10_bytes :
  forall msg : slice,
    ((10 <= len msg)%nat -> UnMarshalPackage msg = Ret (decoded msg))
    /\ ((len msg < 10)%nat -> UnMarshalPackage msg = Panic).
Proof.
  intros msg. split.
  - apply UnMarshalPackage_long.
  - apply UnMarshalPackage_short.
Qed.

Lemma UnMarshalPackage_total_from_10_bytes_witness :
  ((10 <= len datagram_v6)%nat
   /\ UnMarshalPackage datagram_v6
      = Ret {| Addr := UDPAddr [32; 1; 13; 184] 80;
               Payload := fresh [104; 105] |})
  /\ ((len datagram_9 < 10)%nat /\ UnMarshalPackage datagram_9 = Panic).
Proof.
  split; split.
  - vm_compute. lia.
  - apply (proj1 (UnMarshalPackage_total_from_10_bytes datagram_v6)).
    vm_compute. lia.
  - vm_compute. lia.
  - apply (proj2 (UnMarshalPackage_total_from_10_bytes datagram_9)).
    vm_compute. lia.
Defined.

(** C3, as the spec has it, fails: a datagram whose address type is 4
    (IPv6) is not rejected, it is decoded under the IPv4 layout. *)
Lemma UnMarshalPackage_rejects_non_ipv4_fails :
  ~ (forall msg : slice,
        atyp msg <> 1 -> forall pkg, UnMarshalPackage msg <> Ret pkg).
Proof.
  intros claim.
  apply (claim datagram_v6) with (pkg := decoded datagram_v6).
  - vm_compute. intro E. discriminate E.
  - reflexivity.
Qed.

(** C3, amended: the decoder does not look at the address-type byte.
    Every datagram envelope of at least 10 bytes whose address type is
    not IPv4 is decoded under the fixed IPv4 layout all the same:
    address from bytes 4..8, port from bytes 8..10, the rest payload. *)
Theorem UnMarshalPackage_ignores_address_type :
  forall msg : slice,
    (10 <= len msg)%nat -> atyp msg <> 1 ->
    UnMarshalPackage msg = Ret (decoded msg).
Proof.
  intros msg H _. apply UnMarshalPackage_long. exact H.
Qed.

Lemma UnMarshalPackage_ignores_address_type_witness :
  atyp datagram_v6 = 4
  /\ UnMarshalPackage datagram_v6
     = Ret {| Addr := UDPAddr [32; 1; 13; 184] 80;
              Payload := fresh [104; 105] |}.
Proof.
  split.
  - reflexivity.
  - apply (UnMarshalPackage_ignores_address_type datagram_v6).
    + vm_compute. lia.
    + vm_compute. intro E. discriminate E.
Defined.

(** ** Origin-destination recovery *)











(** *** The parsing loop ends within its fuel *)

Lemma cmsgAlignOf_div (n : nat) :
  Z.of_nat (cmsgAlignOf n) = 8 * ((Z.of_nat n + 7) / 8).
Proof.
  unfold cmsgAlignOf.
  change (8 - 1) with (Z.ones 3).
  rewrite <- Z.ldiff_land, Z.ldiff_ones_r by lia.
  rewrite Z.shiftr_div_pow2, Z.shiftl_mul_pow2 by lia.
  change (2 ^ 3) with 8.
  rewrite Z2Nat.id.
  - replace (Z.of_nat n + 8 - 1) with (Z.of_nat n + 7) by lia. lia.
  - apply Z.mul_nonneg_nonneg; [|lia].
    apply Z.div_pos; lia.
Qed.

Lemma cmsgAlignOf_ge (n : nat) : (n <= cmsgAlignOf n)%nat.
Proof.
  apply Nat2Z.inj_le. rewrite cmsgAlignOf_div.
  pose proof (Z.mod_pos_bound (Z.of_nat n + 7) 8 ltac:(lia)) as B.
  pose proof (Z.div_mod (Z.of_nat n + 7) 8 ltac:(lia)) as D.
  lia.
Qed.

Lemma header_len_ge (b : slice) (h : Cmsghdr) (dbuf : slice) :
  socketControlMessageHeaderAndData b = Ret (inr (h, dbuf)) ->
  (16 <= Z.to_nat (Len h))%nat.
Proof.
  unfold socketControlMessageHeaderAndData. cbv zeta.
  destruct (Len (headerOf b) <? Z.of_nat SizeofCmsghdr) eqn:E; cbn [orb].
  - intro H. discriminate H.
  - destruct (Z.of_nat (len b) <? Len (headerOf b)).
    + intro H. discriminate H.
    + destruct (reslice b (cmsgAlignOf SizeofCmsghdr)
                        (Z.to_nat (Len (headerOf b)))); cbn [obind];
        intro H; [|discriminate H].
      injection H as <- _.
      apply Z.ltb_ge in E. unfold SizeofCmsghdr in E. lia.
Qed.

(** Any two amounts of fuel above the bytes left give the same result:
    [ParseSocketControlMessage] never stops for lack of fuel. *)
Lemma parseLoop_fuel (f1 : nat) :
  forall (f2 : nat) (b : slice) (i : nat) (msgs : list SocketControlMessage),
    (len b < i + f1)%nat -> (len b < i + f2)%nat ->
    parseLoop f1 b i msgs = parseLoop f2 b i msgs.
Proof.
  assert (C0 : CmsgLen 0 = 16%nat) by reflexivity.
  induction f1 as [|f1 IH]; intros f2 b i msgs H1 H2.
  - destruct f2 as [|f2]; [reflexivity|]. simpl.
    destruct (Nat.leb_spec (i + CmsgLen 0) (len b)); [lia | reflexivity].
  - destruct f2 as [|f2]; simpl.
    + destruct (Nat.leb_spec (i + CmsgLen 0) (len b)); [lia | reflexivity].
    + destruct (i + CmsgLen 0 <=? len b)%nat; [|reflexivity].
      destruct (reslice_from b i) as [bi|]; simpl; [|reflexivity].
      destruct (socketControlMessageHeaderAndData bi) as [[e|[h dbuf]]|] eqn:E;
        simpl; try reflexivity.
      apply header_len_ge in E.
      pose proof (cmsgAlignOf_ge (Z.to_nat (Len h))) as G.
      apply IH; lia.
Qed.

(** ** Transparent dialer *)

Lemma AddrType_eqb_eq (a b : AddrType) : AddrType_eqb a b = true <-> a = b.
Proof. destruct a, b; simpl; split; intro H; congruence. Qed.

Section Keeps.

Variable fd : Z.

Lemma keeps_bind {A B : Type} (m : K A) (f : A -> K B) :
  keeps fd m -> (forall a, keeps fd (f a)) -> keeps fd (bind m f).
Proof.
  intros Hm Hf k Hk. unfold bind.
  specialize (Hm k Hk).
  destruct (m k) as [[a| |] k1]; simpl in *; try exact Hm.
  apply Hf. exact Hm.
Qed.

Lemma keeps_ret {A : Type} (a : A) : keeps fd (ret a).
Proof. intros k Hk. exact Hk. Qed.

Lemma keeps_fail {A : Type} (e : error) : keeps fd (@fail Kernel A e).
Proof. intros k Hk. exact Hk. Qed.

Lemma keeps_lift {A : Type} (o : outcome A) : keeps fd (@lift Kernel A o).
Proof. intros k Hk. unfold lift. destruct o; exact Hk. Qed.

Lemma keeps_GetsockoptInt (fd' level opt : Z) :
  keeps fd (GetsockoptInt fd' level opt).
Proof.
  intros k Hk. unfold GetsockoptInt.
  destruct (fault k _); [exact Hk|].
  destruct (lookup_fd fd' (open k)); exact Hk.
Qed.

Lemma keeps_SetsockoptInt (fd' level opt value : Z) :
  keeps fd (SetsockoptInt fd' level opt value).
Proof.
  intros k Hk. unfold SetsockoptInt.
  destruct (fault k _); [exact Hk|].
  destruct (is_open fd' k); exact Hk.
Qed.

Lemma keeps_Bind (fd' : Z) (sa : Sockaddr) : keeps fd (Bind fd' sa).
Proof.
  intros k Hk. unfold Bind.
  destruct (fault k _); [exact Hk|].
  destruct (is_open fd' k); exact Hk.
Qed.

Lemma keeps_Connect (fd' : Z) (sa : Sockaddr) : keeps fd (Connect fd' sa).
Proof.
  intros k Hk. unfold Connect.
  destruct (fault k _); [exact Hk|].
  destruct (is_open fd' k); exact Hk.
Qed.

Lemma is_open_cons (s : Sock) (k : Kernel) (n : Z) :
  is_open fd k = true ->
  is_open fd {| fault := fault k; next_fd := n; open := s :: open k |} = true.
Proof.
  unfold is_open, lookup_fd. simpl. intros Hk.
  destruct (s_fd s =? fd); [reflexivity | exact Hk].
Qed.

Lemma keeps_FileConn (file : Z) : keeps fd (FileConn file).
Proof.
  intros k Hk. unfold FileConn.
  destruct (fault k _); [exact Hk|].
  destruct (lookup_fd file (open k)); [|exact Hk].
  apply is_open_cons. exact Hk.
Qed.

Lemma keeps_SetSockOptTrn (fd' : Z) : keeps fd (SetSockOptTrn fd').
Proof.
  unfold SetSockOptTrn.
  apply keeps_bind; [apply keeps_GetsockoptInt|]. intros soTyp.
  destruct (negb (soTyp =? SOCK_STREAM) && negb (soTyp =? SOCK_DGRAM));
    [apply keeps_fail|].
  repeat (apply keeps_bind; [apply keeps_SetsockoptInt|]; intros _).
  apply keeps_ret.
Qed.

Lemma keeps_convertAddrToSockAddr (addr : Go.Addr) :
  keeps fd (convertAddrToSockAddr addr).
Proof.
  unfold convertAddrToSockAddr.
  destruct (negb (convertibleToIPAddr addr)); [apply keeps_fail|].
  apply keeps_bind; [apply keeps_lift|]. intros ip.
  apply keeps_bind; [apply keeps_lift|]. intros port.
  destruct (To4 ip); [apply keeps_ret|].
  destruct (To16 ip); [apply keeps_ret | apply keeps_fail].
Qed.

End Keeps.

(** What [MegaDial] does once the socket is there keeps it open. *)
Lemma MegaDial_tail_keeps (fd : Z) (lAddr rAddr : Go.Addr) :
  keeps fd
    (SetSockOptTrn fd ;;
     lSockAddr <- convertAddrToSockAddr lAddr ;;
     rSockAddr <- convertAddrToSockAddr rAddr ;;
     Bind fd lSockAddr ;;
     Connect fd rSockAddr ;;
     match NewFile fd with
     | None => fail ErrNewFileNil
     | Some file => FileConn file
     end).
Proof.
  apply keeps_bind; [apply keeps_SetSockOptTrn|]. intros _.
  apply keeps_bind; [apply keeps_convertAddrToSockAddr|]. intros lSockAddr.
  apply keeps_bind; [apply keeps_convertAddrToSockAddr|]. intros rSockAddr.
  apply keeps_bind; [apply keeps_Bind|]. intros _.
  apply keeps_bind; [apply keeps_Connect|]. intros _.
  destruct (NewFile fd); [apply keeps_FileConn | apply keeps_fail].
Qed.

Lemma MegaDial_keeps_socket (network : string) (lAddr rAddr : Go.Addr)
    (k : Kernel) :
  socketCreated lAddr rAddr k = true ->
  is_open (next_fd k) (snd (MegaDial network lAddr rAddr k)) = true.
Proof.
  unfold socketCreated, family. intros H.
  apply andb_true_iff in H. destruct H as [H Hs].
  apply andb_true_iff in H. destruct H as [Ht Hf].
  unfold MegaDial. rewrite Ht. cbn [negb].
  destruct (FieldIP lAddr) as [ip|]; [|discriminate Hf].
  unfold bind at 1. cbn [lift].
  assert (D : exists domain,
             (if isSome (To4 ip) then @ret Kernel Z AF_INET
              else if isSome (To16 ip) then ret AF_INET6
                   else fail ErrLocalIPIncorrect) = ret domain).
  { destruct (isSome (To4 ip)); [eexists; reflexivity|].
    destruct (isSome (To16 ip)); [eexists; reflexivity | discriminate Hf]. }
  destruct D as [domain D]. rewrite D.
  unfold bind at 1. cbn [ret].
  unfold bind at 1. unfold Socket at 1.
  destruct (fault k CallSocket); [discriminate Hs|].
  apply MegaDial_tail_keeps.
  unfold is_open, lookup_fd. simpl. rewrite Z.eqb_refl. reflexivity.
Qed.

(** C6, as the spec has it, fails: when [bind] fails the dial returns
    its error and the socket's descriptor is still open. *)
Lemma failed_dial_releases_descriptor_fails :
  ~ (forall (network : string) (lAddr rAddr : Go.Addr) (k k' : Kernel)
            (err : error),
        socketCreated lAddr rAddr k = true ->
        MegaDial network lAddr rAddr k = (Fail err, k') ->
        is_open (next_fd k) k' = false).
Proof.
  intros claim.
  specialize (claim "tcp"%string local4 remote4 kernel_bind_fails
                    (snd (MegaDial "tcp" local4 remote4 kernel_bind_fails))
                    (Errno EADDRNOTAVAIL) eq_refl eq_refl).
  vm_compute in claim. discriminate claim.
Qed.

(** C6, amended: whenever the transparent dialer fails at a step after
    creating the socket (setting socket options, address conversion,
    bind, connect, wrapping the descriptor), it returns the error with
    the descriptor still open: no step of the dialer closes it. *)
Theorem failed_dial_leaves_descriptor_open :
  forall (network : string) (lAddr rAddr : Go.Addr) (k k' : Kernel)
         (err : error),
    socketCreated lAddr rAddr k = true ->
    MegaDial network lAddr rAddr k = (Fail err, k') ->
    is_open (next_fd k) k' = true.
Proof.
  intros network lAddr rAddr k k' err Hs Hd.
  pose proof (MegaDial_keeps_socket network lAddr rAddr k Hs) as H.
  rewrite Hd in H. exact H.
Qed.

Lemma failed_dial_leaves_descriptor_open_witness :
  MegaDial "tcp" local4 remote4 kernel_bind_fails
  = (Fail (Errno EADDRNOTAVAIL),
     mkKernel (fault kernel_bind_fails) 4 [mkSock 3 AF_INET SOCK_STREAM])
  /\ is_open 3 (mkKernel (fault kernel_bind_fails) 4
                         [mkSock 3 AF_INET SOCK_STREAM]) = true.
Proof.
  split.
  - reflexivity.
  - apply (failed_dial_leaves_descriptor_open "tcp" local4 remote4
             kernel_bind_fails _ (Errno EADDRNOTAVAIL)).
    + reflexivity.
    + reflexivity.
Defined.

Section Never.

Variable e : error.

Lemma never_bind {A B : Type} (m : K A) (f : A -> K B) :
  never e m -> (forall a, never e (f a)) -> never e (bind m f).
Proof.
  intros Hm Hf k. unfold bind. specialize (Hm k).
  destruct (m k) as [[a|e0|] k1]; simpl in *.
  - apply Hf.
  - intro H. apply Hm. injection H as ->. reflexivity.
  - discriminate.
Qed.

Lemma never_ret {A : Type} (a : A) : never e (@ret Kernel A a).
Proof. intros k. discriminate. Qed.

Lemma never_fail {A : Type} (e' : error) :
  e' <> e -> never e (@fail Kernel A e').
Proof. intros H k. simpl. congruence. Qed.

Lemma never_lift {A : Type} (o : outcome A) : never e (@lift Kernel A o).
Proof. intros k. unfold lift. destruct o; discriminate. Qed.

Hypothesis not_errno : forall n, Errno n <> e.

Lemma never_Socket (domain typ proto : Z) : never e (Socket domain typ proto).
Proof.
  intros k. unfold Socket. destruct (fault k _); simpl.
  - intro H. injection H as H. exact (not_errno _ H).
  - discriminate.
Qed.

Lemma never_GetsockoptInt (fd level opt : Z) :
  never e (GetsockoptInt fd level opt).
Proof.
  intros k. unfold GetsockoptInt.
  destruct (fault k _); [|destruct (lookup_fd fd (open k))]; simpl;
    try discriminate; intro H; injection H as H; exact (not_errno _ H).
Qed.

Lemma never_SetsockoptInt (fd level opt value : Z) :
  never e (SetsockoptInt fd level opt value).
Proof.
  intros k. unfold SetsockoptInt.
  destruct (fault k _); [|destruct (is_open fd k)]; simpl;
    try discriminate; intro H; injection H as H; exact (not_errno _ H).
Qed.

Lemma never_Bind (fd : Z) (sa : Sockaddr) : never e (Bind fd sa).
Proof.
  intros k. unfold Bind.
  destruct (fault k _); [|destruct (is_open fd k)]; simpl;
    try discriminate; intro H; injection H as H; exact (not_errno _ H).
Qed.

Lemma never_Connect (fd : Z) (sa : Sockaddr) : never e (Connect fd sa).
Proof.
  intros k. unfold Connect.
  destruct (fault k _); [|destruct (is_open fd k)]; simpl;
    try discriminate; intro H; injection H as H; exact (not_errno _ H).
Qed.

Lemma never_FileConn (file : Z) : never e (FileConn file).
Proof.
  intros k. unfold FileConn.
  destruct (fault k _); [|destruct (lookup_fd file (open k))]; simpl;
    try discriminate; intro H; injection H as H; exact (not_errno _ H).
Qed.

End Never.

Lemma MegaDial_same_type_never_mismatch (network : string)
    (lAddr rAddr : Go.Addr) :
  TypeOf lAddr = TypeOf rAddr ->
  never ErrAddrNotMatch (MegaDial network lAddr rAddr).
Proof.
  intros Ht. apply AddrType_eqb_eq in Ht.
  unfold MegaDial. rewrite Ht. cbn [negb].
  assert (NE : forall n, Errno n <> ErrAddrNotMatch) by discriminate.
  assert (CV : forall a, never ErrAddrNotMatch (convertAddrToSockAddr a)).
  { intros a. unfold convertAddrToSockAddr.
    destruct (negb (convertibleToIPAddr a));
      [apply never_fail; discriminate|].
    apply never_bind; [apply never_lift|]. intros ip.
    apply never_bind; [apply never_lift|]. intros port.
    destruct (To4 ip); [apply never_ret|].
    destruct (To16 ip); [apply never_ret | apply never_fail; discriminate]. }
  apply never_bind; [apply never_lift|]. intros ip.
  apply never_bind.
  { destruct (isSome (To4 ip)); [apply never_ret|].
    destruct (isSome (To16 ip));
      [apply never_ret | apply never_fail; discriminate]. }
  intros domain.
  apply never_bind; [apply never_Socket; exact NE|]. intros fd.
  apply never_bind.
  { unfold SetSockOptTrn.
    apply never_bind; [apply never_GetsockoptInt; exact NE|]. intros soTyp.
    destruct (negb (soTyp =? SOCK_STREAM) && negb (soTyp =? SOCK_DGRAM));
      [apply never_fail; discriminate|].
    repeat (apply never_bind;
            [apply never_SetsockoptInt; exact NE|]; intros _).
    apply never_ret. }
  intros _.
  apply never_bind; [apply CV|]. intros lSockAddr.
  apply never_bind; [apply CV|]. intros rSockAddr.
  apply never_bind; [apply never_Bind; exact NE|]. intros _.
  apply never_bind; [apply never_Connect; exact NE|]. intros _.
  destruct (NewFile fd);
    [apply never_FileConn; exact NE | apply never_fail; discriminate].
Qed.

(** C7, as the spec has it, fails: an IPv4 local address and an IPv6
    remote address of the same transport pass the dialer's check; the
    socket is created and the dial ends with the error of [connect]. *)
Lemma family_mismatch_rejected_fails :
  ~ (forall (network : string) (lAddr rAddr : Go.Addr) (k : Kernel),
        TypeOf lAddr = TypeOf rAddr ->
        family lAddr <> family rAddr ->
        fst (MegaDial network lAddr rAddr k) = Fail ErrAddrNotMatch).
Proof.
  intros claim.
  specialize (claim "tcp"%string local4 remote6 kernel_connect_fails eq_refl).
  vm_compute in claim.
  assert (E : @Fail Z (Errno 97) = Fail ErrAddrNotMatch).
  { apply claim. intro H. discriminate H. }
  discriminate E.
Qed.

(** C7, amended: the transparent dialer requires the caller-supplied
    local and remote addresses to be of the same transport (the same
    address type) and fails with the mismatch error otherwise, before
    any system call.  The address families are not compared: for two
    addresses of the same transport the dial never fails with that
    error, whatever their families. *)
Theorem dial_checks_transport_only :
  forall (network : string) (lAddr rAddr : Go.Addr) (k : Kernel),
    (TypeOf lAddr <> TypeOf rAddr ->
     MegaDial network lAddr rAddr k = (Fail ErrAddrNotMatch, k))
    /\ (TypeOf lAddr = TypeOf rAddr ->
        fst (MegaDial network lAddr rAddr k) <> Fail ErrAddrNotMatch).
Proof.
  intros network lAddr rAddr k. split.
  - intros Ht. unfold MegaDial.
    destruct (AddrType_eqb (TypeOf lAddr) (TypeOf rAddr)) eqn:E.
    + apply AddrType_eqb_eq in E. contradiction.
    + reflexivity.
  - intros Ht. apply MegaDial_same_type_never_mismatch. exact Ht.
Qed.

Lemma dial_checks_transport_only_witness :
  (TypeOf local4 <> TypeOf remoteUDP
   /\ MegaDial "udp" local4 remoteUDP kernel_connect_fails
      = (Fail ErrAddrNotMatch, kernel_connect_fails))
  /\ (TypeOf local4 = TypeOf remote6
      /\ family local4 <> family remote6
      /\ fst (MegaDial "tcp" local4 remote6 kernel_connect_fails)
         <> Fail ErrAddrNotMatch).
Proof.
  split; [split | split; [|split]].
  - intro H. discriminate H.
  - apply (proj1 (dial_checks_transport_only "udp" local4 remoteUDP
                    kernel_connect_fails)).
    intro H. discriminate H.
  - reflexivity.
  - intro H. discriminate H.
  - apply (proj2 (dial_checks_transport_only "tcp" local4 remote6
                    kernel_connect_fails)).
    reflexivity.
Defined.

(** ** SOCKS5 negotiation *)

Lemma Write_ok (buf : list byte) (c : Conn) :
  canWrite 1 c ->
  Write buf c = (Ok tt, {| incoming := incoming c;
                           written := written c ++ [buf];
                           wbudget := spend (wbudget c) |}).
Proof.
  unfold canWrite, Write. destruct (wbudget c) as [[|n]|]; intros H.
  - lia.
  - reflexivity.
  - reflexivity.
Qed.

Lemma greeting_shape (a : auth) :
  greeting a = [5; 1; 0] \/ greeting a = [5; 2; 0; 2].
Proof.
  unfold greeting. destruct (nonempty (user a) && nonempty (password a)).
  - right. reflexivity.
  - left. reflexivity.
Qed.

(** The part of [Tunnel] that follows the method-selection reply. *)
Lemma negotiate_after_reply (handler : Handler) (c : Conn)
    (ver method : byte) (rest : list chunk)
    (port : Z) (ip : Go.IP) (dominname : string) :
  target (rAddr handler) = inr (port, ip, dominname) ->
  canWrite 1 c ->
  incoming c = Recv [ver; method] :: rest ->
  negotiate handler c
  = (if negb (ver =? 5) || (negb (method =? 0) && negb (method =? 2))
     then fail (ErrSock5ProtoInvalid ver method)
     else ((if method =? 2 then authenticate (credentials handler)
            else ret tt) ;;
           connect dominname ip port))
      (afterGreeting handler c rest).
Proof.
  intros Ht Hw Hi. unfold negotiate. rewrite Ht.
  fold (credentials handler).
  unfold bind at 1. rewrite (Write_ok _ c Hw).
  unfold bind at 1. unfold Read at 1. cbn [incoming]. rewrite Hi.
  unfold afterGreeting.
  destruct (greeting_shape (credentials handler)) as [G|G]; rewrite G;
    reflexivity.
Qed.

(** C8: for every 2-byte method-selection reply (version, method) read
    after the hand-shake request: if version <> 5, Tunnel fails with the
    protocol error (which carries the version and the method) and
    writes nothing more to the upstream connection; if the method is
    neither 0 nor 2 it fails with that error too; if the method is 2, the
    auth sub-negotiation comes next; if it is 0, the connect request. *)
Theorem method_selection_reply :
  forall (handler : Handler) (c : Conn) (ver method : byte)
         (rest : list chunk) (port : Z) (ip : Go.IP) (dominname : string),
    target (rAddr handler) = inr (port, ip, dominname) ->
    canWrite 1 c ->
    incoming c = Recv [ver; method] :: rest ->
    (ver <> 5 ->
     Tunnel handler (inr c)
     = (Fail (ErrSock5ProtoInvalid ver method),
        Some (afterGreeting handler c rest)))
    /\ (method <> 0 -> method <> 2 ->
        Tunnel handler (inr c)
        = (Fail (ErrSock5ProtoInvalid ver method),
           Some (afterGreeting handler c rest)))
    /\ (ver = 5 -> method = 2 ->
        Tunnel handler (inr c)
        = runOn (authenticate (credentials handler) ;;
                 connect dominname ip port)
                (afterGreeting handler c rest))
    /\ (ver = 5 -> method = 0 ->
        Tunnel handler (inr c)
        = runOn (connect dominname ip port) (afterGreeting handler c rest)).
Proof.
  intros handler c ver method rest port ip dominname Ht Hw Hi.
  pose proof (negotiate_after_reply handler c ver method rest port ip
                dominname Ht Hw Hi) as N.
  unfold Tunnel, runOn. rewrite N. clear N.
  split; [|split; [|split]].
  - intros Hv. apply Z.eqb_neq in Hv. rewrite Hv. reflexivity.
  - intros H0 H2. apply Z.eqb_neq in H0, H2. rewrite H0, H2.
    rewrite orb_true_r. reflexivity.
  - intros -> ->. reflexivity.
  - intros -> ->. reflexivity.
Qed.

Lemma method_selection_reply_witness :
  Tunnel handler_tcp443 (inr (server_reply 4 0))
  = (Fail (ErrSock5ProtoInvalid 4 0),
     Some (mkConn [connectOk] [[5; 1; 0]] None))
  /\ Tunnel handler_tcp443 (inr (server_reply 5 1))
     = (Fail (ErrSock5ProtoInvalid 5 1),
        Some (mkConn [connectOk] [[5; 1; 0]] None))
  /\ Tunnel handler_auth (inr (server_auth 1))
     = (Ok tt,
        Some (mkConn []
                [[5; 2; 0; 2];
                 [1; 4; 117; 115; 101; 114; 6; 115; 101; 99; 114; 101; 116];
                 [5; 1; 0; 1; 1; 2; 3; 4; 0; 80]] None))
  /\ Tunnel handler_tcp443 (inr (server_reply 5 0))
     = (Ok tt,
        Some (mkConn [] [[5; 1; 0]; [5; 1; 0; 1; 1; 2; 3; 4; 0; 80]] None)).
Proof.
  split; [|split; [|split]].
  - apply (proj1 (method_selection_reply handler_tcp443 (server_reply 4 0)
                    4 0 [connectOk] 0 [1; 2; 3; 4] EmptyString eq_refl I eq_refl)).
    intro H. discriminate H.
  - apply (proj1 (proj2 (method_selection_reply handler_tcp443
                           (server_reply 5 1) 5 1 [connectOk] 0 [1; 2; 3; 4]
                           EmptyString eq_refl I eq_refl))).
    + intro H. discriminate H.
    + intro H. discriminate H.
  - rewrite (proj1 (proj2 (proj2 (method_selection_reply handler_auth
                                    (server_auth 1) 5 2
                                    [Recv [1; 0]; connectOk] 0
                                    [1; 2; 3; 4] EmptyString eq_refl I eq_refl)))
               eq_refl eq_refl).
    reflexivity.
  - rewrite (proj2 (proj2 (proj2 (method_selection_reply handler_tcp443
                                    (server_reply 5 0) 5 0 [connectOk] 0
                                    [1; 2; 3; 4] EmptyString eq_refl I eq_refl)))
               eq_refl eq_refl).
    reflexivity.
Defined.

Lemma authenticate_reply (a : auth) (c : Conn) (st : byte)
    (more : list byte) (rest : list chunk) :
  canWrite 1 c ->
  incoming c = Recv (st :: more) :: rest ->
  authenticate a c
  = (if negb (st =? 5) && negb (st =? 1)
     then Fail (ErrAuthResponse st) else Ok tt,
     {| incoming := leftover 32 (st :: more) rest;
        written := written c ++ [authRequest a];
        wbudget := spend (wbudget c) |}).
Proof.
  intros Hw Hi. unfold authenticate.
  unfold bind at 1. rewrite (Write_ok _ c Hw).
  unfold bind at 1. unfold Read at 1. cbn [incoming]. rewrite Hi.
  assert (L : List.length (make 32) = 32%nat) by reflexivity.
  rewrite L. cbv zeta. cbn [written wbudget].
  assert (N : nth 0 (firstn (Nat.min (List.length (st :: more)) 32)
                            (st :: more)
                     ++ skipn (Nat.min (List.length (st :: more)) 32)
                              (make 32)) 0 = st) by reflexivity.
  rewrite N. unfold leftover.
  destruct (Nat.leb_spec (List.length (st :: more)) 32) as [Hl|Hl].
  - destruct (negb (st =? 5) && negb (st =? 1)); reflexivity.
  - rewrite Nat.min_r by lia.
    destruct (negb (st =? 5) && negb (st =? 1)); reflexivity.
Qed.

Lemma canWrite_afterGreeting (handler : Handler) (c : Conn)
    (rest : list chunk) :
  canWrite 2 c -> canWrite 1 c /\ canWrite 1 (afterGreeting handler c rest).
Proof.
  unfold canWrite, afterGreeting. simpl.
  destruct (wbudget c) as [[|[|n]]|]; simpl; lia.
Qed.

(** C1, as the spec has it, fails: an auth reply that starts with the
    byte 0 is not taken for success; Tunnel returns the auth error. *)
Lemma auth_status_0_or_1_fails :
  ~ (forall (handler : Handler) (c : Conn) (st : byte) (more : list byte)
            (rest : list chunk) (port : Z) (ip : Go.IP) (dominname : string),
        target (rAddr handler) = inr (port, ip, dominname) ->
        canWrite 2 c ->
        incoming c = Recv [5; 2] :: Recv (st :: more) :: rest ->
        (st = 0 \/ st = 1 ->
         Tunnel handler (inr c)
         = runOn (connect dominname ip port)
                 (afterAuth handler c (leftover 32 (st :: more) rest)))
        /\ (st <> 0 -> st <> 1 ->
            Tunnel handler (inr c)
            = (Fail (ErrAuthResponse st),
               Some (afterAuth handler c (leftover 32 (st :: more) rest))))).
Proof.
  intros claim.
  destruct (claim handler_auth (server_auth 0) 0 [0] [connectOk]
                  0 [1; 2; 3; 4] EmptyString eq_refl I eq_refl) as [H _].
  specialize (H (or_introl eq_refl)).
  vm_compute in H. discriminate H.
Qed.

(** C1, amended: during the username/password sub-negotiation, for
    every auth reply whose first byte is 1 or 5 Tunnel takes it for
    success and goes on to the connect request; for every other first
    byte (0 among them) it fails with the auth error, which carries
    that byte, and writes no connect request. *)
Theorem auth_reply_first_byte :
  forall (handler : Handler) (c : Conn) (st : byte) (more : list byte)
         (rest : list chunk) (port : Z) (ip : Go.IP) (dominname : string),
    target (rAddr handler) = inr (port, ip, dominname) ->
    canWrite 2 c ->
    incoming c = Recv [5; 2] :: Recv (st :: more) :: rest ->
    (st = 1 \/ st = 5 ->
     Tunnel handler (inr c)
     = runOn (connect dominname ip port)
             (afterAuth handler c (leftover 32 (st :: more) rest)))
    /\ (st <> 1 -> st <> 5 ->
        Tunnel handler (inr c)
        = (Fail (ErrAuthResponse st),
           Some (afterAuth handler c (leftover 32 (st :: more) rest)))).
Proof.
  intros handler c st more rest port ip dominname Ht Hw Hi.
  destruct (canWrite_afterGreeting handler c (Recv (st :: more) :: rest) Hw)
    as [Hw1 Hw2].
  assert (N : negotiate handler c
              = if negb (st =? 5) && negb (st =? 1)
                then (Fail (ErrAuthResponse st),
                      afterAuth handler c (leftover 32 (st :: more) rest))
                else connect dominname ip port
                       (afterAuth handler c (leftover 32 (st :: more) rest))).
  { rewrite (negotiate_after_reply handler c 5 2 _ port ip dominname
               Ht Hw1 Hi).
    cbn [Z.eqb Pos.eqb negb orb andb].
    unfold bind at 1.
    rewrite (authenticate_reply (credentials handler) _ st more rest
               Hw2 eq_refl).
    unfold afterGreeting, afterAuth. cbn [written wbudget incoming].
    destruct (negb (st =? 5) && negb (st =? 1)); reflexivity. }
  unfold Tunnel, runOn. rewrite N. clear N.
  split.
  - intros [-> | ->]; reflexivity.
  - intros H1 H5. apply Z.eqb_neq in H1, H5. rewrite H1, H5. reflexivity.
Qed.

Lemma auth_reply_first_byte_witness :
  Tunnel handler_auth (inr (server_auth 5))
  = (Ok tt,
     Some (mkConn []
             [[5; 2; 0; 2];
              [1; 4; 117; 115; 101; 114; 6; 115; 101; 99; 114; 101; 116];
              [5; 1; 0; 1; 1; 2; 3; 4; 0; 80]] None))
  /\ Tunnel handler_auth (inr (server_auth 0))
     = (Fail (ErrAuthResponse 0),
        Some (mkConn [connectOk]
                [[5; 2; 0; 2];
                 [1; 4; 117; 115; 101; 114; 6; 115; 101; 99; 114; 101; 116]]
                None)).
Proof.
  split.
  - rewrite (proj1 (auth_reply_first_byte handler_auth (server_auth 5) 5 [0]
                      [connectOk] 0 [1; 2; 3; 4] EmptyString eq_refl I eq_refl)
               (or_intror eq_refl)).
    reflexivity.
  - apply (proj2 (auth_reply_first_byte handler_auth (server_auth 0) 0 [0]
                    [connectOk] 0 [1; 2; 3; 4] EmptyString eq_refl I eq_refl)).
    + intro H. discriminate H.
    + intro H. discriminate H.
Defined.

(** *** The connect request *)

(** For a [*net.TCPAddr] target the type switch leaves [port] at 0,
    whatever the address's port. *)
Lemma target_tcp (ip : Go.IP) (p : Z) :
  target (TCPAddr ip p) = inr (0, ip, EmptyString).
Proof. reflexivity. Qed.

Lemma connectRequest_port (dominname : string) (ip : Go.IP) (port : Z)
    (req : list byte) :
  connectRequest dominname ip port = inr req ->
  exists front, req = front ++ portBytes port.
Proof.
  unfold connectRequest, portBytes.
  match goal with
  | |- match ?r with _ => _ end = _ -> _ => destruct r as [e|buf]
  end; intro H.
  - discriminate H.
  - injection H as <-. exists buf. reflexivity.
Qed.

(** C2: the code departs from the claim.  For the TCP target
    1.2.3.4:443, with a server that selects no-auth and accepts the
    connect, the connect request Tunnel writes ends with the bytes 0, 80
    (port 80), not with 1, 187 (port 443). *)
Theorem tcp_target_port_sent_as_80 :
  Tunnel handler_tcp443 (inr server_noauth)
  = (Ok tt,
     Some (mkConn [] [[5; 1; 0]; [5; 1; 0; 1; 1; 2; 3; 4; 0; 80]] None)).
Proof. reflexivity. Qed.

(** The same for every TCP target: its connect request ends with port
    80.  A domain-name target does carry its port. *)
Lemma tcp_target_request_ends_with_80 (handler : Handler) (ip : Go.IP)
    (p port : Z) (ip' : Go.IP) (dominname : string) (req : list byte) :
  rAddr handler = TCPAddr ip p ->
  target (rAddr handler) = inr (port, ip', dominname) ->
  connectRequest dominname ip' port = inr req ->
  exists front, req = front ++ [0; 80].
Proof.
  intros Hr Ht Hc. rewrite Hr, target_tcp in Ht. injection Ht as <- <- <-.
  apply connectRequest_port in Hc. exact Hc.
Qed.

Lemma domain_target_port_sent :
  Tunnel handler_domain (inr server_noauth)
  = (Ok tt,
     Some (mkConn []
             [[5; 1; 0];
              [5; 1; 0; 3; 11; 101; 120; 97; 109; 112; 108; 101; 46; 111;
               114; 103; 1; 187]] None)).
Proof. reflexivity. Qed.

Lemma connectRequest_literal (ip : Go.IP) (port : Z) :
  connectRequest EmptyString ip port
  = if (List.length ip =? 4)%nat then inr ([5; 1; 0; 1] ++ ip ++ portBytes port)
    else if (List.length ip =? 16)%nat
         then inr ([5; 1; 0; 4] ++ ip ++ portBytes port)
         else inl ErrIPInvalid.
Proof.
  unfold connectRequest, To4, To16, IPv4len, IPv6len, portBytes.
  cbn [String.eqb].
  destruct (List.length ip =? 4)%nat eqn:E4.
  - cbn [isSome andb bytesOf]. cbn [store make repeat app].
    reflexivity.
  - cbn [andb].
    destruct (List.length ip =? 16)%nat eqn:E16.
    + cbn [isSome bytesOf]. cbn [store make repeat app]. reflexivity.
    + cbn [isSome]. reflexivity.
Qed.

(** C5, as the spec has it, fails: the IPv4 address 1.2.3.4 stored in
    16-byte form is representable in 4 bytes, and its connect request
    has address type 4 and 16 address bytes. *)
Lemma ipv4_in_16_bytes_sent_as_ipv4_fails :
  ~ (forall (ip ip4 : Go.IP) (port : Z),
        To4 ip = Some ip4 ->
        connectRequest EmptyString ip port
        = inr ([5; 1; 0; 1] ++ ip4 ++ portBytes port)).
Proof.
  intros claim.
  specialize (claim (IPv4 1 2 3 4) [1; 2; 3; 4] 0 eq_refl).
  vm_compute in claim. discriminate claim.
Qed.

(** C5, amended: for every literal target IP address given to the
    connect encoding: if the address is stored in 4 bytes it is encoded
    with ATYP=1 and its 4 bytes; if it is stored in 16 bytes (an IPv4
    address in 16-byte form included) with ATYP=4 and its 16 bytes; if
    it has any other length, encoding fails with the invalid-address
    error. *)
Theorem literal_address_encoded_by_stored_length :
  forall (ip : Go.IP) (port : Z),
    (List.length ip = 4%nat ->
     connectRequest EmptyString ip port = inr ([5; 1; 0; 1] ++ ip ++ portBytes port))
    /\ (List.length ip = 16%nat ->
        connectRequest EmptyString ip port
        = inr ([5; 1; 0; 4] ++ ip ++ portBytes port))
    /\ (List.length ip <> 4%nat -> List.length ip <> 16%nat ->
        connectRequest EmptyString ip port = inl ErrIPInvalid).
Proof.
  intros ip port. rewrite connectRequest_literal.
  split; [|split].
  - intros ->. reflexivity.
  - intros ->. reflexivity.
  - intros H4 H16. apply Nat.eqb_neq in H4, H16. rewrite H4, H16.
    reflexivity.
Qed.

Lemma literal_address_encoded_by_stored_length_witness :
  connectRequest EmptyString [1; 2; 3; 4] 0 = inr [5; 1; 0; 1; 1; 2; 3; 4; 0; 80]
  /\ connectRequest EmptyString (IPv4 1 2 3 4) 0
     = inr [5; 1; 0; 4; 0; 0; 0; 0; 0; 0; 0; 0; 0; 0; 255; 255; 1; 2; 3; 4;
            0; 80]
  /\ connectRequest EmptyString [1; 2; 3] 0 = inl ErrIPInvalid.
Proof.
  split; [|split].
  - apply (proj1 (literal_address_encoded_by_stored_length [1; 2; 3; 4] 0)).
    reflexivity.
  - apply (proj1 (proj2 (literal_address_encoded_by_stored_length
                           (IPv4 1 2 3 4) 0))).
    reflexivity.
  - apply (proj2 (proj2 (literal_address_encoded_by_stored_length
                           [1; 2; 3] 0))).
    + intro H. discriminate H.
    + intro H. discriminate H.
Defined.

Lemma connectRequest_domain (dominname : string) (ip : Go.IP) (port : Z) :
  dominname <> EmptyString ->
  connectRequest dominname ip port
  = if (255 <? String.length dominname)%nat then inl ErrDomainTooLong
    else inr ([5; 1; 0; 3; Z.of_nat (String.length dominname) mod 256]
              ++ bytes_of_string dominname ++ portBytes port).
Proof.
  intros Hn. apply String.eqb_neq in Hn.
  unfold connectRequest, portBytes. rewrite Hn.
  destruct (255 <? String.length dominname)%nat; [reflexivity|].
  cbn [store make repeat app]. reflexivity.
Qed.

(** C9, as the spec has it, fails: the empty name has at most 255
    bytes, and the connect request for it has address type 4, with the
    16-byte form of 0.0.0.1 for address. *)
Lemma every_short_name_sent_as_domain_fails :
  ~ (forall (domain : string) (p port : Z) (ip : Go.IP) (dominname : string),
        target (DomainAddr domain p) = inr (port, ip, dominname) ->
        (String.length domain <= 255)%nat ->
        connectRequest dominname ip port
        = inr ([5; 1; 0; 3; Z.of_nat (String.length domain)]
               ++ bytes_of_string domain ++ portBytes port)).
Proof.
  intros claim.
  specialize (claim EmptyString 443 443 (IPv4 0 0 0 1) EmptyString eq_refl).
  assert (E : connectRequest EmptyString (IPv4 0 0 0 1) 443
              = inr ([5; 1; 0; 3; Z.of_nat (String.length EmptyString)]
                     ++ bytes_of_string EmptyString ++ portBytes 443)).
  { apply claim. vm_compute. lia. }
  vm_compute in E. discriminate E.
Qed.

(** C9, amended: for every non-empty domain-name target of length at
    most 255 bytes, the connect encoding succeeds and carries the name
    as ATYP=3 with a 1-byte length prefix followed by the name bytes;
    for every name of 256 bytes or more, encoding fails with the
    name-too-long error and no connect request is written. *)
Theorem domain_name_encoding :
  forall (dominname : string) (ip : Go.IP) (port : Z),
    dominname <> EmptyString ->
    ((String.length dominname <= 255)%nat ->
     connectRequest dominname ip port
     = inr ([5; 1; 0; 3; Z.of_nat (String.length dominname)]
            ++ bytes_of_string dominname ++ portBytes port))
    /\ ((256 <= String.length dominname)%nat ->
        connectRequest dominname ip port = inl ErrDomainTooLong
        /\ forall c : Conn,
            connect dominname ip port c = (Fail ErrDomainTooLong, c)).
Proof.
  intros dominname ip port Hn.
  pose proof (connectRequest_domain dominname ip port Hn) as E.
  split.
  - intros Hl. rewrite E.
    destruct (Nat.ltb_spec 255 (String.length dominname)); [lia|].
    rewrite Z.mod_small by lia. reflexivity.
  - intros Hl.
    destruct (Nat.ltb_spec 255 (String.length dominname)); [|lia].
    split; [exact E|].
    intros c. unfold connect. rewrite E. reflexivity.
Qed.

Lemma domain_name_encoding_witness :
  connectRequest "example.org" (IPv4 0 0 0 1) 443
  = inr [5; 1; 0; 3; 11; 101; 120; 97; 109; 112; 108; 101; 46; 111; 114; 103;
         1; 187]
  /\ (String.length name256 = 256%nat
      /\ connectRequest name256 (IPv4 0 0 0 1) 443 = inl ErrDomainTooLong
      /\ forall c : Conn,
          connect name256 (IPv4 0 0 0 1) 443 c = (Fail ErrDomainTooLong, c)).
Proof.
  split; [|split].
  - apply (proj1 (domain_name_encoding "example.org" (IPv4 0 0 0 1) 443
                    ltac:(discriminate))).
    vm_compute. lia.
  - reflexivity.
  - apply (proj2 (domain_name_encoding name256 (IPv4 0 0 0 1) 443
                    ltac:(discriminate))).
    vm_compute. lia.
Defined.

(** * Further properties *)

(** ** Bytes and addresses *)

Lemma be16_decode (v : Z) :
  0 <= v < 65536 ->
  Z.lor (v mod 256) (Z.shiftl (Z.shiftr v 8 mod 256) 8) = v.
Proof.
  intros Hv. apply Z.bits_inj'. intros n Hn.
  rewrite Z.lor_spec.
  change 256 with (2 ^ 8).
  rewrite Z.shiftl_spec by lia.
  destruct (Z.ltb_spec n 8) as [L|L].
  - rewrite Z.mod_pow2_bits_low by lia.
    rewrite (Z.testbit_neg_r _ (n - 8)) by lia.
    apply orb_false_r.
  - rewrite Z.mod_pow2_bits_high by lia. cbn [orb].
    destruct (Z.ltb_spec (n - 8) 8) as [L'|L'].
    + rewrite Z.mod_pow2_bits_low by lia.
      rewrite Z.shiftr_spec by lia. f_equal. lia.
    + rewrite Z.mod_pow2_bits_high by lia.
      symmetry.
      destruct (Z.eq_dec v 0) as [->|Hz]; [apply Z.bits_0|].
      apply Z.bits_above_log2; [lia|].
      assert (Z.log2 v < 16); [|lia].
      apply Z.log2_lt_pow2; lia.
Qed.

Lemma be16_sum (hi lo : Z) :
  0 <= hi -> 0 <= lo < 256 -> Z.lor lo (Z.shiftl hi 8) = Z.shiftl hi 8 + lo.
Proof.
  intros Hh Hl.
  rewrite Z.add_comm.
  rewrite <- Z.lxor_lor, <- Z.add_nocarry_lxor; try reflexivity.
  - apply Z.bits_inj'. intros n Hn.
    rewrite Z.land_spec, Z.bits_0, Z.shiftl_spec by lia.
    destruct (Z.ltb_spec n 8) as [L|L].
    + rewrite (Z.testbit_neg_r _ (n - 8)) by lia. apply andb_false_r.
    + replace (Z.testbit lo n) with false; [reflexivity|].
      symmetry.
      destruct (Z.eq_dec lo 0) as [->|Hz]; [apply Z.bits_0|].
      apply Z.bits_above_log2; [lia|].
      assert (Z.log2 lo < 8); [|lia].
      apply Z.log2_lt_pow2; lia.
  - apply Z.bits_inj'. intros n Hn.
    rewrite Z.land_spec, Z.bits_0, Z.shiftl_spec by lia.
    destruct (Z.ltb_spec n 8) as [L|L].
    + rewrite (Z.testbit_neg_r _ (n - 8)) by lia. apply andb_false_r.
    + replace (Z.testbit lo n) with false; [reflexivity|].
      symmetry.
      destruct (Z.eq_dec lo 0) as [->|Hz]; [apply Z.bits_0|].
      apply Z.bits_above_log2; [lia|].
      assert (Z.log2 lo < 8); [|lia].
      apply Z.log2_lt_pow2; lia.
Qed.

Lemma To4_length (ip ip4 : Go.IP) :
  To4 ip = Some ip4 -> List.length ip4 = 4%nat.
Proof.
  unfold To4, IPv4len, IPv6len.
  destruct (Nat.eqb_spec (List.length ip) 4) as [E|E].
  - intros H. injection H as <-. exact E.
  - destruct (Nat.eqb_spec (List.length ip) 16) as [E'|E']; cbn [andb].
    + destruct (bytes_eqb (firstn 12 ip) v4InV6Prefix); intros H;
        [|discriminate H].
      injection H as <-. unfold sub.
      rewrite length_firstn, length_skipn. lia.
    + intros H. discriminate H.
Qed.

Lemma To16_length (ip ip16 : Go.IP) :
  To16 ip = Some ip16 -> List.length ip16 = 16%nat.
Proof.
  unfold To16, IPv4len, IPv6len.
  destruct (Nat.eqb_spec (List.length ip) 4) as [E|E].
  - intros H. injection H as <-. reflexivity.
  - destruct (Nat.eqb_spec (List.length ip) 16) as [E'|E'].
    + intros H. injection H as <-. exact E'.
    + intros H. discriminate H.
Qed.

(** ** UDP relay framing: encoder and decoder together *)

Lemma MarshalPackage_udp (ip : Go.IP) (port : Z) (data : slice) :
  MarshalPackage (udpPackage ip port data) "udp"
  = Ret (Some ((match To4 ip, To16 ip with
                | Some ip4, _ => [0; 0; 0; 1] ++ ip4
                | None, Some ip16 => [0; 0; 0; 1] ++ ip16
                | None, None => [0; 0; 0; 3] ++ ip
                end)
               ++ BigEndian_PutUint16 (port mod 65536) ++ elems data)).
Proof.
  unfold MarshalPackage, udpPackage. cbn [Addr Payload FieldIP FieldPort obind].
  cbn [String.eqb Ascii.eqb Bool.eqb].
  destruct (To4 ip) as [ip4|]; cbn [isSome bytesOf].
  - cbn [store make repeat]. rewrite <- !app_assoc. reflexivity.
  - destruct (To16 ip) as [ip16|]; cbn [isSome bytesOf].
    + cbn [store make repeat]. rewrite <- !app_assoc. reflexivity.
    + cbn [store make repeat]. rewrite <- !app_assoc. reflexivity.
Qed.

(** X1: a package for an IPv4 address (in 4-byte or in 16-byte form)
    that goes through [MarshalPackage] with "udp" and then through
    [UnMarshalPackage] comes back with the 4-byte address, the port
    modulo 65536 and the same payload. *)
Theorem udp_frame_round_trip_ipv4 :
  forall (ip ip4 : Go.IP) (port : Z) (data : slice),
    To4 ip = Some ip4 ->
    exists frame : list byte,
      MarshalPackage (udpPackage ip port data) "udp" = Ret (Some frame)
      /\ forall sp : list byte,
          UnMarshalPackage (mkSlice frame sp)
          = Ret (udpPackage ip4 (port mod 65536) (mkSlice (elems data) sp)).
Proof.
  intros ip ip4 port data H4.
  pose proof (To4_length ip ip4 H4) as L.
  rewrite MarshalPackage_udp, H4.
  eexists. split; [reflexivity|]. intros sp.
  destruct ip4 as [|a [|b [|c [|d [|? ?]]]]]; try discriminate L.
  rewrite UnMarshalPackage_long by (unfold len; cbn; lia).
  unfold decoded, udpPackage. cbn -[Z.lor Z.shiftl Z.shiftr Z.modulo].
  rewrite be16_decode by (apply Z.mod_pos_bound; lia).
  reflexivity.
Qed.

Lemma udp_frame_round_trip_ipv4_witness :
  exists frame : list byte,
    MarshalPackage (udpPackage (IPv4 1 2 3 4) 53 (fresh [104; 105])) "udp"
    = Ret (Some frame)
    /\ forall sp : list byte,
        UnMarshalPackage (mkSlice frame sp)
        = Ret (udpPackage [1; 2; 3; 4] 53 (mkSlice [104; 105] sp)).
Proof.
  apply (udp_frame_round_trip_ipv4 (IPv4 1 2 3 4) [1; 2; 3; 4] 53
           (fresh [104; 105])).
  reflexivity.
Defined.

(** X2: a package for an IPv6 address does not come back.  Its frame
    carries address type 1 and the 16 address bytes; the decoder takes
    the first 4 of them for the address and the next 2 for the port,
    and hands out the other 10 bytes and the real port bytes as the
    start of the payload. *)
Theorem udp_frame_ipv6_misread :
  forall (ip : Go.IP) (port : Z) (data : slice),
    List.length ip = 16%nat -> To4 ip = None ->
    MarshalPackage (udpPackage ip port data) "udp"
    = Ret (Some ([0; 0; 0; 1] ++ ip
                 ++ BigEndian_PutUint16 (port mod 65536) ++ elems data))
    /\ forall sp : list byte,
        UnMarshalPackage
          (mkSlice ([0; 0; 0; 1] ++ ip
                    ++ BigEndian_PutUint16 (port mod 65536) ++ elems data) sp)
        = Ret (udpPackage (firstn 4 ip)
                 (Z.lor (nth 5 ip 0) (Z.shiftl (nth 4 ip 0) 8))
                 (mkSlice (skipn 6 ip
                           ++ BigEndian_PutUint16 (port mod 65536)
                           ++ elems data) sp)).
Proof.
  intros ip port data L H4.
  rewrite MarshalPackage_udp, H4.
  assert (H16 : To16 ip = Some ip).
  { unfold To16, IPv4len, IPv6len. rewrite L. reflexivity. }
  rewrite H16. split; [reflexivity|]. intros sp.
  do 16 (destruct ip as [|? ip]; [discriminate L|]).
  destruct ip; [|discriminate L].
  rewrite UnMarshalPackage_long by (unfold len; cbn; lia).
  reflexivity.
Qed.

Lemma udp_frame_ipv6_misread_witness :
  MarshalPackage (udpPackage ip6_doc 53 (fresh [104; 105])) "udp"
  = Ret (Some ([0; 0; 0; 1] ++ ip6_doc ++ [0; 53] ++ [104; 105]))
  /\ forall sp : list byte,
      UnMarshalPackage
        (mkSlice ([0; 0; 0; 1] ++ ip6_doc ++ [0; 53] ++ [104; 105]) sp)
      = Ret (udpPackage [32; 1; 13; 184] 0
               (mkSlice [0; 0; 0; 0; 0; 0; 0; 0; 0; 1; 0; 53; 104; 105] sp)).
Proof.
  apply (udp_frame_ipv6_misread ip6_doc 53 (fresh [104; 105])).
  - reflexivity.
  - reflexivity.
Defined.

(** X3: whatever the package and the transport, a frame
    [MarshalPackage] returns starts with three zero bytes, and its
    address type is 1 or 3: the encoder never writes address type 4. *)
Theorem udp_frame_address_type :
  forall (pkg : DataPackage) (proto : string) (frame : list byte),
    MarshalPackage pkg proto = Ret (Some frame) ->
    firstn 3 frame = [0; 0; 0]
    /\ (nth 3 frame 0 = 1 \/ nth 3 frame 0 = 3).
Proof.
  intros pkg proto frame. unfold MarshalPackage.
  destruct (FieldIP (Addr pkg)) as [ip|]; cbn [obind]; [|discriminate].
  destruct (FieldPort (Addr pkg)) as [netPort|]; cbn [obind]; [|discriminate].
  destruct (String.eqb proto "tcp"); [discriminate|].
  destruct (String.eqb proto "udp"); [|discriminate].
  cbn [store make repeat].
  destruct (isSome (To4 ip)); [|destruct (isSome (To16 ip))];
    intros H; injection H as <-; split; try reflexivity;
    cbn; auto.
Qed.

Lemma udp_frame_address_type_witness :
  firstn 3 ([0; 0; 0; 1] ++ ip6_doc ++ [0; 53] ++ [104; 105]) = [0; 0; 0]
  /\ (nth 3 ([0; 0; 0; 1] ++ ip6_doc ++ [0; 53] ++ [104; 105]) 0 = 1
      \/ nth 3 ([0; 0; 0; 1] ++ ip6_doc ++ [0; 53] ++ [104; 105]) 0 = 3).
Proof.
  apply (udp_frame_address_type (udpPackage ip6_doc 53 (fresh [104; 105]))
           "udp").
  reflexivity.
Defined.

(** ** Origin-destination recovery: edges *)

Lemma reslice_from_0 (b : slice) : reslice_from b 0 = Ret b.
Proof.
  destruct b as [el sp]. unfold reslice_from, reslice, cap, len, backing, sub.
  cbn [elems spare Nat.leb andb skipn].
  assert (E : (List.length el <=? List.length (el ++ sp))%nat = true).
  { apply Nat.leb_le. rewrite length_app. lia. }
  rewrite E, Nat.sub_0_r.
  rewrite firstn_app, firstn_all, Nat.sub_diag, firstn_O, app_nil_r.
  rewrite skipn_app, skipn_all, Nat.sub_diag. reflexivity.
Qed.

(** X4: on a buffer that is not nil and has fewer than 16 bytes (the
    empty buffer among them) recovery finds no record: it returns the
    not-found error, never a parse error. *)
Theorem recovery_short_buffer_not_found :
  forall buf : slice,
    (len buf < 16)%nat ->
    ParseRemoteAddrFromMsgHdr (Some buf) = Ret (None, Some ErrSolIPNotFound).
Proof.
  intros buf H. unfold ParseRemoteAddrFromMsgHdr, ParseSocketControlMessage.
  cbn [parseLoop]. change (CmsgLen 0) with 16%nat.
  destruct (Nat.leb_spec (0 + 16) (len buf)); [lia|]. reflexivity.
Qed.

Lemma recovery_short_buffer_not_found_witness :
  (len oob_8 < 16)%nat
  /\ ParseRemoteAddrFromMsgHdr (Some oob_8) = Ret (None, Some ErrSolIPNotFound).
Proof.
  split.
  - vm_compute. lia.
  - apply (recovery_short_buffer_not_found oob_8). vm_compute. lia.
Defined.

(** X5: when the first header of the buffer declares a length below
    the header's own 16 bytes, or beyond the end of the buffer,
    recovery returns the error EINVAL of the parser and no address. *)
Theorem recovery_bad_header_einval :
  forall buf : slice,
    (16 <= len buf)%nat ->
    Len (headerOf buf) < 16 \/ Z.of_nat (len buf) < Len (headerOf buf) ->
    ParseRemoteAddrFromMsgHdr (Some buf) = Ret (None, Some (Errno EINVAL)).
Proof.
  intros buf Hl Hh.
  unfold ParseRemoteAddrFromMsgHdr, ParseSocketControlMessage.
  cbn [parseLoop]. change (CmsgLen 0) with 16%nat.
  destruct (Nat.leb_spec (0 + 16) (len buf)); [|lia].
  rewrite reslice_from_0. cbn [obind].
  unfold socketControlMessageHeaderAndData. cbv zeta.
  change (Z.of_nat SizeofCmsghdr) with 16.
  assert (E : (Len (headerOf buf) <? 16)
              || (Z.of_nat (len buf) <? Len (headerOf buf)) = true).
  { apply orb_true_iff. destruct Hh as [Hh|Hh]; [left|right];
      apply Z.ltb_lt; exact Hh. }
  rewrite E. reflexivity.
Qed.

Lemma recovery_bad_header_einval_witness :
  ParseRemoteAddrFromMsgHdr (Some oob_cut) = Ret (None, Some (Errno EINVAL)).
Proof.
  apply (recovery_bad_header_einval oob_cut).
  - vm_compute. lia.
  - right. vm_compute. reflexivity.
Defined.

(** X6: from the control message the kernel makes at the IPv4 level
    (header of length 32, level SOL_IP, type IP_RECVORIGDSTADDR, then a
    16-byte sockaddr_in), whatever follows it in the backing array,
    recovery returns bytes 4..8 of the sockaddr_in as address and its
    bytes 2..4, big-endian, as port. *)
Theorem recovery_of_kernel_record :
  forall (sa sp : list byte),
    List.length sa = 16%nat ->
    ParseRemoteAddrFromMsgHdr (Some (mkSlice (origDstRecord sa) sp))
    = Ret (Some {| IP := sub 4 8 sa;
                   Port := Z.lor (nth 3 sa 0) (Z.shiftl (nth 2 sa 0) 8) |},
           None).
Proof.
  intros sa sp L.
  do 16 (destruct sa as [|? sa]; [discriminate L|]).
  destruct sa; [|discriminate L].
  unfold ParseRemoteAddrFromMsgHdr, ParseSocketControlMessage, origDstRecord.
  cbn -[Z.lor Z.shiftl]. reflexivity.
Qed.

Lemma recovery_of_kernel_record_witness :
  ParseRemoteAddrFromMsgHdr (Some (mkSlice (origDstRecord sockaddr_in_443) []))
  = Ret (Some {| IP := [1; 2; 3; 4]; Port := 443 |}, None).
Proof.
  apply (recovery_of_kernel_record sockaddr_in_443 []).
  reflexivity.
Defined.

Lemma scanMsgs_no_match (msgSl : list SocketControlMessage) :
  forall addr : option BaseAddr,
    existsb matching msgSl = false -> scanMsgs msgSl addr = Ret addr.
Proof.
  induction msgSl as [|msg rest IH]; intros addr H.
  - reflexivity.
  - cbn [existsb] in H. apply orb_false_iff in H. destruct H as [Hm Hr].
    cbn [scanMsgs].
    assert (E : scanMsg msg addr = Ret addr).
    { unfold matching, matchesV6, matchesV4 in Hm. unfold scanMsg.
      destruct ((Level (Header msg) =? SOL_IP)
                && (Type_ (Header msg) =? IP_RECVORIGDSTADDR));
        [discriminate Hm|].
      cbn [negb andb orb] in Hm. rewrite Hm. reflexivity. }
    rewrite E. cbn [obind]. apply IH. exact Hr.
Qed.

(** X7: records of any other level or type are passed over, whatever
    their length: when no record of the buffer has level SOL_IP or
    SOL_IPV6 together with type IP_RECVORIGDSTADDR (20), recovery
    returns the not-found error. *)
Theorem recovery_ignores_other_records :
  forall (buf : slice) (msgSl : list SocketControlMessage),
    ParseSocketControlMessage buf = Ret (inr msgSl) ->
    existsb matching msgSl = false ->
    ParseRemoteAddrFromMsgHdr (Some buf) = Ret (None, Some ErrSolIPNotFound).
Proof.
  intros buf msgSl Hp Hm. unfold ParseRemoteAddrFromMsgHdr.
  rewrite Hp. cbn [obind]. rewrite (scanMsgs_no_match msgSl None Hm).
  reflexivity.
Qed.

Lemma recovery_ignores_other_records_witness :
  ParseRemoteAddrFromMsgHdr (Some oob_v6_type74)
  = Ret (None, Some ErrSolIPNotFound).
Proof.
  apply (recovery_ignores_other_records oob_v6_type74
           [mkSocketControlMessage (mkCmsghdr 44 41 74)
              (fresh ([10; 0;  1; 187;  0; 0; 0; 0] ++ ip6_doc
                      ++ [0; 0; 0; 0]))]).
  - reflexivity.
  - reflexivity.
Defined.

(** ** Origin-destination recovery: TCP and UDP together *)

(** X8: the TCP path and the UDP path read a sockaddr_in alike.  For
    16 bytes [sa] (each in 0..255), what [GetTcpRemoteAddr] makes of
    them as socket option and what [ParseRemoteAddrFromMsgHdr] makes of
    them as IPv4-level control message are the same address and the
    same port, and the port is below 65536. *)
Theorem tcp_and_udp_recovery_agree :
  forall (sa : list byte) (fd : Z) (getsockopt : Z -> Z + list byte),
    List.length sa = 16%nat ->
    Forall isByte sa ->
    getsockopt fd = inr sa ->
    exists a : BaseAddr,
      ParseRemoteAddrFromMsgHdr (Some (fresh (origDstRecord sa)))
      = Ret (Some a, None)
      /\ GetTcpRemoteAddr (inr fd) getsockopt = inr (TCPAddr (IP a) (Port a))
      /\ 0 <= Port a < 65536.
Proof.
  intros sa fd getsockopt L B G.
  eexists. split; [apply recovery_of_kernel_record; exact L|].
  cbn [IP Port]. unfold GetTcpRemoteAddr. rewrite G.
  assert (B2 : isByte (nth 2 sa 0)).
  { apply (proj1 (Forall_nth isByte sa) B). lia. }
  assert (B3 : isByte (nth 3 sa 0)).
  { apply (proj1 (Forall_nth isByte sa) B). lia. }
  unfold isByte in B2, B3.
  rewrite be16_sum by lia.
  split; [reflexivity|].
  rewrite Z.shiftl_mul_pow2 by lia. change (2 ^ 8) with 256. lia.
Qed.

Lemma tcp_and_udp_recovery_agree_witness :
  exists a : BaseAddr,
    ParseRemoteAddrFromMsgHdr (Some (fresh (origDstRecord sockaddr_in_443)))
    = Ret (Some a, None)
    /\ GetTcpRemoteAddr (inr 7) (fun _ => inr sockaddr_in_443)
       = inr (TCPAddr (IP a) (Port a))
    /\ 0 <= Port a < 65536.
Proof.
  apply (tcp_and_udp_recovery_agree sockaddr_in_443 7
           (fun _ => inr sockaddr_in_443)).
  - reflexivity.
  - unfold sockaddr_in_443, isByte. repeat constructor; lia.
  - reflexivity.
Defined.

(** ** Transparent dialer, further *)

(** X9: a socket address [convertAddrToSockAddr] returns is whole (4
    address bytes for IPv4, 16 for IPv6) and never has port 0: the
    address's own port is kept unless it is 0, which becomes 80.  The
    conversion leaves the kernel as it is. *)
Theorem converted_sockaddr_port_never_zero :
  forall (addr : Go.Addr) (k k' : Kernel) (sa : Sockaddr),
    convertAddrToSockAddr addr k = (Ok sa, k') ->
    k' = k
    /\ sockWhole sa
    /\ sockPort sa <> 0
    /\ (forall p, FieldPort addr = Ret p ->
                  sockPort sa = if p =? 0 then 80 else p).
Proof.
  intros addr k k' sa. unfold convertAddrToSockAddr.
  destruct addr as [ip p|ip p|d p]; cbn [convertibleToIPAddr negb];
    try (intro H; discriminate H);
    unfold bind, lift; cbn [FieldIP FieldPort];
    (destruct (To4 ip) as [ip4|] eqn:E4;
     [|destruct (To16 ip) as [ip16|] eqn:E16]);
    cbn [ret fail]; intro H; try discriminate H;
    injection H as <- <-;
    (split; [reflexivity|]);
    (split; [cbn [sockWhole];
             first [exact (To4_length _ _ E4) | exact (To16_length _ _ E16)]|]);
    (split; [cbn [sockPort]; destruct (Z.eqb_spec p 0); lia|]);
    intros q Hq; injection Hq as <-; reflexivity.
Qed.

Lemma converted_sockaddr_port_never_zero_witness :
  convertAddrToSockAddr local0 kernel_ok
  = (Ok (SockaddrInet4 80 [10; 0; 0; 1]), kernel_ok)
  /\ sockPort (SockaddrInet4 80 [10; 0; 0; 1]) <> 0.
Proof.
  split.
  - reflexivity.
  - apply (converted_sockaddr_port_never_zero local0 kernel_ok kernel_ok
             (SockaddrInet4 80 [10; 0; 0; 1]) eq_refl).
Defined.

Lemma lookup_fd_head (fd domain typ n : Z) (k : Kernel) :
  lookup_fd fd (open {| fault := fault k; next_fd := n;
                        open := mkSock fd domain typ :: open k |})
  = Some (mkSock fd domain typ).
Proof. unfold lookup_fd. cbn. rewrite Z.eqb_refl. reflexivity. Qed.

(** [SetSockOptTrn] returns nil exactly on an open stream or datagram
    socket, when none of its four calls fails. *)
Lemma SetSockOptTrn_ok_iff (fd : Z) (k : Kernel) :
  fst (SetSockOptTrn fd k) = Ok tt
  <-> optionsSettable k
      /\ exists s, lookup_fd fd (open k) = Some s
                   /\ (s_typ s = SOCK_STREAM \/ s_typ s = SOCK_DGRAM).
Proof.
  unfold SetSockOptTrn, optionsSettable, bind, GetsockoptInt, SetsockoptInt,
    is_open, ret, fail.
  destruct (fault k (CallGetsockopt SOL_SOCKET SO_TYPE)) as [e0|];
    destruct (lookup_fd fd (open k)) as [s|] eqn:Lk;
    cbv beta iota zeta delta [fst];
    try (split; [intro H; discriminate H
                | intros [[H0 _] [s' [Hs _]]];
                  first [discriminate H0 | discriminate Hs]]).
  destruct (Z.eqb_spec (s_typ s) SOCK_STREAM) as [Es|Es];
    destruct (Z.eqb_spec (s_typ s) SOCK_DGRAM) as [Ed|Ed];
    cbv beta iota zeta delta [fst negb andb];
    try (split; [intro H; discriminate H
                | intros [_ [s' [Hs [Ht|Ht]]]]; injection Hs as <-;
                  contradiction]);
    destruct (fault k (CallSetsockopt SOL_SOCKET SO_REUSEADDR)) as [e1|] eqn:F1;
    destruct (fault k (CallSetsockopt SOL_IP IP_TRANSPARENT)) as [e2|] eqn:F2;
    destruct (fault k (CallSetsockopt SOL_IP IP_RECVORIGDSTADDR)) as [e3|] eqn:F3;
    repeat (cbv beta iota zeta delta [fst isSome];
            rewrite ?Lk, ?F1, ?F2, ?F3);
    (split;
     [ intro H;
       first [ discriminate H
             | split; [repeat split | exists s; split; [reflexivity | tauto]] ]
     | intros [[_ [H1 [H2 H3]]] _];
       try discriminate H1; try discriminate H2; try discriminate H3;
       reflexivity ]).
Qed.

(** X10: [SetSockOptTrn] returns nil exactly when the descriptor is an
    open stream or datagram socket and none of its four system calls
    (reading the socket type, setting reuse-address, transparent and
    receive-original-destination) fails. *)
Theorem SetSockOptTrn_succeeds_exactly :
  forall (fd : Z) (k : Kernel),
    fst (SetSockOptTrn fd k) = Ok tt
    <-> optionsSettable k
        /\ exists s, lookup_fd fd (open k) = Some s
                     /\ (s_typ s = SOCK_STREAM \/ s_typ s = SOCK_DGRAM).
Proof. exact SetSockOptTrn_ok_iff. Qed.

Lemma SetSockOptTrn_succeeds_exactly_witness :
  fst (SetSockOptTrn 3 kernel_tcp3) = Ok tt.
Proof.
  apply (proj2 (SetSockOptTrn_succeeds_exactly 3 kernel_tcp3)).
  split.
  - repeat split.
  - exists (mkSock 3 AF_INET SOCK_STREAM). split; [reflexivity|].
    left. reflexivity.
Defined.

Lemma bind_not_ok {S A B : Type} (m : M S A) (f : A -> M S B) (s : S) :
  (forall a, fst (m s) <> Ok a) -> forall b, fst (bind m f s) <> Ok b.
Proof.
  intros H b. unfold bind.
  destruct (m s) as [[a|e|] s']; cbn [fst] in *.
  - exfalso. exact (H a eq_refl).
  - discriminate.
  - discriminate.
Qed.

Lemma MegaDial_before_socket (network : string) (lAddr rAddr : Go.Addr)
    (k : Kernel) :
  socketCreated lAddr rAddr k = false ->
  exists r, MegaDial network lAddr rAddr k = (r, k)
            /\ forall conn, r <> Ok conn.
Proof.
  unfold socketCreated, family, MegaDial.
  destruct (AddrType_eqb (TypeOf lAddr) (TypeOf rAddr)); cbn [negb andb];
    [|intros _; eexists; split; [reflexivity | discriminate]].
  destruct (FieldIP lAddr) as [ip|]; unfold bind at 1; cbn [lift];
    [|intros _; eexists; split; [reflexivity | discriminate]].
  destruct (isSome (To4 ip)); [|destruct (isSome (To16 ip))];
    unfold bind at 1; cbn [ret fail isSome andb];
    try (intros _; eexists; split; [reflexivity | discriminate]);
    unfold bind at 1; unfold Socket at 1;
    (destruct (fault k CallSocket); cbn [isSome negb andb];
     [intros _; eexists; split; [reflexivity | discriminate]
     | intro H; discriminate H]).
Qed.

(** X11: when the dial stops before it has a socket (the address types
    differ, the local address has no family, or the socket call
    fails), it does not succeed and leaves the kernel as it found it:
    no descriptor is opened. *)
Theorem dial_without_socket_changes_nothing :
  forall (network : string) (lAddr rAddr : Go.Addr) (k : Kernel),
    socketCreated lAddr rAddr k = false ->
    snd (MegaDial network lAddr rAddr k) = k
    /\ forall conn, fst (MegaDial network lAddr rAddr k) <> Ok conn.
Proof.
  intros network lAddr rAddr k Hs.
  destruct (MegaDial_before_socket network lAddr rAddr k Hs) as [r [E Hr]].
  rewrite E. split; [reflexivity | exact Hr].
Qed.

Lemma dial_without_socket_changes_nothing_witness :
  snd (MegaDial "udp" local4 remoteUDP kernel_ok) = kernel_ok
  /\ forall conn, fst (MegaDial "udp" local4 remoteUDP kernel_ok) <> Ok conn.
Proof.
  apply (dial_without_socket_changes_nothing "udp" local4 remoteUDP kernel_ok).
  reflexivity.
Defined.

(** X12: for every network name other than "tcp" and "udp" the dial
    never succeeds: the socket is asked for with type 0, and if the
    kernel makes one, [SetSockOptTrn] refuses its type. *)
Theorem dial_unknown_network_never_succeeds :
  forall (network : string) (lAddr rAddr : Go.Addr) (k : Kernel) (conn : Z),
    network <> "tcp"%string -> network <> "udp"%string ->
    fst (MegaDial network lAddr rAddr k) <> Ok conn.
Proof.
  intros network lAddr rAddr k conn Ht Hu.
  destruct (socketCreated lAddr rAddr k) eqn:Hs.
  2: { destruct (MegaDial_before_socket network lAddr rAddr k Hs)
         as [r [E Hr]].
       rewrite E. apply Hr. }
  apply String.eqb_neq in Ht, Hu.
  unfold socketCreated, family in Hs. unfold MegaDial.
  rewrite Ht, Hu.
  destruct (AddrType_eqb (TypeOf lAddr) (TypeOf rAddr)); [|discriminate Hs].
  cbn [negb andb] in *.
  destruct (FieldIP lAddr) as [ip|]; [|discriminate Hs].
  unfold bind at 1. cbn [lift].
  assert (D : exists domain,
             (if isSome (To4 ip) then @ret Kernel Z AF_INET
              else if isSome (To16 ip) then ret AF_INET6
                   else fail ErrLocalIPIncorrect) = ret domain).
  { destruct (isSome (To4 ip)); [eexists; reflexivity|].
    destruct (isSome (To16 ip)); [eexists; reflexivity | discriminate Hs]. }
  destruct D as [domain D]. rewrite D.
  unfold bind at 1. cbn [ret].
  unfold bind at 1. unfold Socket at 1.
  destruct (fault k CallSocket); [discriminate|].
  apply bind_not_ok. intros [] H.
  apply SetSockOptTrn_ok_iff in H.
  destruct H as [_ [s [Hl Hty]]].
  rewrite lookup_fd_head in Hl. injection Hl as <-.
  cbn [s_typ] in Hty. destruct Hty as [Hty|Hty]; discriminate Hty.
Qed.

Lemma dial_unknown_network_never_succeeds_witness :
  fst (MegaDial "tcp4" local4 remote4 kernel_ok) <> Ok 4.
Proof.
  apply (dial_unknown_network_never_succeeds "tcp4" local4 remote4 kernel_ok 4).
  - intro H. discriminate H.
  - intro H. discriminate H.
Defined.

Section Preserves.

Variable P : Kernel -> Prop.

Lemma preserves_bind {A B : Type} (m : K A) (f : A -> K B) :
  preserves P m -> (forall a, preserves P (f a)) -> preserves P (bind m f).
Proof.
  intros Hm Hf k Hk. unfold bind. specialize (Hm k Hk).
  destruct (m k) as [[a| |] k1]; cbn [snd] in *; try exact Hm.
  apply Hf. exact Hm.
Qed.

Lemma preserves_same {A : Type} (m : K A) :
  (forall k, snd (m k) = k) -> preserves P m.
Proof. intros H k Hk. rewrite H. exact Hk. Qed.

End Preserves.

Lemma GetsockoptInt_same (fd level opt : Z) (k : Kernel) :
  snd (GetsockoptInt fd level opt k) = k.
Proof.
  unfold GetsockoptInt. destruct (fault k _); [reflexivity|].
  destruct (lookup_fd fd (open k)); reflexivity.
Qed.

Lemma SetsockoptInt_same (fd level opt value : Z) (k : Kernel) :
  snd (SetsockoptInt fd level opt value k) = k.
Proof.
  unfold SetsockoptInt. destruct (fault k _); [reflexivity|].
  destruct (is_open fd k); reflexivity.
Qed.

Lemma Bind_same (fd : Z) (sa : Sockaddr) (k : Kernel) : snd (Bind fd sa k) = k.
Proof.
  unfold Bind. destruct (fault k _); [reflexivity|].
  destruct (is_open fd k); reflexivity.
Qed.

Lemma Connect_same (fd : Z) (sa : Sockaddr) (k : Kernel) :
  snd (Connect fd sa k) = k.
Proof.
  unfold Connect. destruct (fault k _); [reflexivity|].
  destruct (is_open fd k); reflexivity.
Qed.

Lemma convertAddrToSockAddr_same (addr : Go.Addr) (k : Kernel) :
  snd (convertAddrToSockAddr addr k) = k.
Proof.
  unfold convertAddrToSockAddr.
  destruct addr as [ip p|ip p|d p]; cbn [convertibleToIPAddr negb];
    try reflexivity; unfold bind, lift; cbn [FieldIP FieldPort];
    (destruct (To4 ip); [reflexivity|]);
    (destruct (To16 ip); reflexivity).
Qed.

Lemma holds_FileConn (fd : Z) (s : Sock) (file : Z) :
  preserves (holds fd s) (FileConn file).
Proof.
  intros k [Hl Hn]. unfold FileConn.
  destruct (fault k _); [split; assumption|].
  destruct (lookup_fd file (open k)); [|split; assumption].
  unfold holds, lookup_fd in *. cbn [snd open next_fd find s_fd].
  destruct (Z.eqb_spec (next_fd k) fd); [lia|].
  split; [exact Hl | lia].
Qed.

Lemma MegaDial_tail_holds (fd : Z) (s : Sock) (lAddr rAddr : Go.Addr) :
  preserves (holds fd s)
    (SetSockOptTrn fd ;;
     lSockAddr <- convertAddrToSockAddr lAddr ;;
     rSockAddr <- convertAddrToSockAddr rAddr ;;
     Bind fd lSockAddr ;;
     Connect fd rSockAddr ;;
     match NewFile fd with
     | None => fail ErrNewFileNil
     | Some file => FileConn file
     end).
Proof.
  apply preserves_bind.
  { unfold SetSockOptTrn.
    apply preserves_bind;
      [apply preserves_same; apply GetsockoptInt_same|]. intros soTyp.
    destruct (negb (soTyp =? SOCK_STREAM) && negb (soTyp =? SOCK_DGRAM));
      [apply preserves_same; reflexivity|].
    repeat (apply preserves_bind;
            [apply preserves_same; apply SetsockoptInt_same|]; intros _).
    apply preserves_same. reflexivity. }
  intros _.
  apply preserves_bind;
    [apply preserves_same; apply convertAddrToSockAddr_same|]. intros l.
  apply preserves_bind;
    [apply preserves_same; apply convertAddrToSockAddr_same|]. intros r.
  apply preserves_bind; [apply preserves_same; apply Bind_same|]. intros _.
  apply preserves_bind; [apply preserves_same; apply Connect_same|]. intros _.
  destruct (NewFile fd);
    [apply holds_FileConn | apply preserves_same; reflexivity].
Qed.

Lemma convertAddrToSockAddr_shape (addr : Go.Addr) (ip : Go.IP) :
  FieldIP addr = Ret ip ->
  exists port,
    forall k0,
      convertAddrToSockAddr addr k0
      = (match To4 ip, To16 ip with
         | Some a, _ => Ok (SockaddrInet4 port a)
         | None, Some a => Ok (SockaddrInet6 port a)
         | None, None => Fail ErrIPNotV4V6
         end, k0).
Proof.
  destruct addr as [i p|i p|d p]; cbn [FieldIP]; intro H;
    try discriminate H; injection H as ->;
    exists (if p =? 0 then 80 else p); intros k0;
    unfold convertAddrToSockAddr, bind, lift;
    cbn [convertibleToIPAddr negb FieldIP FieldPort];
    (destruct (To4 ip); [reflexivity|]);
    (destruct (To16 ip); reflexivity).
Qed.

(** X13: the socket the dial creates has the family of the local
    address's socket address: whenever the dial gets its socket, the
    descriptor stands, at the end of the dial, for a socket whose
    domain is that of what [convertAddrToSockAddr] makes of the local
    address, so [bind] is never given an address of another family. *)
Theorem dial_socket_has_family_of_local_address :
  forall (network : string) (lAddr rAddr : Go.Addr) (k : Kernel),
    socketCreated lAddr rAddr k = true ->
    exists (s : Sock) (sa : Sockaddr),
      lookup_fd (next_fd k) (open (snd (MegaDial network lAddr rAddr k)))
      = Some s
      /\ (forall k0, convertAddrToSockAddr lAddr k0 = (Ok sa, k0))
      /\ s_domain s = sockFamily sa.
Proof.
  intros network lAddr rAddr k Hs.
  unfold socketCreated, family in Hs.
  apply andb_true_iff in Hs. destruct Hs as [Hs Hf].
  apply andb_true_iff in Hs. destruct Hs as [Ht Hi].
  unfold MegaDial. rewrite Ht. cbn [negb].
  destruct (FieldIP lAddr) as [ip|] eqn:Ef; [|discriminate Hi].
  destruct (convertAddrToSockAddr_shape lAddr ip Ef) as [port Hc].
  unfold bind at 1. cbn [lift].
  destruct (To4 ip) as [ip4|] eqn:E4;
    [|destruct (To16 ip) as [ip16|] eqn:E16; [|discriminate Hi]];
    cbn [isSome];
    unfold bind at 1; cbn [ret];
    unfold bind at 1; unfold Socket at 1;
    (destruct (fault k CallSocket); [discriminate Hf|]);
    match goal with
    | |- context [mkSock (next_fd k) ?d ?t] =>
      destruct (MegaDial_tail_holds (next_fd k) (mkSock (next_fd k) d t)
                  lAddr rAddr
                  {| fault := fault k; next_fd := next_fd k + 1;
                     open := mkSock (next_fd k) d t :: open k |})
        as [Hl _];
      [split; [apply lookup_fd_head | cbn [next_fd]; lia]|];
      exists (mkSock (next_fd k) d t)
    end;
    eexists; (split; [exact Hl|]); (split; [exact Hc | reflexivity]).
Qed.

Lemma dial_socket_has_family_of_local_address_witness :
  exists (s : Sock) (sa : Sockaddr),
    lookup_fd 3 (open (snd (MegaDial "tcp" local4 remote6 kernel_connect_fails)))
    = Some s
    /\ (forall k0, convertAddrToSockAddr local4 k0 = (Ok sa, k0))
    /\ s_domain s = sockFamily sa.
Proof.
  apply (dial_socket_has_family_of_local_address "tcp" local4 remote6
           kernel_connect_fails).
  reflexivity.
Defined.

(** ** SOCKS5 negotiation, further *)

(** *** Reads in pieces *)

Lemma readFull_flat (inc : list chunk) :
  forall (n : nat) (got : list byte),
    allRecv inc = true ->
    (n <= List.length (flat inc))%nat ->
    exists inc',
      readFull inc n got = (Ok (got ++ firstn n (flat inc)), inc')
      /\ allRecv inc' = true
      /\ flat inc' = skipn n (flat inc).
Proof.
  induction inc as [|ch rest IH]; intros n got Ha Hn.
  - cbn [flat flat_map List.length] in Hn.
    destruct n; [|lia].
    exists []. cbn. rewrite app_nil_r. auto.
  - destruct n as [|m].
    { exists (ch :: rest). cbn [readFull firstn skipn].
      rewrite app_nil_r. auto. }
    destruct ch as [bs|e]; [|discriminate Ha].
    cbn [allRecv forallb andb] in Ha. fold (allRecv rest) in Ha.
    cbn [flat flat_map] in *. fold (flat rest) in *.
    rewrite length_app in Hn.
    cbn [readFull].
    destruct (Nat.leb_spec (List.length bs) (S m)) as [Hl|Hl].
    + destruct (IH (S m - List.length bs)%nat (got ++ bs) Ha ltac:(lia))
        as [inc' [E [Ha' Hf']]].
      exists inc'. rewrite E. split; [|split; [exact Ha'|]].
      * rewrite firstn_app.
        replace (firstn (S m) bs) with bs
          by (symmetry; apply firstn_all2; lia).
        rewrite <- app_assoc. reflexivity.
      * rewrite Hf', skipn_app.
        replace (skipn (S m) bs) with (@nil byte)
          by (symmetry; apply skipn_all2; lia).
        reflexivity.
    + exists (Recv (skipn (S m) bs) :: rest).
      split; [|split].
      * rewrite firstn_app.
        replace (S m - List.length bs)%nat with 0%nat by lia.
        rewrite firstn_O, app_nil_r. reflexivity.
      * cbn [allRecv forallb andb]. exact Ha.
      * cbn [flat flat_map]. rewrite skipn_app.
        replace (S m - List.length bs)%nat with 0%nat by lia.
        reflexivity.
Qed.

Lemma ReadFull_delivers (c : Conn) (pre post : list byte) :
  delivers c (pre ++ post) ->
  exists c',
    ReadFull (List.length pre) c = (Ok pre, c')
    /\ written c' = written c
    /\ wbudget c' = wbudget c
    /\ delivers c' post.
Proof.
  intros [Ha Hf].
  destruct (readFull_flat (incoming c) (List.length pre) [] Ha) as [inc' [E [Ha' Hf']]].
  { rewrite Hf, length_app. lia. }
  unfold ReadFull. rewrite E.
  exists {| incoming := inc'; written := written c; wbudget := wbudget c |}.
  split; [|split; [reflexivity | split; [reflexivity|]]].
  - rewrite Hf, firstn_app, firstn_all, Nat.sub_diag, firstn_O, app_nil_r.
    reflexivity.
  - split; [exact Ha'|]. cbn [incoming].
    rewrite Hf', Hf, skipn_app, skipn_all, Nat.sub_diag. reflexivity.
Qed.

Lemma bind_ReadFull (c : Conn) (n : nat) (pre post : list byte) :
  delivers c (pre ++ post) ->
  List.length pre = n ->
  exists c',
    delivers c' post
    /\ written c' = written c
    /\ wbudget c' = wbudget c
    /\ forall (B : Type) (k : list byte -> T B),
        bind (ReadFull n) k c = k pre c'.
Proof.
  intros D <-.
  destruct (ReadFull_delivers c pre post D) as [c' [E [Hw [Hb D']]]].
  exists c'. repeat split; try assumption; try apply D'.
  intros B k. unfold bind. rewrite E. reflexivity.
Qed.

Lemma connectReply_delivers (c : Conn) (rsv atyp p1 p2 : byte)
    (addr tail : list byte) :
  delivers c ([5; 0; rsv; atyp] ++ addr ++ [p1; p2] ++ tail) ->
  boundAddr atyp addr ->
  exists c',
    connectReply c = (Ok tt, c')
    /\ written c' = written c
    /\ wbudget c' = wbudget c
    /\ delivers c' tail.
Proof.
  intros D HB. unfold connectReply.
  destruct (bind_ReadFull c 3 [5; 0; rsv] ([atyp] ++ addr ++ [p1; p2] ++ tail)
              D eq_refl) as [c1 [D1 [W1 [B1 R1]]]].
  rewrite R1. cbn [nth Z.eqb Pos.eqb negb orb].
  destruct (bind_ReadFull c1 1 [atyp] (addr ++ [p1; p2] ++ tail) D1 eq_refl)
    as [c2 [D2 [W2 [B2 R2]]]].
  rewrite R2. cbn [nth].
  destruct HB as [[-> L] | [[-> L] | [-> [l [name [-> L]]]]]];
    cbn [Z.eqb Pos.eqb].
  - unfold bind at 1. cbn [ret].
    destruct (bind_ReadFull c2 4 addr ([p1; p2] ++ tail) D2 L)
      as [c3 [D3 [W3 [B3 R3]]]].
    rewrite R3.
    destruct (bind_ReadFull c3 2 [p1; p2] tail D3 eq_refl)
      as [c4 [D4 [W4 [B4 R4]]]].
    rewrite R4. exists c4. cbn [ret].
    repeat split; try apply D4; congruence.
  - unfold bind at 1. cbn [ret].
    destruct (bind_ReadFull c2 16 addr ([p1; p2] ++ tail) D2 L)
      as [c3 [D3 [W3 [B3 R3]]]].
    rewrite R3.
    destruct (bind_ReadFull c3 2 [p1; p2] tail D3 eq_refl)
      as [c4 [D4 [W4 [B4 R4]]]].
    rewrite R4. exists c4. cbn [ret].
    repeat split; try apply D4; congruence.
  - unfold bind at 1.
    destruct (bind_ReadFull c2 1 [l] (name ++ [p1; p2] ++ tail) D2 eq_refl)
      as [c3 [D3 [W3 [B3 R3]]]].
    rewrite R3. cbn [ret nth].
    destruct (bind_ReadFull c3 (Z.to_nat l) name ([p1; p2] ++ tail) D3 L)
      as [c4 [D4 [W4 [B4 R4]]]].
    rewrite R4.
    destruct (bind_ReadFull c4 2 [p1; p2] tail D4 eq_refl)
      as [c5 [D5 [W5 [B5 R5]]]].
    rewrite R5. exists c5. cbn [ret].
    repeat split; try apply D5; congruence.
Qed.

(** X15: reading the connect response does not depend on how the
    server's bytes are split into reads.  For every connection that
    delivers, in whatever pieces, a response with version 5, reply code
    0, a bound address that fits its address type (1: 4 bytes, 4: 16
    bytes, 3: a length byte and that many bytes) and a port, the
    response stage returns nil, writes nothing, and leaves exactly the
    bytes after the response to be read. *)
Theorem connect_reply_any_chunking :
  forall (c : Conn) (rsv atyp p1 p2 : byte) (addr tail : list byte),
    delivers c ([5; 0; rsv; atyp] ++ addr ++ [p1; p2] ++ tail) ->
    boundAddr atyp addr ->
    exists c',
      connectReply c = (Ok tt, c')
      /\ written c' = written c
      /\ wbudget c' = wbudget c
      /\ delivers c' tail.
Proof. exact connectReply_delivers. Qed.

Lemma connect_reply_any_chunking_witness :
  exists c',
    connectReply (mkConn reply_in_pieces [[5; 1; 0]] None) = (Ok tt, c')
    /\ written c' = [[5; 1; 0]]
    /\ wbudget c' = None
    /\ delivers c' [7; 7].
Proof.
  apply (connect_reply_any_chunking (mkConn reply_in_pieces [[5; 1; 0]] None)
           0 3 1 187 [2; 104; 105] [7; 7]).
  - split; reflexivity.
  - right. right. split; [reflexivity|].
    exists 2, [104; 105]. split; reflexivity.
Defined.

(** X16: however the response is split into reads, a connect response
    whose version is not 5 or whose reply code is not 0 makes the
    response stage fail with the connect-response error, which
    carries both bytes; and after version 5 and reply code 0 an
    address type other than 1, 3 and 4 makes it fail with the
    invalid-address error. *)
Theorem connect_reply_rejections :
  forall (c : Conn) (ver rep rsv : byte) (tail : list byte),
    delivers c ([ver; rep; rsv] ++ tail) ->
    (ver <> 5 \/ rep <> 0 ->
     fst (connectReply c) = Fail (ErrConnectResponse ver rep))
    /\ (ver = 5 -> rep = 0 ->
        forall (atyp : byte) (rest : list byte),
          tail = atyp :: rest ->
          atyp <> 1 -> atyp <> 3 -> atyp <> 4 ->
          fst (connectReply c) = Fail ErrInvalidIP).
Proof.
  intros c ver rep rsv tail D. unfold connectReply.
  destruct (bind_ReadFull c 3 [ver; rep; rsv] tail D eq_refl)
    as [c1 [D1 [W1 [B1 R1]]]].
  rewrite R1. cbn [nth]. split.
  - intros H.
    assert (E : negb (ver =? 5) || negb (rep =? 0) = true).
    { apply orb_true_iff. destruct H as [H|H]; [left|right];
        apply negb_true_iff; apply Z.eqb_neq; exact H. }
    rewrite E. reflexivity.
  - intros -> -> atyp rest -> H1 H3 H4.
    cbn [Z.eqb Pos.eqb negb orb].
    destruct (bind_ReadFull c1 1 [atyp] rest D1 eq_refl)
      as [c2 [D2 [W2 [B2 R2]]]].
    rewrite R2. cbn [nth].
    apply Z.eqb_neq in H1, H3, H4. rewrite H1, H3, H4.
    reflexivity.
Qed.

Lemma connect_reply_rejections_witness :
  fst (connectReply (mkConn [Recv [5]; Recv [2; 0; 1]] [] None))
  = Fail (ErrConnectResponse 5 2)
  /\ fst (connectReply (mkConn [Recv [5; 0]; Recv [0; 9; 9]] [] None))
     = Fail ErrInvalidIP.
Proof.
  split.
  - apply (proj1 (connect_reply_rejections
                    (mkConn [Recv [5]; Recv [2; 0; 1]] [] None) 5 2 0 [1]
                    (conj eq_refl eq_refl))).
    right. intro H. discriminate H.
  - apply (proj2 (connect_reply_rejections
                    (mkConn [Recv [5; 0]; Recv [0; 9; 9]] [] None) 5 0 0 [9; 9]
                    (conj eq_refl eq_refl)) eq_refl eq_refl 9 [9] eq_refl).
    + intro H. discriminate H.
    + intro H. discriminate H.
    + intro H. discriminate H.
Defined.

(** *** The order of the writes *)

Lemma quiet_bind {A B : Type} (m : T A) (k : A -> T B) :
  quiet m -> (forall a, quiet (k a)) -> quiet (bind m k).
Proof.
  intros Hm Hk c. unfold bind. specialize (Hm c).
  destruct (m c) as [[a|e|] c1]; cbn [snd] in *; try exact Hm.
  destruct (Hk a c1) as [Wk Bk]. destruct Hm as [Wm Bm].
  split; congruence.
Qed.

Lemma quiet_ret {A : Type} (a : A) : quiet (@ret Conn A a).
Proof. intros c. split; reflexivity. Qed.

Lemma quiet_fail {A : Type} (e : error) : quiet (@fail Conn A e).
Proof. intros c. split; reflexivity. Qed.

Lemma quiet_Read (buf : list byte) : quiet (Read buf).
Proof.
  intros c. unfold Read.
  destruct (incoming c) as [|[bs|e] rest]; split; reflexivity.
Qed.

Lemma quiet_ReadFull (n : nat) : quiet (ReadFull n).
Proof.
  intros c. unfold ReadFull.
  destruct (readFull (incoming c) n []); split; reflexivity.
Qed.

Lemma quiet_connectReply : quiet connectReply.
Proof.
  unfold connectReply.
  apply quiet_bind; [apply quiet_ReadFull|]. intros buf.
  destruct (negb (nth 0 buf 0 =? 5) || negb (nth 1 buf 0 =? 0));
    [apply quiet_fail|].
  apply quiet_bind; [apply quiet_ReadFull|]. intros buf1.
  apply quiet_bind.
  { destruct (nth 0 buf1 0 =? 1); [apply quiet_ret|].
    destruct (nth 0 buf1 0 =? 4); [apply quiet_ret|].
    destruct (nth 0 buf1 0 =? 3); [|apply quiet_fail].
    apply quiet_bind; [apply quiet_ReadFull|]. intros buf2.
    apply quiet_ret. }
  intros addrLen.
  apply quiet_bind; [apply quiet_ReadFull|]. intros _.
  apply quiet_bind; [apply quiet_ReadFull|]. intros _.
  apply quiet_ret.
Qed.

(** A write adds its buffer to the written ones, or fails and adds
    nothing. *)
Lemma Write_cases (buf : list byte) (c : Conn) :
  (exists e, Write buf c = (Fail e, c))
  \/ (exists c', Write buf c = (Ok tt, c')
                 /\ written c' = written c ++ [buf]).
Proof.
  unfold Write. destruct (wbudget c) as [[|n]|].
  - left. eexists. reflexivity.
  - right. eexists. split; reflexivity.
  - right. eexists. split; reflexivity.
Qed.

Lemma authenticate_adds (a : auth) (c : Conn) :
  exists r c',
    authenticate a c = (r, c')
    /\ ((written c' = written c /\ r <> Ok tt)
        \/ written c' = written c ++ [authRequest a]).
Proof.
  unfold authenticate. unfold bind at 1.
  destruct (Write_cases (authRequest a) c) as [[e E]|[c1 [E W]]]; rewrite E.
  - eexists. eexists. split; [reflexivity|].
    left. split; [reflexivity | discriminate].
  - match goal with
    | |- context [bind ?m ?k c1] =>
      assert (Q : quiet (bind m k));
      [ apply quiet_bind; [apply quiet_Read|]; intros buf;
        destruct (negb (nth 0 buf 0 =? 5) && negb (nth 0 buf 0 =? 1));
        [apply quiet_fail | apply quiet_ret]
      | destruct (Q c1) as [Q1 _]; destruct (bind m k c1) as [r c'] ]
    end.
    exists r, c'. split; [reflexivity|]. right.
    cbn [snd] in Q1. congruence.
Qed.

Lemma connect_adds (dominname : string) (ip : Go.IP) (port : Z) (c : Conn) :
  exists r c',
    connect dominname ip port c = (r, c')
    /\ ((written c' = written c /\ r <> Ok tt)
        \/ exists req,
             connectRequest dominname ip port = inr req
             /\ written c' = written c ++ [req]).
Proof.
  unfold connect.
  destruct (connectRequest dominname ip port) as [e|req].
  - eexists. eexists. split; [reflexivity|].
    left. split; [reflexivity | discriminate].
  - unfold bind.
    destruct (Write_cases req c) as [[e E]|[c1 [E W]]]; rewrite E.
    + eexists. eexists. split; [reflexivity|].
      left. split; [reflexivity | discriminate].
    + destruct (quiet_connectReply c1) as [Q1 _].
      destruct (connectReply c1) as [r c'].
      exists r, c'. split; [reflexivity|]. right.
      exists req. split; [reflexivity|].
      cbn [snd] in Q1. congruence.
Qed.

Lemma negotiate_writes (handler : Handler) (c : Conn) :
  exists r c' ws,
    negotiate handler c = (r, c')
    /\ written c' = written c ++ ws
    /\ inOrder handler ws
    /\ (r = Ok tt -> whole handler ws).
Proof.
  unfold negotiate, inOrder, whole, requestOf.
  fold (credentials handler).
  set (g := greeting (credentials handler)).
  set (a := authRequest (credentials handler)).
  destruct (target (rAddr handler)) as [e|[[port ip] dominname]].
  { eexists. eexists. exists []. split; [reflexivity|].
    rewrite app_nil_r.
    split; [reflexivity | split; [auto | discriminate]]. }
  unfold bind at 1.
  destruct (Write_cases g c) as [[e E]|[c1 [E W1]]]; rewrite E.
  { eexists. eexists. exists []. split; [reflexivity|].
    rewrite app_nil_r.
    split; [reflexivity | split; [auto | discriminate]]. }
  unfold bind at 1.
  pose proof (quiet_Read g c1) as [Q1 _].
  destruct (Read g c1) as [[buf|e|] c2]; cbn [snd] in Q1;
    try (eexists; eexists; exists [g]; split; [reflexivity|];
         rewrite Q1, W1;
         split; [reflexivity | split; [auto | discriminate]]).
  destruct (negb (nth 0 buf 0 =? 5)
            || negb (nth 1 buf 0 =? 0) && negb (nth 1 buf 0 =? 2)).
  { eexists. eexists. exists [g]. split; [reflexivity|].
    rewrite Q1, W1.
    split; [reflexivity | split; [auto | discriminate]]. }
  assert (W2 : written c2 = written c ++ [g]) by congruence.
  clear E Q1 W1 c1.
  unfold bind at 1.
  destruct (nth 1 buf 0 =? 2).
  - destruct (authenticate_adds (credentials handler) c2)
      as [ra [c3 [Ea HA]]].
    fold a in HA. rewrite Ea.
    destruct ra as [[]|e|].
    + destruct HA as [[_ HA]|W3]; [exfalso; exact (HA eq_refl)|].
      destruct (connect_adds dominname ip port c3) as [r [c4 [Ec HC]]].
      exists r, c4.
      destruct HC as [[W4 HC]|[req [Er W4]]].
      * exists [g; a]. split; [exact Ec|].
        rewrite W4, W3, W2, <- app_assoc.
        split; [reflexivity|]. split; [auto|].
        intros ->. exfalso. exact (HC eq_refl).
      * exists [g; a; req]. split; [exact Ec|].
        rewrite W4, W3, W2, <- !app_assoc.
        split; [reflexivity|]. rewrite Er.
        split; [do 3 right|intros _]; exists req; auto.
    + eexists. eexists.
      destruct HA as [[W3 _]|W3].
      * exists [g]. split; [reflexivity|]. rewrite W3, W2.
        split; [reflexivity | split; [auto | discriminate]].
      * exists [g; a]. split; [reflexivity|].
        rewrite W3, W2, <- app_assoc.
        split; [reflexivity | split; [auto | discriminate]].
    + eexists. eexists.
      destruct HA as [[W3 _]|W3].
      * exists [g]. split; [reflexivity|]. rewrite W3, W2.
        split; [reflexivity | split; [auto | discriminate]].
      * exists [g; a]. split; [reflexivity|].
        rewrite W3, W2, <- app_assoc.
        split; [reflexivity | split; [auto | discriminate]].
  - cbn [ret].
    destruct (connect_adds dominname ip port c2) as [r [c4 [Ec HC]]].
    exists r, c4.
    destruct HC as [[W4 HC]|[req [Er W4]]].
    + exists [g]. split; [exact Ec|]. rewrite W4, W2.
      split; [reflexivity|]. split; [auto|].
      intros ->. exfalso. exact (HC eq_refl).
    + exists [g; req]. split; [exact Ec|].
      rewrite W4, W2, <- app_assoc.
      split; [reflexivity|]. rewrite Er.
      split; [do 3 right|intros _]; exists req; auto.
Qed.

(** X14: whatever the proxy server sends and whenever a read or a
    write fails, the buffers Tunnel writes are, in this order, the
    hand-shake request, then the auth request if it gets that far, then
    the connect request if it gets that far, and nothing else; and when
    Tunnel returns nil, the connect request is among them. *)
Theorem tunnel_writes_in_protocol_order :
  forall (handler : Handler) (c c' : Conn) (r : res unit),
    Tunnel handler (inr c) = (r, Some c') ->
    exists ws,
      written c' = written c ++ ws
      /\ inOrder handler ws
      /\ (r = Ok tt -> whole handler ws).
Proof.
  intros handler c c' r H. unfold Tunnel, runOn in H.
  destruct (negotiate_writes handler c) as [r0 [c0 [ws [E [W [I O]]]]]].
  rewrite E in H. cbn [fst snd] in H. injection H as <- <-.
  exists ws. auto.
Qed.

Lemma tunnel_writes_in_protocol_order_witness :
  exists ws,
    [[5; 2; 0; 2];
     [1; 4; 117; 115; 101; 114; 6; 115; 101; 99; 114; 101; 116]]
    = [] ++ ws
    /\ inOrder handler_auth ws
    /\ (Fail (ErrAuthResponse 0) = Ok tt -> whole handler_auth ws).
Proof.
  apply (tunnel_writes_in_protocol_order handler_auth (server_auth 0)
           (mkConn [connectOk]
              [[5; 2; 0; 2];
               [1; 4; 117; 115; 101; 114; 6; 115; 101; 99; 114; 101; 116]]
              None)
           (Fail (ErrAuthResponse 0))).
  reflexivity.
Defined.

(** *** The whole exchange *)

Lemma requestOf_some (handler : Handler) (req : list byte) :
  requestOf handler = Some req ->
  exists port ip dominname,
    target (rAddr handler) = inr (port, ip, dominname)
    /\ connectRequest dominname ip port = inr req.
Proof.
  unfold requestOf.
  destruct (target (rAddr handler)) as [e|[[port ip] dominname]];
    [discriminate|].
  destruct (connectRequest dominname ip port) as [e|r] eqn:E;
    [discriminate|].
  intros H. injection H as ->. exists port, ip, dominname. auto.
Qed.

(** X17: with a proxy server that selects no-auth in one read and then
    sends a well-formed connect response, split into reads in any way,
    Tunnel returns nil for every target whose connect request can be
    built; it has then written the hand-shake request and the connect
    request, nothing else, and has read the response to its end. *)
Theorem tunnel_established_no_auth :
  forall (handler : Handler) (c : Conn) (req : list byte) (inc : list chunk)
         (rsv atyp p1 p2 : byte) (addr tail : list byte),
    requestOf handler = Some req ->
    canWrite 2 c ->
    incoming c = Recv [5; 0] :: inc ->
    allRecv inc = true ->
    flat inc = [5; 0; rsv; atyp] ++ addr ++ [p1; p2] ++ tail ->
    boundAddr atyp addr ->
    exists c',
      Tunnel handler (inr c) = (Ok tt, Some c')
      /\ written c' = written c ++ [greeting (credentials handler); req]
      /\ delivers c' tail.
Proof.
  intros handler c req inc rsv atyp p1 p2 addr tail Hr Hw Hi Ha Hf HB.
  destruct (requestOf_some handler req Hr) as [port [ip [dominname [Ht Hc]]]].
  destruct (canWrite_afterGreeting handler c inc Hw) as [Hw1 Hw2].
  assert (N : exists c',
             negotiate handler c = (Ok tt, c')
             /\ written c' = written c ++ [greeting (credentials handler); req]
             /\ delivers c' tail).
  { rewrite (negotiate_after_reply handler c 5 0 inc port ip dominname
               Ht Hw1 Hi).
    cbn [Z.eqb Pos.eqb negb orb andb].
    unfold bind at 1. cbn [ret]. unfold connect. rewrite Hc.
    unfold bind. rewrite (Write_ok req _ Hw2).
    match goal with
    | |- context [connectReply ?c2] =>
      destruct (connectReply_delivers c2 rsv atyp p1 p2 addr tail) as
        [c' [E [W [B D]]]]; [split; assumption | exact HB |]
    end.
    rewrite E. exists c'.
    split; [reflexivity|]. split; [|exact D].
    rewrite W. cbn [written afterGreeting]. rewrite <- app_assoc.
    reflexivity. }
  destruct N as [c' [E [W D]]].
  exists c'. unfold Tunnel, runOn. rewrite E. auto.
Qed.

Lemma tunnel_established_no_auth_witness :
  exists c',
    Tunnel handler_domain
      (inr (mkConn (Recv [5; 0] :: reply_in_pieces) [] None))
    = (Ok tt, Some c')
    /\ written c'
       = [] ++ [[5; 1; 0];
                [5; 1; 0; 3; 11; 101; 120; 97; 109; 112; 108; 101; 46; 111;
                 114; 103; 1; 187]]
    /\ delivers c' [7; 7].
Proof.
  apply (tunnel_established_no_auth handler_domain
           (mkConn (Recv [5; 0] :: reply_in_pieces) [] None)
           [5; 1; 0; 3; 11; 101; 120; 97; 109; 112; 108; 101; 46; 111;
            114; 103; 1; 187]
           reply_in_pieces 0 3 1 187 [2; 104; 105] [7; 7]).
  - reflexivity.
  - exact I.
  - reflexivity.
  - reflexivity.
  - reflexivity.
  - right. right. split; [reflexivity|].
    exists 2, [104; 105]. split; reflexivity.
Defined.

(** X18: a method-selection reply cut to its first byte.  When the
    read after the hand-shake request brings one byte, 5, the method
    Tunnel tests is the second byte of its own request, still in the
    buffer: with user name and password both set that byte is 2, and
    Tunnel goes on to the auth sub-negotiation as if the server had
    selected it; otherwise it is 1, and Tunnel fails, reporting method
    1. *)
Theorem short_method_reply_uses_stale_byte :
  forall (handler : Handler) (c : Conn) (rest : list chunk)
         (port : Z) (ip : Go.IP) (dominname : string),
    target (rAddr handler) = inr (port, ip, dominname) ->
    canWrite 1 c ->
    incoming c = Recv [5] :: rest ->
    (UserName (proxy handler) <> EmptyString ->
     Password (proxy handler) <> EmptyString ->
     Tunnel handler (inr c)
     = runOn (authenticate (credentials handler) ;;
              connect dominname ip port)
             (afterGreeting handler c rest))
    /\ (UserName (proxy handler) = EmptyString
        \/ Password (proxy handler) = EmptyString ->
        Tunnel handler (inr c)
        = (Fail (ErrSock5ProtoInvalid 5 1),
           Some (afterGreeting handler c rest))).
Proof.
  intros handler c rest port ip dominname Ht Hw Hi.
  assert (N : forall b : bool,
             nonempty (UserName (proxy handler))
             && nonempty (Password (proxy handler)) = b ->
             negotiate handler c
             = (if b
                then (authenticate (credentials handler) ;;
                      connect dominname ip port)
                else fail (ErrSock5ProtoInvalid 5 1))
                 (afterGreeting handler c rest)).
  { intros b Hb. unfold negotiate. rewrite Ht.
    fold (credentials handler).
    unfold bind at 1. rewrite (Write_ok _ c Hw).
    unfold bind at 1. unfold Read at 1. cbn [incoming]. rewrite Hi.
    unfold afterGreeting, greeting.
    cbn [credentials user password]. rewrite Hb.
    destruct b; reflexivity. }
  unfold Tunnel, runOn. split.
  - intros Hu Hp. rewrite (N true); [reflexivity|].
    unfold nonempty. apply String.eqb_neq in Hu, Hp. rewrite Hu, Hp.
    reflexivity.
  - intros H. rewrite (N false); [reflexivity|].
    unfold nonempty.
    destruct H as [H|H]; rewrite H; cbn [String.eqb negb andb];
      [reflexivity | apply andb_false_r].
Qed.

Lemma short_method_reply_uses_stale_byte_witness :
  Tunnel handler_auth (inr (mkConn [Recv [5]; Recv [1; 0]; connectOk] [] None))
  = (Ok tt,
     Some (mkConn []
             [[5; 2; 0; 2];
              [1; 4; 117; 115; 101; 114; 6; 115; 101; 99; 114; 101; 116];
              [5; 1; 0; 1; 1; 2; 3; 4; 0; 80]] None))
  /\ Tunnel handler_tcp443 (inr (mkConn [Recv [5]; connectOk] [] None))
     = (Fail (ErrSock5ProtoInvalid 5 1),
        Some (mkConn [connectOk] [[5; 1; 0]] None)).
Proof.
  split.
  - rewrite (proj1 (short_method_reply_uses_stale_byte handler_auth
                      (mkConn [Recv [5]; Recv [1; 0]; connectOk] [] None)
                      [Recv [1; 0]; connectOk] 0 [1; 2; 3; 4] EmptyString
                      eq_refl I eq_refl)).
    + reflexivity.
    + intro H. discriminate H.
    + intro H. discriminate H.
  - apply (proj2 (short_method_reply_uses_stale_byte handler_tcp443
                    (mkConn [Recv [5]; connectOk] [] None)
                    [connectOk] 0 [1; 2; 3; 4] EmptyString
                    eq_refl I eq_refl)).
    left. reflexivity.
Defined.

(** ** Iptables *)

(** *** The lines of a chain and of a table *)

Lemma lines_length (chain : string) (l : list Iptables.containRule.t) :
  forall (index : Z) (result : list string),
    List.length (Iptables.ChainRule.lines chain l index result)
    = (List.length result + List.length l)%nat.
Proof.
  induction l as [|contain rest IH]; intros index result;
    cbn [Iptables.ChainRule.lines List.length].
  - lia.
  - rewrite IH, length_app. cbn [List.length]. lia.
Qed.

Lemma lines_app (chain : string) (l : list Iptables.containRule.t) :
  forall (index : Z) (result : list string),
    Iptables.ChainRule.lines chain l index result
    = result ++ Iptables.ChainRule.lines chain l index [].
Proof.
  induction l as [|c rest IH]; intros index result;
    cbn [Iptables.ChainRule.lines].
  - rewrite app_nil_r. reflexivity.
  - rewrite IH. cbn [app]. rewrite (IH _ [_]), <- app_assoc. reflexivity.
Qed.

Lemma lines_nth (chain : string) (l : list Iptables.containRule.t) :
  forall (i0 k : nat) (contain : Iptables.containRule.t),
    nth_error l k = Some contain ->
    nth_error (Iptables.ChainRule.lines chain l (Z.of_nat i0) []) k
    = Some (chainLine chain (i0 + k) contain).
Proof.
  induction l as [|c rest IH]; intros i0 k contain H.
  - destruct k; discriminate H.
  - cbn [Iptables.ChainRule.lines]. rewrite lines_app. cbn [app].
    destruct k as [|k]; cbn [nth_error] in *.
    + injection H as ->. rewrite Nat.add_0_r. reflexivity.
    + replace (Z.of_nat i0 + 1) with (Z.of_nat (S i0)) by lia.
      replace (i0 + S k)%nat with (S i0 + k)%nat by lia.
      apply IH. exact H.
Qed.

(** X19: [ChainRule.StringSl] returns one line per rule, in the order
    of the rules; line [i], counted from 0, is made of the words -I,
    the chain's name, the decimal of [i] and the words of rule [i],
    joined by single spaces. *)
Theorem chain_lines :
  forall c : Iptables.ChainRule.t,
    List.length (Iptables.ChainRule.StringSl c)
    = List.length (Iptables.items (Iptables.ChainRule.containSl c))
    /\ forall (i : nat) (contain : Iptables.containRule.t),
        nth_error (Iptables.items (Iptables.ChainRule.containSl c)) i
        = Some contain ->
        nth_error (Iptables.ChainRule.StringSl c) i
        = Some (chainLine (Iptables.ChainRule.chain c) i contain).
Proof.
  intros c. unfold Iptables.ChainRule.StringSl. split.
  - rewrite lines_length. reflexivity.
  - intros i contain H.
    apply (lines_nth (Iptables.ChainRule.chain c) _ 0 i contain H).
Qed.

Lemma chain_lines_witness :
  nth_error (Iptables.ChainRule.StringSl chain_output) 1
  = Some "-I OUTPUT 1 -j DROP"%string.
Proof.
  apply (proj2 (chain_lines chain_output) 1%nat rule_drop).
  reflexivity.
Defined.

Lemma tableLines_spec (rs : list string) :
  forall (entry result : list string),
    Iptables.tableLines rs entry result
    = result
      ++ map (fun j => Iptables.Join (entry ++ firstn (S j) rs) " ")
             (seq 0 (List.length rs)).
Proof.
  induction rs as [|r rest IH]; intros entry result;
    cbn [Iptables.tableLines List.length seq map].
  - rewrite app_nil_r. reflexivity.
  - rewrite IH, <- app_assoc. cbn [app firstn]. do 2 f_equal.
    rewrite <- seq_shift, map_map.
    apply map_ext. intros j. cbn [firstn].
    rewrite <- app_assoc. reflexivity.
Qed.

(** X20: the lines of a table accumulate within a chain.  For every
    table and every order in which the map gives its chains,
    [TableRule.StringSl] returns, chain after chain, for a chain with
    the lines l0, l1, ... the lines "-t table l0", "-t table l0 l1",
    ...: line [j] of the chain carries the lines 0 to [j], not line
    [j] alone. *)
Theorem table_lines_accumulate :
  forall (t : Iptables.TableRule) (w : Iptables.World)
         (cs : list Iptables.ChainRule.t),
    Forall2 (fun e c => nth_error (Iptables.heap w) (snd e) = Some c)
            (Iptables.chains t) cs ->
    Iptables.TableRule_StringSl t w
    = Ret (flat_map (tableBlock (Iptables.table t)) cs).
Proof.
  intros t w cs H. unfold Iptables.TableRule_StringSl.
  assert (G : forall (es : list (string * Iptables.ptr)) cs' acc,
             Forall2 (fun e c => nth_error (Iptables.heap w) (snd e) = Some c)
                     es cs' ->
             fold_left
               (fun acc e =>
                  result <~ acc;
                  match nth_error (Iptables.heap w) (snd e) with
                  | None => Panic
                  | Some c =>
                    Ret (Iptables.tableLines (Iptables.ChainRule.StringSl c)
                           ["-t"%string; Iptables.table t] result)
                  end) es (Ret acc)
             = Ret (acc ++ flat_map (tableBlock (Iptables.table t)) cs')).
  { intros es cs' acc F. revert acc.
    induction F as [|e c es cs' Hc F IH]; intros acc.
    - cbn. rewrite app_nil_r. reflexivity.
    - cbn [fold_left obind flat_map]. rewrite Hc, tableLines_spec.
      rewrite IH, <- app_assoc. reflexivity. }
  apply (G _ cs [] H).
Qed.

Lemma table_lines_accumulate_witness :
  Iptables.TableRule_StringSl table_mangle world_ok
  = Ret ["-t mangle -I OUTPUT 0 -j ACCEPT -s 10.0.0.1 -m mark --mark 1"%string;
         "-t mangle -I OUTPUT 0 -j ACCEPT -s 10.0.0.1 -m mark --mark 1 -I OUTPUT 1 -j DROP"%string].
Proof.
  apply (table_lines_accumulate table_mangle world_ok
           [chain_output; chain_input]).
  repeat constructor.
Defined.

(** *** Validity of a rule *)

Lemma DeepEqual_eq (a b : Iptables.containRule.t) :
  Iptables.containRule.DeepEqual a b = true <-> a = b.
Proof.
  unfold Iptables.containRule.DeepEqual.
  destruct (Iptables.containRule.eq_dec a b); split; intro H;
    congruence.
Qed.

Lemma valid_iff (c : Iptables.ChainRule.t) (index : Z)
    (contain : Iptables.containRule.t) :
  Iptables.ChainRule.valid c index contain = true
  <-> index
      <= Z.of_nat (List.length (Iptables.items (Iptables.ChainRule.containSl c)))
      /\ ~ In contain (Iptables.items (Iptables.ChainRule.containSl c)).
Proof.
  unfold Iptables.ChainRule.valid.
  destruct (Z.ltb_spec
              (Z.of_nat (List.length
                           (Iptables.items (Iptables.ChainRule.containSl c))))
              index) as [L|L].
  - split; [intro H; discriminate H | intros [H _]; lia].
  - destruct (existsb (fun elem => Iptables.containRule.DeepEqual elem contain)
                (Iptables.items (Iptables.ChainRule.containSl c))) eqn:E.
    + split; [intro H; discriminate H|].
      intros [_ H]. exfalso. apply H.
      apply existsb_exists in E. destruct E as [x [Hx Hd]].
      apply DeepEqual_eq in Hd. subst x. exact Hx.
    + split; [|reflexivity]. intros _. split; [exact L|].
      intros Hin.
      assert (E' : existsb
                     (fun elem => Iptables.containRule.DeepEqual elem contain)
                     (Iptables.items (Iptables.ChainRule.containSl c)) = true).
      { apply existsb_exists. exists contain. split; [exact Hin|].
        apply DeepEqual_eq. reflexivity. }
      congruence.
Qed.

(** X21: [ChainRule.valid] accepts a rule at an index exactly when the
    index is at most the number of the chain's rules (a negative index
    is accepted) and no rule of the chain is deeply equal to it. *)
Theorem valid_exactly :
  forall (c : Iptables.ChainRule.t) (index : Z)
         (contain : Iptables.containRule.t),
    Iptables.ChainRule.valid c index contain = true
    <-> index
        <= Z.of_nat
             (List.length (Iptables.items (Iptables.ChainRule.containSl c)))
        /\ ~ In contain (Iptables.items (Iptables.ChainRule.containSl c)).
Proof. exact valid_iff. Qed.

Lemma valid_exactly_witness :
  Iptables.ChainRule.valid chain_output (-1)
    (Iptables.containRule.mk "DROP" (Some []) None) = true.
Proof.
  apply (proj2 (valid_exactly chain_output (-1)
                  (Iptables.containRule.mk "DROP" (Some []) None))).
  split.
  - vm_compute. intro H. discriminate H.
  - intros [H|[H|[]]]; discriminate H.
Defined.

(** *** Chains in the heap *)

Lemma setChain_length (p : Iptables.ptr) (c : Iptables.ChainRule.t)
    (w : Iptables.World) :
  (p < List.length (Iptables.heap w))%nat ->
  List.length (Iptables.heap (Iptables.setChain p c w))
  = List.length (Iptables.heap w).
Proof.
  intros H. unfold Iptables.setChain. cbn [Iptables.heap].
  rewrite length_app, length_firstn. cbn [List.length].
  rewrite length_skipn. lia.
Qed.

Lemma setChain_same (p : Iptables.ptr) (c : Iptables.ChainRule.t)
    (w : Iptables.World) :
  (p < List.length (Iptables.heap w))%nat ->
  nth_error (Iptables.heap (Iptables.setChain p c w)) p = Some c.
Proof.
  intros H. unfold Iptables.setChain. cbn [Iptables.heap].
  rewrite nth_error_app2 by (rewrite length_firstn; lia).
  rewrite length_firstn.
  replace (p - Nat.min p (List.length (Iptables.heap w)))%nat with 0%nat
    by lia.
  reflexivity.
Qed.

Lemma setChain_other (p q : Iptables.ptr) (c : Iptables.ChainRule.t)
    (w : Iptables.World) :
  (p < List.length (Iptables.heap w))%nat ->
  q <> p ->
  nth_error (Iptables.heap (Iptables.setChain p c w)) q
  = nth_error (Iptables.heap w) q.
Proof.
  intros H Hq. unfold Iptables.setChain. cbn [Iptables.heap].
  destruct (Nat.lt_ge_cases q p) as [L|L].
  - rewrite nth_error_app1 by (rewrite length_firstn; lia).
    rewrite nth_error_firstn.
    destruct (Nat.ltb_spec q p); [reflexivity | lia].
  - rewrite nth_error_app2 by (rewrite length_firstn; lia).
    rewrite length_firstn.
    replace (q - Nat.min p (List.length (Iptables.heap w)))%nat
      with (S (q - S p)) by lia.
    cbn [nth_error]. rewrite nth_error_skipn. f_equal. lia.
Qed.

Lemma nth_error_lt {A : Type} (l : list A) (n : nat) (a : A) :
  nth_error l n = Some a -> (n < List.length l)%nat.
Proof. intros H. apply nth_error_Some. congruence. Qed.

Section InsertRule.

Variable MegaInsert :
  Iptables.rules Iptables.containRule.t -> Iptables.containRule.t -> Z ->
  option (Iptables.rules Iptables.containRule.t) * bool * option Z.

(** What [ChainRule.insert] may change: the rules of the chain at [p]. *)
Lemma insert_frame (p : Iptables.ptr) (index : Z) (action : string)
    (base : Iptables.rules Iptables.BaseRule.t)
    (extends : Iptables.rules Iptables.ExtendsRule.t)
    (w w' : Iptables.World) (err : option Iptables.error)
    (c : Iptables.ChainRule.t) :
  nth_error (Iptables.heap w) p = Some c ->
  Iptables.insert MegaInsert p index action base extends w = Ret (err, w') ->
  Iptables.executed w' = Iptables.executed w
  /\ List.length (Iptables.heap w') = List.length (Iptables.heap w)
  /\ (forall q, q <> p ->
                nth_error (Iptables.heap w') q = nth_error (Iptables.heap w) q)
  /\ exists c', nth_error (Iptables.heap w') p = Some c' /\ sameButRules c' c.
Proof.
  intros Hc. unfold Iptables.insert. rewrite Hc.
  pose proof (nth_error_lt _ _ _ Hc) as Hp.
  assert (Same : Iptables.executed w = Iptables.executed w
                 /\ List.length (Iptables.heap w) = List.length (Iptables.heap w)
                 /\ (forall q, q <> p ->
                               nth_error (Iptables.heap w) q
                               = nth_error (Iptables.heap w) q)
                 /\ exists c', nth_error (Iptables.heap w) p = Some c'
                               /\ sameButRules c' c).
  { repeat split. exists c. repeat split. exact Hc. }
  destruct (MegaInsert (Iptables.ChainRule.containSl c)
              (Iptables.containRule.mk action base extends) index)
    as [[ifc update] [code|]].
  - intros H. injection H as <- <-. exact Same.
  - destruct update; cbn [negb].
    + destruct ifc as [temp|]; intros H; injection H as <- <-;
        [|exact Same].
      split; [reflexivity|].
      split; [apply setChain_length; exact Hp|].
      split; [intros q Hq; apply setChain_other; assumption|].
      eexists. split; [apply setChain_same; exact Hp|].
      repeat split.
    + intros H. injection H as <- <-. exact Same.
Qed.

(** X22: [InsertRule] without a command.  On a chain the table does
    not hold it returns the chain-not-exist error; for a rule that is
    not valid at the index (the chain holds it already, or the index
    is beyond the chain's end) it returns nil, as if it had succeeded.
    In both cases no iptables command is run and no chain changes. *)
Theorem insert_rule_without_command :
  forall (t : Iptables.TableRule) (chain : string) (index : Z)
         (action : string) (base : Iptables.rules Iptables.BaseRule.t)
         (extends : Iptables.rules Iptables.ExtendsRule.t)
         (w : Iptables.World),
    (Iptables.lookup chain t = None ->
     Iptables.InsertRule MegaInsert t chain index action base extends w
     = Ret (Some Iptables.ErrChainNotExist, t, w))
    /\ (forall (p : Iptables.ptr) (rule : Iptables.ChainRule.t),
           Iptables.lookup chain t = Some p ->
           nth_error (Iptables.heap w) p = Some rule ->
           Iptables.ChainRule.valid rule index
             (Iptables.containRule.mk action base extends) = false ->
           Iptables.InsertRule MegaInsert t chain index action base extends w
           = Ret (None, t, w)).
Proof.
  intros t chain index action base extends w.
  unfold Iptables.InsertRule. split.
  - intros ->. reflexivity.
  - intros p rule -> -> ->. reflexivity.
Qed.

(** X23: when iptables fails on the command of [InsertRule], the
    error is returned and the chains are as before: the rule is
    recorded only after iptables took it.  The command run is the
    insert into the chain at the index plus one. *)
Theorem insert_rule_command_failure :
  forall (t : Iptables.TableRule) (chain : string) (index : Z)
         (action : string) (base : Iptables.rules Iptables.BaseRule.t)
         (extends : Iptables.rules Iptables.ExtendsRule.t)
         (w : Iptables.World) (p : Iptables.ptr)
         (rule : Iptables.ChainRule.t) (code : Z),
    Iptables.lookup chain t = Some p ->
    nth_error (Iptables.heap w) p = Some rule ->
    Iptables.ChainRule.valid rule index
      (Iptables.containRule.mk action base extends) = true ->
    Iptables.refuses w (insertCommand t chain index action base extends)
    = Some code ->
    Iptables.InsertRule MegaInsert t chain index action base extends w
    = Ret (Some (Iptables.ErrCommand code), t,
           {| Iptables.heap := Iptables.heap w;
              Iptables.executed :=
                Iptables.executed w
                ++ [insertCommand t chain index action base extends];
              Iptables.refuses := Iptables.refuses w |}).
Proof.
  intros t chain index action base extends w p rule code Hl Hn Hv Hr.
  unfold Iptables.InsertRule. rewrite Hl, Hn, Hv. cbn [negb].
  unfold Iptables.CombinedOutput. fold (insertCommand t chain index action base extends).
  rewrite Hr. reflexivity.
Qed.

(** What [InsertRule] may change. *)
Lemma InsertRule_frame :
  forall (t t' : Iptables.TableRule) (chain : string) (index : Z)
         (action : string) (base : Iptables.rules Iptables.BaseRule.t)
         (extends : Iptables.rules Iptables.ExtendsRule.t)
         (w w' : Iptables.World) (err : option Iptables.error),
    Iptables.InsertRule MegaInsert t chain index action base extends w
    = Ret (err, t', w') ->
    t' = t
    /\ (Iptables.executed w' = Iptables.executed w
        \/ Iptables.executed w'
           = Iptables.executed w
             ++ [insertCommand t chain index action base extends])
    /\ List.length (Iptables.heap w') = List.length (Iptables.heap w)
    /\ (forall q, Iptables.lookup chain t <> Some q ->
                  nth_error (Iptables.heap w') q
                  = nth_error (Iptables.heap w) q)
    /\ (forall p c, Iptables.lookup chain t = Some p ->
                    nth_error (Iptables.heap w) p = Some c ->
                    exists c', nth_error (Iptables.heap w') p = Some c'
                               /\ sameButRules c' c).
Proof.
  intros t t' chain index action base extends w w' err.
  unfold Iptables.InsertRule.
  assert (Same : forall c0 p0,
             nth_error (Iptables.heap w) p0 = Some c0 ->
             t = t
             /\ (Iptables.executed w = Iptables.executed w
                 \/ Iptables.executed w
                    = Iptables.executed w
                      ++ [insertCommand t chain index action base extends])
             /\ List.length (Iptables.heap w) = List.length (Iptables.heap w)
             /\ (forall q, Some p0 <> Some q ->
                           nth_error (Iptables.heap w) q
                           = nth_error (Iptables.heap w) q)
             /\ (forall p c, Some p0 = Some p ->
                             nth_error (Iptables.heap w) p = Some c ->
                             exists c', nth_error (Iptables.heap w) p = Some c'
                                        /\ sameButRules c' c)).
  { intros c0 p0 H0. repeat split; auto.
    intros p c _ Hc. exists c. repeat split. exact Hc. }
  destruct (Iptables.lookup chain t) as [p|].
  2: { intros H. injection H as <- <- <-. repeat split; auto.
       intros p c H. discriminate H. }
  destruct (nth_error (Iptables.heap w) p) as [rule|] eqn:Hn;
    [|intros H; discriminate H].
  destruct (Iptables.ChainRule.valid rule index
              (Iptables.containRule.mk action base extends)); cbn [negb].
  2: { intros H. injection H as <- <- <-. apply (Same rule p Hn). }
  unfold Iptables.CombinedOutput.
  fold (insertCommand t chain index action base extends).
  destruct (Iptables.refuses w
              (insertCommand t chain index action base extends)).
  { intros H. injection H as <- <- <-. cbn [Iptables.heap Iptables.executed].
    repeat split; auto.
    intros p0 c H0 Hc. exists c. repeat split. exact Hc. }
  match goal with
  | |- context [Iptables.insert _ _ _ _ _ _ ?w1] =>
    destruct (Iptables.insert MegaInsert p index action base extends w1)
      as [[err1 w2]|] eqn:Ei; [|intros H; discriminate H];
    destruct (insert_frame p index action base extends w1 w2 err1 rule Hn Ei)
      as [He [Hlen [Ho Hs]]]
  end.
  intros H. injection H as <- <- <-.
  cbn [Iptables.heap Iptables.executed] in *.
  split; [reflexivity|]. split; [right; exact He|].
  split; [exact Hlen|]. split.
  - intros q Hq. apply Ho. congruence.
  - intros p0 c H0 Hc. injection H0 as <-.
    rewrite Hn in Hc. injection Hc as <-. exact Hs.
Qed.

(** X24: whatever [com.MegaInsert] does, [InsertRule] leaves the table's
    map as it is, runs at most one command (the insert into the chain at the index plus one), and
    changes at most the rules of the one chain: every other chain is
    as before, and that chain keeps its name, its parent and its
    sons. *)
Theorem insert_rule_frame :
  forall (t t' : Iptables.TableRule) (chain : string) (index : Z)
         (action : string) (base : Iptables.rules Iptables.BaseRule.t)
         (extends : Iptables.rules Iptables.ExtendsRule.t)
         (w w' : Iptables.World) (err : option Iptables.error),
    Iptables.InsertRule MegaInsert t chain index action base extends w
    = Ret (err, t', w') ->
    t' = t
    /\ (Iptables.executed w' = Iptables.executed w
        \/ Iptables.executed w'
           = Iptables.executed w
             ++ [insertCommand t chain index action base extends])
    /\ List.length (Iptables.heap w') = List.length (Iptables.heap w)
    /\ (forall q, Iptables.lookup chain t <> Some q ->
                  nth_error (Iptables.heap w') q
                  = nth_error (Iptables.heap w) q)
    /\ (forall p c, Iptables.lookup chain t = Some p ->
                    nth_error (Iptables.heap w) p = Some c ->
                    exists c', nth_error (Iptables.heap w') p = Some c'
                               /\ sameButRules c' c).
Proof. exact InsertRule_frame. Qed.

End InsertRule.

Lemma insert_rule_without_command_witness :
  Iptables.InsertRule insertFront table_mangle "FORWARD" 0 "DROP" None None
    world_ok
  = Ret (Some Iptables.ErrChainNotExist, table_mangle, world_ok)
  /\ Iptables.InsertRule insertFront table_mangle "OUTPUT" 0 "DROP" None None
       world_ok
     = Ret (None, table_mangle, world_ok).
Proof.
  split.
  - apply (proj1 (insert_rule_without_command insertFront table_mangle
                    "FORWARD" 0 "DROP" None None world_ok)).
    reflexivity.
  - apply (proj2 (insert_rule_without_command insertFront table_mangle
                    "OUTPUT" 0 "DROP" None None world_ok)
             0%nat chain_output).
    + reflexivity.
    + reflexivity.
    + reflexivity.
Defined.

Lemma insert_rule_command_failure_witness :
  Iptables.InsertRule insertFront table_mangle "INPUT" 0 "DROP" None None
    world_refusing
  = Ret (Some (Iptables.ErrCommand 1), table_mangle,
         Iptables.mkWorld [chain_output; chain_input]
           [Iptables.mkRuleCommand "mangle" Iptables.Insert "INPUT" 1 rule_drop]
           (Iptables.refuses world_refusing)).
Proof.
  apply (insert_rule_command_failure insertFront table_mangle "INPUT" 0
           "DROP" None None world_refusing 1%nat chain_input 1).
  - reflexivity.
  - reflexivity.
  - reflexivity.
  - reflexivity.
Defined.

Lemma insert_rule_frame_witness :
  table_mangle = table_mangle
  /\ (Iptables.executed
        (Iptables.mkWorld
           [chain_output;
            Iptables.ChainRule.mk "INPUT" None [] (Some [rule_drop])]
           [Iptables.mkRuleCommand "mangle" Iptables.Insert "INPUT" 1 rule_drop]
           (Iptables.refuses world_ok))
      = Iptables.executed world_ok
      \/ Iptables.executed
           (Iptables.mkWorld
              [chain_output;
               Iptables.ChainRule.mk "INPUT" None [] (Some [rule_drop])]
              [Iptables.mkRuleCommand "mangle" Iptables.Insert "INPUT" 1
                 rule_drop]
              (Iptables.refuses world_ok))
         = Iptables.executed world_ok
           ++ [insertCommand table_mangle "INPUT" 0 "DROP" None None]).
Proof.
  destruct (insert_rule_frame insertFront table_mangle table_mangle "INPUT" 0
              "DROP" None None world_ok
              (Iptables.mkWorld
                 [chain_output;
                  Iptables.ChainRule.mk "INPUT" None [] (Some [rule_drop])]
                 [Iptables.mkRuleCommand "mangle" Iptables.Insert "INPUT" 1
                    rule_drop]
                 (Iptables.refuses world_ok))
              None eq_refl) as [H1 [H2 _]].
  split; [exact H1 | exact H2].
Defined.

(** *** Creating chains *)

Lemma lookup_assign (name : string) (p : Iptables.ptr)
    (t : Iptables.TableRule) :
  Iptables.lookup name (Iptables.assign name p t) = Some p.
Proof.
  unfold Iptables.lookup, Iptables.assign. cbn [Iptables.chains].
  destruct (existsb (fun e => String.eqb (fst e) name) (Iptables.chains t))
    eqn:X.
  - induction (Iptables.chains t) as [|e es IH]; [discriminate X|].
    cbn [existsb] in X. cbn [map find].
    destruct (String.eqb (fst e) name) eqn:E.
    + cbn [fst]. rewrite String.eqb_refl. reflexivity.
    + rewrite E. apply IH. exact X.
  - induction (Iptables.chains t) as [|e es IH]; cbn [app find fst].
    + rewrite String.eqb_refl. reflexivity.
    + cbn [existsb] in X. apply orb_false_iff in X. destruct X as [E X].
      rewrite E. apply IH. exact X.
Qed.

Lemma lookup_assign_other (name other : string) (p : Iptables.ptr)
    (t : Iptables.TableRule) :
  other <> name ->
  Iptables.lookup other (Iptables.assign name p t) = Iptables.lookup other t.
Proof.
  intros Hne. unfold Iptables.lookup, Iptables.assign. cbn [Iptables.chains].
  assert (N : String.eqb name other = false).
  { apply String.eqb_neq. congruence. }
  destruct (existsb (fun e => String.eqb (fst e) name) (Iptables.chains t)).
  - induction (Iptables.chains t) as [|e es IH]; [reflexivity|].
    cbn [map find].
    destruct (String.eqb (fst e) name) eqn:E.
    + cbn [fst]. rewrite N. apply String.eqb_eq in E. rewrite E, N.
      exact IH.
    + destruct (String.eqb (fst e) other); [reflexivity | exact IH].
  - induction (Iptables.chains t) as [|e es IH]; cbn [app find fst].
    + rewrite N. reflexivity.
    + destruct (String.eqb (fst e) other); [reflexivity | exact IH].
Qed.

Section CreateChain.

Variable MegaInsert :
  Iptables.rules Iptables.containRule.t -> Iptables.containRule.t -> Z ->
  option (Iptables.rules Iptables.containRule.t) * bool * option Z.

(** [attach] to a parent that is another chain. *)
Lemma attach_spec (c pp : Iptables.ptr) (w : Iptables.World)
    (cr pr : Iptables.ChainRule.t) :
  nth_error (Iptables.heap w) c = Some cr ->
  nth_error (Iptables.heap w) pp = Some pr ->
  c <> pp ->
  exists w',
    Iptables.attach c (Some pp) w = Ret w'
    /\ nth_error (Iptables.heap w') c
       = Some (Iptables.ChainRule.mk (Iptables.ChainRule.chain cr) (Some pp)
                 (Iptables.ChainRule.sonSl cr)
                 (Iptables.ChainRule.containSl cr))
    /\ nth_error (Iptables.heap w') pp
       = Some (Iptables.ChainRule.mk (Iptables.ChainRule.chain pr)
                 (Iptables.ChainRule.parent pr)
                 (Iptables.ChainRule.sonSl pr ++ [c])
                 (Iptables.ChainRule.containSl pr))
    /\ (forall q, q <> c -> q <> pp ->
                  nth_error (Iptables.heap w') q
                  = nth_error (Iptables.heap w) q)
    /\ List.length (Iptables.heap w') = List.length (Iptables.heap w)
    /\ Iptables.executed w' = Iptables.executed w.
Proof.
  intros Hc Hp Hne.
  pose proof (nth_error_lt _ _ _ Hc) as Lc.
  pose proof (nth_error_lt _ _ _ Hp) as Lp.
  unfold Iptables.attach. rewrite Hc. cbv zeta.
  rewrite (setChain_other c pp _ w Lc) by congruence.
  rewrite Hp.
  eexists. split; [reflexivity|].
  assert (Lp' : (pp < List.length
                        (Iptables.heap
                           (Iptables.setChain c
                              (Iptables.ChainRule.mk
                                 (Iptables.ChainRule.chain cr) (Some pp)
                                 (Iptables.ChainRule.sonSl cr)
                                 (Iptables.ChainRule.containSl cr)) w)))%nat).
  { rewrite setChain_length; assumption. }
  split.
  { rewrite setChain_other by assumption. apply setChain_same. exact Lc. }
  split.
  { apply setChain_same. exact Lp'. }
  split.
  { intros q Hq1 Hq2. rewrite setChain_other by assumption.
    apply setChain_other; assumption. }
  split.
  { rewrite setChain_length by exact Lp'. apply setChain_length. exact Lc. }
  reflexivity.
Qed.

(** [CreateChain] once the parent is found, the bare jump is valid in
    it and iptables made the chain. *)
Lemma CreateChain_step (t : Iptables.TableRule) (parent : string)
    (index : Z) (chain : string) (base : Iptables.rules Iptables.BaseRule.t)
    (extends : Iptables.rules Iptables.ExtendsRule.t) (w : Iptables.World)
    (pp : Iptables.ptr) (parentRule : Iptables.ChainRule.t) :
  Iptables.lookup parent t = Some pp ->
  nth_error (Iptables.heap w) pp = Some parentRule ->
  Iptables.ChainRule.valid parentRule index (bareJump chain) = true ->
  Iptables.refuses w (newCommand t chain) = None ->
  Iptables.CreateChain MegaInsert t parent index chain base extends w
  = match Iptables.InsertRule MegaInsert t parent index chain base extends
            (afterCommand (newCommand t chain) w) with
    | Panic => Panic
    | Ret (Some err, t1, w1) => Ret (Some err, t1, w1)
    | Ret (None, t1, w1) =>
      match Iptables.attach (List.length (Iptables.heap w1)) (Some pp)
              (Iptables.mkWorld
                 (Iptables.heap w1
                  ++ [Iptables.ChainRule.mk chain None [] None])
                 (Iptables.executed w1) (Iptables.refuses w1)) with
      | Panic => Panic
      | Ret w2 =>
        Ret (None, Iptables.assign chain (List.length (Iptables.heap w1)) t1,
             w2)
      end
    end.
Proof.
  intros Hl Hn Hv Hr. unfold Iptables.CreateChain.
  rewrite Hl, Hn. cbv zeta. fold (bareJump chain). rewrite Hv. cbn [negb].
  unfold Iptables.CombinedOutput. fold (newCommand t chain). rewrite Hr.
  reflexivity.
Qed.

(** [InsertRule] of a valid rule that iptables takes. *)
Lemma InsertRule_runs (t : Iptables.TableRule) (chain : string) (index : Z)
    (action : string) (base : Iptables.rules Iptables.BaseRule.t)
    (extends : Iptables.rules Iptables.ExtendsRule.t) (w : Iptables.World)
    (p : Iptables.ptr) (rule : Iptables.ChainRule.t) :
  Iptables.lookup chain t = Some p ->
  nth_error (Iptables.heap w) p = Some rule ->
  Iptables.ChainRule.valid rule index
    (Iptables.containRule.mk action base extends) = true ->
  Iptables.refuses w (insertCommand t chain index action base extends)
  = None ->
  exists err w',
    Iptables.InsertRule MegaInsert t chain index action base extends w
    = Ret (err, t, w')
    /\ Iptables.executed w'
       = Iptables.executed w
         ++ [insertCommand t chain index action base extends].
Proof.
  intros Hl Hn Hv Hr. unfold Iptables.InsertRule.
  rewrite Hl, Hn. cbv zeta. rewrite Hv. cbn [negb].
  unfold Iptables.CombinedOutput.
  fold (insertCommand t chain index action base extends). rewrite Hr.
  fold (afterCommand (insertCommand t chain index action base extends) w).
  destruct (Iptables.insert MegaInsert p index action base extends
              (afterCommand (insertCommand t chain index action base extends)
                 w)) as [[err w']|] eqn:Ei.
  - exists err, w'. split; [reflexivity|].
    destruct (insert_frame MegaInsert p index action base extends
                (afterCommand
                   (insertCommand t chain index action base extends) w)
                w' err rule Hn Ei) as [He _].
    exact He.
  - exfalso. unfold Iptables.insert in Ei.
    change (Iptables.heap
              (afterCommand
                 (insertCommand t chain index action base extends) w))
      with (Iptables.heap w) in Ei.
    rewrite Hn in Ei. cbv zeta in Ei.
    destruct (MegaInsert (Iptables.ChainRule.containSl rule)
                (Iptables.containRule.mk action base extends) index)
      as [[ifc update] [code|]]; [discriminate Ei|].
    destruct update; cbn [negb] in Ei; [|discriminate Ei].
    destruct ifc; discriminate Ei.
Qed.

(** The end of [CreateChain]: the new chain is made and attached. *)
Lemma CreateChain_registers (t : Iptables.TableRule) (parent : string)
    (index : Z) (chain : string) (base : Iptables.rules Iptables.BaseRule.t)
    (extends : Iptables.rules Iptables.ExtendsRule.t) (w w1 : Iptables.World)
    (t1 : Iptables.TableRule) (pp : Iptables.ptr)
    (parentRule : Iptables.ChainRule.t) :
  Iptables.lookup parent t = Some pp ->
  nth_error (Iptables.heap w) pp = Some parentRule ->
  Iptables.ChainRule.valid parentRule index (bareJump chain) = true ->
  Iptables.refuses w (newCommand t chain) = None ->
  Iptables.InsertRule MegaInsert t parent index chain base extends
    (afterCommand (newCommand t chain) w) = Ret (None, t1, w1) ->
  exists (pr : Iptables.ChainRule.t) (w2 : Iptables.World),
    Iptables.CreateChain MegaInsert t parent index chain base extends w
    = Ret (None, Iptables.assign chain (List.length (Iptables.heap w1)) t, w2)
    /\ nth_error (Iptables.heap w1) pp = Some pr
    /\ sameButRules pr parentRule
    /\ nth_error (Iptables.heap w2) (List.length (Iptables.heap w1))
       = Some (Iptables.ChainRule.mk chain (Some pp) [] None)
    /\ nth_error (Iptables.heap w2) pp
       = Some (Iptables.ChainRule.mk (Iptables.ChainRule.chain pr)
                 (Iptables.ChainRule.parent pr)
                 (Iptables.ChainRule.sonSl pr
                  ++ [List.length (Iptables.heap w1)])
                 (Iptables.ChainRule.containSl pr))
    /\ (forall q, q <> pp -> (q < List.length (Iptables.heap w1))%nat ->
                  nth_error (Iptables.heap w2) q
                  = nth_error (Iptables.heap w1) q)
    /\ List.length (Iptables.heap w2) = S (List.length (Iptables.heap w1))
    /\ Iptables.executed w2 = Iptables.executed w1.
Proof.
  intros Hl Hn Hv Hr Hi.
  rewrite (CreateChain_step t parent index chain base extends w pp parentRule
             Hl Hn Hv Hr), Hi.
  destruct (InsertRule_frame MegaInsert _ _ _ _ _ _ _ _ _ _ Hi)
    as [Ht [_ [Hlen [_ Hs]]]].
  subst t1.
  destruct (Hs pp parentRule Hl Hn) as [pr [Hpr Hsame]].
  pose proof (nth_error_lt _ _ _ Hpr) as Lp.
  set (n := List.length (Iptables.heap w1)) in *.
  set (w1' := Iptables.mkWorld
                (Iptables.heap w1
                 ++ [Iptables.ChainRule.mk chain None [] None])
                (Iptables.executed w1) (Iptables.refuses w1)).
  assert (Hc : nth_error (Iptables.heap w1') n
               = Some (Iptables.ChainRule.mk chain None [] None)).
  { cbn [w1' Iptables.heap]. rewrite nth_error_app2 by (unfold n; lia).
    unfold n. rewrite Nat.sub_diag. reflexivity. }
  assert (Hp : nth_error (Iptables.heap w1') pp = Some pr).
  { cbn [w1' Iptables.heap]. rewrite nth_error_app1 by exact Lp.
    exact Hpr. }
  assert (Hne : n <> pp) by lia.
  destruct (attach_spec n pp w1' _ _ Hc Hp Hne)
    as [w2 [Ha [H1 [H2 [H3 [H4 H5]]]]]].
  rewrite Ha. exists pr, w2.
  split; [reflexivity|]. split; [exact Hpr|]. split; [exact Hsame|].
  split; [exact H1|]. split; [exact H2|]. split; [|split; [|exact H5]].
  - intros q Hq1 Hq2. rewrite H3 by lia.
    cbn [w1' Iptables.heap]. apply nth_error_app1. exact Hq2.
  - rewrite H4. cbn [w1' Iptables.heap]. rewrite length_app.
    cbn [List.length]. unfold n. lia.
Qed.

(** X25: what [CreateChain] refuses.  On a parent the table does not
    hold it returns the parent-not-exist error, and where the bare jump
    to the chain is not valid in the parent at the index it returns the
    create-chain-invalid error (where [InsertRule] returns nil), both
    without a command; and when iptables fails on making the chain,
    that error is returned after this one command.  In all three cases
    the table's map and the chains are as before. *)
Theorem create_chain_refusals :
  forall (t : Iptables.TableRule) (parent : string) (index : Z)
         (chain : string) (base : Iptables.rules Iptables.BaseRule.t)
         (extends : Iptables.rules Iptables.ExtendsRule.t)
         (w : Iptables.World),
    (Iptables.lookup parent t = None ->
     Iptables.CreateChain MegaInsert t parent index chain base extends w
     = Ret (Some Iptables.ErrParentNotExist, t, w))
    /\ (forall (pp : Iptables.ptr) (parentRule : Iptables.ChainRule.t),
           Iptables.lookup parent t = Some pp ->
           nth_error (Iptables.heap w) pp = Some parentRule ->
           (Iptables.ChainRule.valid parentRule index (bareJump chain) = false ->
            Iptables.CreateChain MegaInsert t parent index chain base extends w
            = Ret (Some Iptables.ErrCreateChainInvalid, t, w))
           /\ (forall code : Z,
                  Iptables.ChainRule.valid parentRule index (bareJump chain)
                  = true ->
                  Iptables.refuses w (newCommand t chain) = Some code ->
                  Iptables.CreateChain MegaInsert t parent index chain base
                    extends w
                  = Ret (Some (Iptables.ErrCommand code), t,
                         afterCommand (newCommand t chain) w))).
Proof.
  intros t parent index chain base extends w.
  unfold Iptables.CreateChain. split.
  - intros ->. reflexivity.
  - intros pp parentRule -> ->. cbv zeta. fold (bareJump chain). split.
    + intros ->. reflexivity.
    + intros code -> Hr. cbn [negb]. unfold Iptables.CombinedOutput.
      fold (newCommand t chain). rewrite Hr. reflexivity.
Qed.

(** X26: [CreateChain] does not undo the chain it made.  When iptables
    made the chain and then fails on inserting the jump into the
    parent, the error is returned, the chain is not put into the
    table's map and no chain changes; the commands run are the two, and
    none that removes the chain again. *)
Theorem create_chain_no_rollback :
  forall (t : Iptables.TableRule) (parent : string) (index : Z)
         (chain : string) (base : Iptables.rules Iptables.BaseRule.t)
         (extends : Iptables.rules Iptables.ExtendsRule.t)
         (w : Iptables.World) (pp : Iptables.ptr)
         (parentRule : Iptables.ChainRule.t) (code : Z),
    Iptables.lookup parent t = Some pp ->
    nth_error (Iptables.heap w) pp = Some parentRule ->
    Iptables.ChainRule.valid parentRule index (bareJump chain) = true ->
    Iptables.ChainRule.valid parentRule index
      (Iptables.containRule.mk chain base extends) = true ->
    Iptables.refuses w (newCommand t chain) = None ->
    Iptables.refuses w (insertCommand t parent index chain base extends)
    = Some code ->
    Iptables.CreateChain MegaInsert t parent index chain base extends w
    = Ret (Some (Iptables.ErrCommand code), t,
           afterCommand (insertCommand t parent index chain base extends)
             (afterCommand (newCommand t chain) w)).
Proof.
  intros t parent index chain base extends w pp parentRule code
         Hl Hn Hv Hv' Hr Hr'.
  rewrite (CreateChain_step t parent index chain base extends w pp parentRule
             Hl Hn Hv Hr).
  unfold Iptables.InsertRule. rewrite Hl.
  change (Iptables.heap (afterCommand (newCommand t chain) w))
    with (Iptables.heap w).
  rewrite Hn. cbv zeta. rewrite Hv'. cbn [negb].
  unfold Iptables.CombinedOutput.
  fold (insertCommand t parent index chain base extends).
  change (Iptables.refuses (afterCommand (newCommand t chain) w))
    with (Iptables.refuses w).
  rewrite Hr'. reflexivity.
Qed.

(** X27: a [CreateChain] that succeeds.  When the inner [InsertRule]
    returns nil, [CreateChain] returns nil, the name of the chain leads
    to a new chain with no rules and no sons whose parent is the
    parent chain, that chain is the last of the parent's sons, and
    every other chain, the parent's rules and the commands run are as
    [InsertRule] left them. *)
Theorem create_chain_registers :
  forall (t : Iptables.TableRule) (parent : string) (index : Z)
         (chain : string) (base : Iptables.rules Iptables.BaseRule.t)
         (extends : Iptables.rules Iptables.ExtendsRule.t)
         (w w1 : Iptables.World) (t1 : Iptables.TableRule)
         (pp : Iptables.ptr) (parentRule : Iptables.ChainRule.t),
    Iptables.lookup parent t = Some pp ->
    nth_error (Iptables.heap w) pp = Some parentRule ->
    Iptables.ChainRule.valid parentRule index (bareJump chain) = true ->
    Iptables.refuses w (newCommand t chain) = None ->
    Iptables.InsertRule MegaInsert t parent index chain base extends
      (afterCommand (newCommand t chain) w) = Ret (None, t1, w1) ->
    exists (son : Iptables.ptr) (pr : Iptables.ChainRule.t)
           (t2 : Iptables.TableRule) (w2 : Iptables.World),
      Iptables.CreateChain MegaInsert t parent index chain base extends w
      = Ret (None, t2, w2)
      /\ Iptables.lookup chain t2 = Some son
      /\ (forall other, other <> chain ->
                        Iptables.lookup other t2 = Iptables.lookup other t)
      /\ nth_error (Iptables.heap w1) son = None
      /\ nth_error (Iptables.heap w2) son
         = Some (Iptables.ChainRule.mk chain (Some pp) [] None)
      /\ nth_error (Iptables.heap w1) pp = Some pr
      /\ nth_error (Iptables.heap w2) pp
         = Some (Iptables.ChainRule.mk (Iptables.ChainRule.chain pr)
                   (Iptables.ChainRule.parent pr)
                   (Iptables.ChainRule.sonSl pr ++ [son])
                   (Iptables.ChainRule.containSl pr))
      /\ (forall q, q <> pp -> q <> son ->
                    nth_error (Iptables.heap w2) q
                    = nth_error (Iptables.heap w1) q)
      /\ Iptables.executed w2 = Iptables.executed w1.
Proof.
  intros t parent index chain base extends w w1 t1 pp parentRule
         Hl Hn Hv Hr Hi.
  destruct (CreateChain_registers t parent index chain base extends w w1 t1
              pp parentRule Hl Hn Hv Hr Hi)
    as [pr [w2 [Hc [Hpr [_ [Hson [Hpar [Hoth [Hlen Hex]]]]]]]]].
  exists (List.length (Iptables.heap w1)), pr,
         (Iptables.assign chain (List.length (Iptables.heap w1)) t), w2.
  split; [exact Hc|]. split; [apply lookup_assign|].
  split; [intros other Ho; apply lookup_assign_other; exact Ho|].
  split; [apply nth_error_None; lia|].
  split; [exact Hson|]. split; [exact Hpr|]. split; [exact Hpar|].
  split; [|exact Hex].
  intros q Hq1 Hq2.
  destruct (Nat.lt_ge_cases q (List.length (Iptables.heap w1))) as [L|L].
  - apply Hoth; assumption.
  - transitivity (@None Iptables.ChainRule.t).
    + apply nth_error_None. lia.
    + symmetry. apply nth_error_None. lia.
Qed.

(** X28: [attach] links both ways.  With a nil parent it changes
    nothing.  With a parent that is another chain, the chain's parent
    becomes that chain and the chain becomes the last of the parent's
    sons, whether it was a son before or not; names, rules and all
    other chains stay. *)
Theorem attach_links_both_ways :
  forall (c : Iptables.ptr) (w : Iptables.World),
    Iptables.attach c None w = Ret w
    /\ forall (pp : Iptables.ptr) (cr pr : Iptables.ChainRule.t),
        nth_error (Iptables.heap w) c = Some cr ->
        nth_error (Iptables.heap w) pp = Some pr ->
        c <> pp ->
        exists w',
          Iptables.attach c (Some pp) w = Ret w'
          /\ nth_error (Iptables.heap w') c
             = Some (Iptables.ChainRule.mk (Iptables.ChainRule.chain cr)
                       (Some pp) (Iptables.ChainRule.sonSl cr)
                       (Iptables.ChainRule.containSl cr))
          /\ nth_error (Iptables.heap w') pp
             = Some (Iptables.ChainRule.mk (Iptables.ChainRule.chain pr)
                       (Iptables.ChainRule.parent pr)
                       (Iptables.ChainRule.sonSl pr ++ [c])
                       (Iptables.ChainRule.containSl pr))
          /\ (forall q, q <> c -> q <> pp ->
                        nth_error (Iptables.heap w') q
                        = nth_error (Iptables.heap w) q)
          /\ List.length (Iptables.heap w') = List.length (Iptables.heap w)
          /\ Iptables.executed w' = Iptables.executed w.
Proof.
  intros c w. split; [reflexivity|].
  intros pp cr pr. apply attach_spec.
Qed.

(** X29: where [AppendChain] puts the jump.  For a parent with [n]
    rules that holds neither the bare jump nor the jump asked for, and
    with iptables taking both commands, [AppendChain] runs the making
    of the chain and then the insert of the jump with rule number [n]
    (1 for an empty parent): the number of the parent's last rule, not
    [n + 1], the one behind it.  For a parent with at most one rule it
    does what [AddChain] does. *)
Theorem append_chain_position :
  forall (t : Iptables.TableRule) (parent chain : string)
         (base : Iptables.rules Iptables.BaseRule.t)
         (extends : Iptables.rules Iptables.ExtendsRule.t)
         (w : Iptables.World) (pp : Iptables.ptr)
         (parentRule : Iptables.ChainRule.t),
    Iptables.lookup parent t = Some pp ->
    nth_error (Iptables.heap w) pp = Some parentRule ->
    let n := List.length
               (Iptables.items (Iptables.ChainRule.containSl parentRule)) in
    ((n <= 1)%nat ->
     Iptables.AppendChain MegaInsert t parent chain base extends w
     = Iptables.AddChain MegaInsert t parent chain base extends w)
    /\ (~ In (bareJump chain)
           (Iptables.items (Iptables.ChainRule.containSl parentRule)) ->
        ~ In (Iptables.containRule.mk chain base extends)
           (Iptables.items (Iptables.ChainRule.containSl parentRule)) ->
        Iptables.refuses w (newCommand t chain) = None ->
        Iptables.refuses w
          (Iptables.mkRuleCommand (Iptables.table t) Iptables.Insert parent
             (Z.max 1 (Z.of_nat n))
             (Iptables.containRule.mk chain base extends)) = None ->
        exists (err : option Iptables.error) (t' : Iptables.TableRule)
               (w' : Iptables.World),
          Iptables.AppendChain MegaInsert t parent chain base extends w
          = Ret (err, t', w')
          /\ Iptables.executed w'
             = Iptables.executed w
               ++ [newCommand t chain;
                   Iptables.mkRuleCommand (Iptables.table t) Iptables.Insert
                     parent (Z.max 1 (Z.of_nat n))
                     (Iptables.containRule.mk chain base extends)]).
Proof.
  intros t parent chain base extends w pp parentRule Hl Hn n.
  assert (EA : Iptables.AppendChain MegaInsert t parent chain base extends w
               = Iptables.CreateChain MegaInsert t parent (appendIndex n)
                   chain base extends w).
  { unfold Iptables.AppendChain. rewrite Hl, Hn. reflexivity. }
  split.
  - intros Hle. rewrite EA. unfold Iptables.AddChain.
    replace (appendIndex n) with 0; [reflexivity|].
    unfold appendIndex. destruct (Z.ltb_spec 0 (Z.of_nat n)); lia.
  - intros Hb Hf Hr Hr'.
    assert (Hi : appendIndex n <= Z.of_nat n).
    { unfold appendIndex. destruct (Z.ltb_spec 0 (Z.of_nat n)); lia. }
    assert (Hcmd : insertCommand t parent (appendIndex n) chain base extends
                   = Iptables.mkRuleCommand (Iptables.table t)
                       Iptables.Insert parent (Z.max 1 (Z.of_nat n))
                       (Iptables.containRule.mk chain base extends)).
    { unfold insertCommand. f_equal. unfold appendIndex.
      destruct (Z.ltb_spec 0 (Z.of_nat n)); lia. }
    assert (Hv : Iptables.ChainRule.valid parentRule (appendIndex n)
                   (bareJump chain) = true).
    { apply valid_iff. split; [exact Hi | exact Hb]. }
    assert (Hv' : Iptables.ChainRule.valid parentRule (appendIndex n)
                    (Iptables.containRule.mk chain base extends) = true).
    { apply valid_iff. split; [exact Hi | exact Hf]. }
    rewrite <- Hcmd in Hr'. rewrite <- Hcmd. rewrite EA.
    destruct (InsertRule_runs t parent (appendIndex n) chain base extends
                (afterCommand (newCommand t chain) w) pp parentRule
                Hl Hn Hv' Hr') as [err [w1 [Hi1 He1]]].
    destruct err as [e|].
    + rewrite (CreateChain_step t parent (appendIndex n) chain base extends
                 w pp parentRule Hl Hn Hv Hr), Hi1.
      exists (Some e), t, w1. split; [reflexivity|].
      rewrite He1. cbn [afterCommand Iptables.executed].
      rewrite <- app_assoc. reflexivity.
    + destruct (CreateChain_registers t parent (appendIndex n) chain base
                  extends w w1 t pp parentRule Hl Hn Hv Hr Hi1)
        as [pr [w2 [Hc [_ [_ [_ [_ [_ [_ Hex]]]]]]]]].
      rewrite Hc. eexists _, _, w2. split; [reflexivity|].
      rewrite Hex, He1. cbn [afterCommand Iptables.executed].
      rewrite <- app_assoc. reflexivity.
Qed.

End CreateChain.
Lemma create_chain_refusals_witness :
  Iptables.CreateChain insertFront table_mangle "FORWARD" 0 "PROXY" None None
    world_ok
  = Ret (Some Iptables.ErrParentNotExist, table_mangle, world_ok)
  /\ Iptables.CreateChain insertFront table_mangle "INPUT" 1 "PROXY" None None
       world_ok
     = Ret (Some Iptables.ErrCreateChainInvalid, table_mangle, world_ok)
  /\ Iptables.CreateChain insertFront table_mangle "INPUT" 0 "PROXY" None None
       world_refusing
     = Ret (Some (Iptables.ErrCommand 1), table_mangle,
            afterCommand (newCommand table_mangle "PROXY") world_refusing).
Proof.
  split; [|split].
  - apply (proj1 (create_chain_refusals insertFront table_mangle "FORWARD" 0
                    "PROXY" None None world_ok)).
    reflexivity.
  - apply (proj1 (proj2 (create_chain_refusals insertFront table_mangle
                           "INPUT" 1 "PROXY" None None world_ok)
                    1%nat chain_input eq_refl eq_refl)).
    reflexivity.
  - apply (proj2 (proj2 (create_chain_refusals insertFront table_mangle
                           "INPUT" 0 "PROXY" None None world_refusing)
                    1%nat chain_input eq_refl eq_refl) 1).
    + reflexivity.
    + reflexivity.
Defined.

Lemma create_chain_no_rollback_witness :
  Iptables.CreateChain insertFront table_mangle "INPUT" 0 "PROXY"
    (Iptables.containRule.bsRules (jump_rule "PROXY")) None world_insert_fails
  = Ret (Some (Iptables.ErrCommand 2), table_mangle,
         Iptables.mkWorld [chain_output; chain_input]
           [newCommand table_mangle "PROXY";
            Iptables.mkRuleCommand "mangle" Iptables.Insert "INPUT" 1
              (jump_rule "PROXY")]
           (Iptables.refuses world_insert_fails)).
Proof.
  apply (create_chain_no_rollback insertFront table_mangle "INPUT" 0 "PROXY"
           (Iptables.containRule.bsRules (jump_rule "PROXY")) None
           world_insert_fails 1%nat chain_input 2).
  - reflexivity.
  - reflexivity.
  - reflexivity.
  - reflexivity.
  - reflexivity.
  - reflexivity.
Defined.

Lemma create_chain_registers_witness :
  exists (son : Iptables.ptr) (t2 : Iptables.TableRule) (w2 : Iptables.World),
    Iptables.CreateChain insertFront table_mangle "INPUT" 0 "PROXY"
      (Iptables.containRule.bsRules (jump_rule "PROXY")) None world_ok
    = Ret (None, t2, w2)
    /\ Iptables.lookup "PROXY" t2 = Some son
    /\ nth_error (Iptables.heap w2) son
       = Some (Iptables.ChainRule.mk "PROXY" (Some 1%nat) [] None).
Proof.
  destruct (create_chain_registers insertFront table_mangle "INPUT" 0 "PROXY"
              (Iptables.containRule.bsRules (jump_rule "PROXY")) None
              world_ok
              (Iptables.mkWorld
                 [chain_output;
                  Iptables.ChainRule.mk "INPUT" None []
                    (Some [jump_rule "PROXY"])]
                 [newCommand table_mangle "PROXY";
                  Iptables.mkRuleCommand "mangle" Iptables.Insert "INPUT" 1
                    (jump_rule "PROXY")]
                 (Iptables.refuses world_ok))
              table_mangle 1%nat chain_input
              eq_refl eq_refl eq_refl eq_refl eq_refl)
    as [son [pr [t2 [w2 [H1 [H2 [_ [_ [H3 _]]]]]]]]].
  exists son, t2, w2. split; [exact H1|]. split; [exact H2 | exact H3].
Defined.

Lemma attach_links_both_ways_witness :
  exists w' : Iptables.World,
    Iptables.attach 1%nat (Some 0%nat) world_ok = Ret w'
    /\ nth_error (Iptables.heap w') 1%nat
       = Some (Iptables.ChainRule.mk "INPUT" (Some 0%nat) [] None)
    /\ nth_error (Iptables.heap w') 0%nat
       = Some (Iptables.ChainRule.mk "OUTPUT" None [1%nat]
                 (Some [rule_accept; rule_drop])).
Proof.
  destruct (proj2 (attach_links_both_ways 1%nat world_ok)
              0%nat chain_input chain_output eq_refl eq_refl)
    as [w' [H1 [H2 [H3 _]]]].
  - intro H. discriminate H.
  - exists w'. split; [exact H1|]. split; [exact H2 | exact H3].
Defined.

Lemma append_chain_position_witness :
  exists (err : option Iptables.error) (t' : Iptables.TableRule)
         (w' : Iptables.World),
    Iptables.AppendChain insertFront table_mangle "OUTPUT" "PROXY"
      (Iptables.containRule.bsRules (jump_rule "PROXY")) None world_ok
    = Ret (err, t', w')
    /\ Iptables.executed w'
       = [newCommand table_mangle "PROXY";
          Iptables.mkRuleCommand "mangle" Iptables.Insert "OUTPUT" 2
            (jump_rule "PROXY")].
Proof.
  apply (proj2 (append_chain_position insertFront table_mangle "OUTPUT"
                  "PROXY" (Iptables.containRule.bsRules (jump_rule "PROXY"))
                  None world_ok 0%nat chain_output eq_refl eq_refl)).
  - intros [H|[H|[]]]; discriminate H.
  - intros [H|[H|[]]]; discriminate H.
  - reflexivity.
  - reflexivity.
Defined.
